(** * RingIO sample application (GPP side): a shallow embedding

    The development follows [ring_io.c] and [Linux/main.c].  The worker
    functions of the sample talk to the DSP/BIOS Link library (RingIO, PROC,
    POOL) and to the OS layer (semaphores, sleep, getchar).  Every such call
    is recorded as an [Event] of a trace, and the value the call hands back is
    taken from an explicit description of the environment, so that a theorem
    quantified over environments speaks about every run of the code.

    Integers are [Z] with the wrap-around of the C type written out. *)

From Stdlib Require Import String Ascii ZArith List Bool Lia.
Import ListNotations.
Local Open Scope Z_scope.

(** ** C integer types used by the sample *)

Definition Uint8 (z : Z) : Z := z mod 2 ^ 8.
Definition Uint16 (z : Z) : Z := z mod 2 ^ 16.
Definition Uint32 (z : Z) : Z := z mod 2 ^ 32.
Definition Int16 (z : Z) : Z := (z + 2 ^ 15) mod 2 ^ 16 - 2 ^ 15.

Definition TRUE : Z := 1.
Definition FALSE : Z := 0.
Definition NULL : Z := 0.

(** ** Constants defined at the top of ring_io.c *)

Definition NUM_ARGS : Z := 4.
Definition SAMPLE_POOL_ID : Z := 0.
Definition NUM_BUF_SIZES : Z := 7.
Definition RING_IO_ATTR_BUF_SIZE : Z := 2048.
Definition XFER_VALUE : Z := 5.
Definition RINGIO_DATA_START : Z := 1.
Definition NOTIFY_DATA_START : Z := 2.
Definition RINGIO_DATA_END : Z := 3.
Definition NOTIFY_DATA_END : Z := 4.
Definition RINGIO_DSP_END : Z := 5.
Definition NOTIFY_DSP_END : Z := 6.
Definition RING_IO_WRITER_BUF_SIZE : Z := 1024.
Definition RING_IO_VATTR_SIZE : Z := 1.

(** ** What the DSP/BIOS Link headers provide

    [dsplink.h], [errbase.h], [ringio.h] are not part of the sample.  Their
    status codes, macros and limits are the fields of a record; the sample is
    embedded over an arbitrary such record. *)

Record DspLink : Type := {
  DSP_SOK : Z;
  DSP_EFAIL : Z;
  DSP_EINVALIDARG : Z;
  RINGIO_SUCCESS : Z;
  RINGIO_EFAILURE : Z;
  RINGIO_EBUFEMPTY : Z;
  RINGIO_EPENDINGDATA : Z;
  RINGIO_EVARIABLEATTRIBUTE : Z;
  RINGIO_SPENDINGATTRIBUTE : Z;
  DSP_SUCCEEDED : Z -> bool;
  RINGIO_NOTIFICATION_ONCE : Z;
  RINGIO_MODE_WRITE : Z;
  RINGIO_MODE_READ : Z;
  RINGIO_NEED_EXACT_SIZE : Z;
  RINGIO_TRANSPORT_GPP_DSP : Z;
  DSPLINK_BUF_ALIGN : Z;
  DSPLINK_ALIGN : Z -> Z -> Z;
  MAX_DSPS : Z;
  MAX_PROCESSORS : Z;
  sizeof_RingIO_ControlStruct : Z;
  sizeof_MPCS_ShObj : Z
}.

Definition DSP_FAILED (L : DspLink) (status : Z) : bool :=
  negb (DSP_SUCCEEDED L status).

(** A configuration in the style of DSP/BIOS Link 1.65 for one DSP: success
    codes lie in [0x8000, 0x8500], failure codes have the top bit set, buffers
    are aligned to 128 bytes. *)
Definition link_1dsp : DspLink := {|
  DSP_SOK := 0x8000;
  DSP_EFAIL := 0x80008008;
  DSP_EINVALIDARG := 0x8000800B;
  RINGIO_SUCCESS := 0x8000;
  RINGIO_EFAILURE := 0x80008008;
  RINGIO_EBUFEMPTY := 0x80008902;
  RINGIO_EPENDINGDATA := 0x80008904;
  RINGIO_EVARIABLEATTRIBUTE := 0x80008905;
  RINGIO_SPENDINGATTRIBUTE := 0x8104;
  DSP_SUCCEEDED := fun s => (0x8000 <=? s) && (s <=? 0x8500);
  RINGIO_NOTIFICATION_ONCE := 2;
  RINGIO_MODE_WRITE := 2;
  RINGIO_MODE_READ := 1;
  RINGIO_NEED_EXACT_SIZE := 1;
  RINGIO_TRANSPORT_GPP_DSP := 2;
  DSPLINK_BUF_ALIGN := 128;
  DSPLINK_ALIGN := fun x y => Uint32 (Uint32 ((x + y - 1) / y) * y);
  MAX_DSPS := 1;
  MAX_PROCESSORS := 2;
  sizeof_RingIO_ControlStruct := 512;
  sizeof_MPCS_ShObj := 128
|}.

(** ** Traces

    One constructor per external call of the sample, carrying the arguments
    the code passes.  The informational [RING_IO_0Print]/[RING_IO_1Print]
    calls that only report a status are left out of the trace; the ones a
    property below speaks about (the usage text, the banner of
    [RING_IO_Main], the output of the verification function and the
    verification failure message) are recorded as [RING_IO_Print] with the
    format string (without its line breaks) and the numeric argument, if any.
    [RING_IO_InitBuffer_call] records the call of the sample's own
    [RING_IO_InitBuffer] on the acquired buffer. *)

Inductive Callback : Type :=
| RING_IO_Writer_Notify1
| RING_IO_Writer_Notify2
| RING_IO_Reader_Notify1
| RING_IO_Reader_Notify2.

Inductive Event : Type :=
| RING_IO_Print (fmt : string) (arg : option Z)
| Usage (argv0 : option string)
| getchar
| Write_Task_Run (v : Z)
| Read_Task_Run (v : Z)
| RingIO_open (name : string) (mode flags : Z)
| RING_IO_CreateSem
| RING_IO_DeleteSem (sem : Z)
| RING_IO_WaitSem (sem : Z)
| RING_IO_Sleep (us : Z)
| RING_IO_YieldClient
| RingIO_setNotifier (h notifyType watermark : Z) (fn : Callback) (param : Z)
| RingIO_setAttribute (h offset type param : Z)
| RingIO_getAttribute (h : Z)
| RingIO_setvAttribute (h offset type param : Z) (attrs : list Z) (size : Z)
| RingIO_getvAttribute (h size : Z)
| RingIO_sendNotify (h msg : Z)
| RingIO_acquire (h req : Z) (status granted : Z)
| RingIO_release (h size : Z) (status : Z)
| RingIO_cancel (h : Z)
| RingIO_getValidSize (h : Z) (valid : Z)
| RingIO_getValidAttrSize (h : Z) (valid : Z)
| RingIO_close (h : Z)
| RING_IO_InitBuffer_call (size : Z)
| RING_IO_Exit_client (client : Z)
| RING_IO_OS_init
| RING_IO_OS_exit
| PROC_setup
| PROC_attach (procId : Z)
| POOL_open (procId poolNo : Z) (sizes nums : list Z) (exactMatchReq : Z)
| PROC_load (procId : Z) (image : string) (numArgs : Z) (args : list Z)
| RingIO_create (procId : Z) (name : string) (poolProcId poolNo : Z)
    (dataBufSize footBufSize attrBufSize : Z)
| PROC_start (procId : Z)
| RingIO_delete (procId : Z) (name : string)
| PROC_stop (procId : Z)
| POOL_close (procId poolNo : Z)
| PROC_detach (procId : Z)
| PROC_destroy
| RING_IO_Create_client (client procId : Z)
| RING_IO_Join_client (client : Z).

Definition Trace : Type := list Event.

(** ** Buffers

    A buffer handed out by [RingIO_acquire] is the list of its bytes; a store
    outside the region has no defined result. *)

Fixpoint store (mem : list Z) (p : nat) (v : Z) : option (list Z) :=
  match mem, p with
  | [], _ => None
  | _ :: tl, O => Some (v :: tl)
  | x :: tl, S p' =>
      match store tl p' v with
      | Some tl' => Some (x :: tl')
      | None => None
      end
  end.

(** ** RING_IO_InitBuffer (ring_io.c, 3253-3270)

    The counter [i] is an [Int16]; in [i < size] it is converted to the
    unsigned 32-bit type of [size].  [ptr8] is the offset of the byte pointer
    into the buffer. *)

Fixpoint InitBuffer_loop (fuel : nat) (i size : Z) (ptr8 : nat) (mem : list Z)
  : option (list Z) :=
  match fuel with
  | O => None
  | S fuel' =>
      if Uint32 i <? size then
        match store mem ptr8 (Uint8 XFER_VALUE) with
        | Some mem' => InitBuffer_loop fuel' (Int16 (i + 1)) size (S ptr8) mem'
        | None => None
        end
      else Some mem
  end.

(** [buffer = None] stands for the NULL pointer.  The 16-bit counter takes at
    most 65536 values before the loop condition fails, which bounds the fuel. *)
Definition RING_IO_InitBuffer_fuel (fuel : nat) (buffer : option (list Z))
  (size : Z) : option (option (list Z)) :=
  match buffer with
  | None => Some None
  | Some mem =>
      match InitBuffer_loop fuel 0 size O mem with
      | Some mem' => Some (Some mem')
      | None => None
      end
  end.

Definition RING_IO_InitBuffer (buffer : option (list Z)) (size : Z)
  : option (option (list Z)) :=
  RING_IO_InitBuffer_fuel (Z.to_nat 65537) buffer size.

(** ** Runs against a finite description of the environment

    A loop of the sample consumes one entry of the environment's description
    per iteration.  When the description ends before the loop does, the run is
    [Pending]: the code is still inside the loop. *)

Inductive Outcome (A : Type) : Type :=
| Done (a : A)
| Pending.
Arguments Done {A} a.
Arguments Pending {A}.

Definition M (A : Type) : Type := (Trace * Outcome A)%type.

Definition ret {A : Type} (a : A) : M A := ([], Done a).
Definition emit (e : Event) : M unit := ([e], Done tt).
Definition pending {A : Type} : M A := ([], Pending).
Definition bind {A B : Type} (m : M A) (k : A -> M B) : M B :=
  match m with
  | (t, Done a) => let (t', r) := k a in (t ++ t', r)
  | (t, Pending) => (t, Pending)
  end.

Notation "x <- m ;; k" := (bind m (fun x => k))
  (at level 61, m at next level, right associativity).
Notation "m ;;; k" := (bind m (fun _ => k))
  (at level 61, right associativity).

Definition when (b : bool) (m : M unit) : M unit := if b then m else ret tt.

Definition is_done {A : Type} (o : Outcome A) : bool :=
  match o with Done _ => true | Pending => false end.

Definition trace_of {A : Type} (m : M A) : Trace := fst m.
Definition outcome_of {A : Type} (m : M A) : Outcome A := snd m.

Section Sample.

Context (L : DspLink).

(** ** RING_IO_Reader_VerifyData (ring_io.c, 3155-3240)

    The comparison against the expected contents is commented out in the
    source; what remains prints the first byte twenty times and returns the
    initial status. *)

Fixpoint VerifyData_loop (fuel : nat) (status i : Z) (first : Z) : Trace :=
  match fuel with
  | O => []
  | S fuel' =>
      if DSP_SUCCEEDED L status && (i <? 20) then
        RING_IO_Print "    Received [0x%x]  " (Some first)
          :: VerifyData_loop fuel' status (Int16 (i + 1)) first
      else []
  end.

Definition RING_IO_Reader_VerifyData (buffer : list Z) (size : Z) : Trace * Z :=
  let status := DSP_SOK L in
  (VerifyData_loop 21 status 0 (hd 0 buffer)
     ++ [RING_IO_Print EmptyString None],
   status).

(** The fill pattern a buffer is checked against: every byte of the first
    [size] bytes equals [v]. *)
Definition matches_pattern (v : Z) (buffer : list Z) (size : Z) : bool :=
  forallb (fun b => b =? v) (firstn (Z.to_nat size) buffer).

(** ** The data streaming loop of the writer (ring_io.c, 927-1037 and
    1635-1744)

    [T] is [RING_IO_BytesToTransfer1] (resp. [2]), [h] the writer handle and
    [sem] the writer semaphore.  One [StreamEnv] describes what the library
    answers during one iteration. *)

Record StreamEnv : Type := {
  sv_status : Z;       (* RingIO_setvAttribute *)
  acq_status : Z;      (* RingIO_acquire *)
  acq_size : Z;        (* acqSize after RingIO_acquire *)
  rel_status : Z;      (* RingIO_release *)
  cancel_status : Z;   (* RingIO_cancel *)
  wait_status : Z      (* RING_IO_WaitSem *)
}.

Definition sizeof_attrs : Z := 4 * RING_IO_VATTR_SIZE.

(** The branch taken when the acquired size runs past the frame length. *)
Definition overshoots (T bytesTransfered acqSize : Z) : bool :=
  negb (T =? 0) && (T <? Uint32 (bytesTransfered + acqSize)).

(** State carried around the loop: [(status, bytesTransfered)].  The
    [relStatus] of a release only selects a diagnostic print. *)
Definition writer_iter (h sem T : Z) (e : StreamEnv) (bytesTransfered : Z)
  : Trace * (Z * Z) :=
  let attrs := [T] in
  let status := sv_status e in
  let t0 := [RingIO_setvAttribute h 0 0 0 attrs sizeof_attrs] in
  if DSP_FAILED L status then
    (t0 ++ [RING_IO_Sleep 10], (status, bytesTransfered))
  else
    let status := acq_status e in
    let acqSize := Uint32 (acq_size e) in
    let t1 := t0 ++ [RingIO_acquire h T status acqSize] in
    if DSP_SUCCEEDED L status && (0 <? acqSize) then
      let t2 := t1 ++ [RING_IO_InitBuffer_call acqSize] in
      if overshoots T bytesTransfered acqSize then
        let relStatus := rel_status e in
        let t3 :=
          if negb (bytesTransfered =? T) then
            t2 ++ [RingIO_release h (Uint32 (T - bytesTransfered)) relStatus]
          else t2 in
        let status := cancel_status e in
        (t3 ++ [RingIO_cancel h], (status, T))
      else
        let relStatus := rel_status e in
        let t3 := t2 ++ [RingIO_release h acqSize relStatus] in
        if DSP_FAILED L relStatus then (t3, (status, bytesTransfered))
        else (t3, (status, Uint32 (bytesTransfered + acqSize)))
    else
      let status := wait_status e in
      (t1 ++ [RING_IO_WaitSem sem], (status, bytesTransfered)).

Fixpoint writer_stream (h sem T : Z) (envs : list StreamEnv)
  (status bytesTransfered : Z) : M (Z * Z) :=
  if (T =? 0) || (bytesTransfered <? T) then
    match envs with
    | [] => pending
    | e :: envs' =>
        let (t, s) := writer_iter h sem T e bytesTransfered in
        let (t', r) := writer_stream h sem T envs' (fst s) (snd s) in
        (t ++ t', r)
    end
  else ret (status, bytesTransfered).

(** Counting over traces. *)
Definition is_release (e : Event) : bool :=
  match e with RingIO_release _ _ _ => true | _ => false end.

Definition is_accepted_release (e : Event) : bool :=
  match e with RingIO_release _ _ st => DSP_SUCCEEDED L st | _ => false end.

Definition is_granted_acquire (e : Event) : bool :=
  match e with
  | RingIO_acquire _ _ st g => DSP_SUCCEEDED L st && (0 <? g)
  | _ => false
  end.

Definition is_cancel (e : Event) : bool :=
  match e with RingIO_cancel _ => true | _ => false end.

Definition count (p : Event -> bool) (t : Trace) : Z :=
  Z.of_nat (length (filter p t)).

(** Modelled from the spec: the RingIO library itself is not part of the
    sample.  Section 4.1 of the specification: [release(size)] commits [size]
    bytes of the prior acquisition, [cancel()] discards the unreleased
    remainder of the last acquisition.  [ring_account t (out, disc)] follows a
    trace and keeps [out], the bytes acquired and neither released nor
    cancelled, and [disc], the bytes discarded by [cancel] so far. *)
Fixpoint ring_account (t : Trace) (acc : Z * Z) : Z * Z :=
  match t with
  | [] => acc
  | RingIO_acquire _ _ st g :: t' =>
      ring_account t' (if DSP_SUCCEEDED L st then (fst acc + g, snd acc) else acc)
  | RingIO_release _ n st :: t' =>
      ring_account t' (if DSP_SUCCEEDED L st then (fst acc - n, snd acc) else acc)
  | RingIO_cancel _ :: t' =>
      ring_account t' (0, snd acc + fst acc)
  | _ :: t' => ring_account t' acc
  end.

Definition cancelled_bytes (t : Trace) : Z := snd (ring_account t (0, 0)).

(** An iteration commits bytes when the attribute is set, the acquire grants
    a non-empty buffer and the release is accepted. *)
Definition commits (e : StreamEnv) : bool :=
  DSP_SUCCEEDED L (sv_status e) && DSP_SUCCEEDED L (acq_status e)
  && (0 <? Uint32 (acq_size e)) && DSP_SUCCEEDED L (rel_status e).

Definition count_commits (envs : list StreamEnv) : Z :=
  Z.of_nat (length (filter commits envs)).

(** Every successful acquire of the description grants exactly [C] bytes. *)
Definition grants_C (C : Z) (envs : list StreamEnv) : Prop :=
  forall e, In e envs ->
    DSP_SUCCEEDED L (acq_status e) = true -> Uint32 (acq_size e) = C.

(** ** Globals set by RING_IO_Create (ring_io.c, 514-534) *)

Record Globals : Type := {
  RING_IO_BufferSize : Z;
  RING_IO_BufferSize1 : Z;
  RING_IO_BufferSize2 : Z;
  RING_IO_BufferSize3 : Z;
  RING_IO_BytesToTransfer1 : Z;
  RING_IO_BytesToTransfer2 : Z
}.

Definition align (x : Z) : Z := Uint32 (DSPLINK_ALIGN L x (DSPLINK_BUF_ALIGN L)).

Definition RING_IO_Create_globals : Globals := {|
  RING_IO_BufferSize := align 1024;
  RING_IO_BufferSize1 := align 4096;
  RING_IO_BufferSize2 := align 2048;
  RING_IO_BufferSize3 := align 2048;
  RING_IO_BytesToTransfer1 := align 1024;
  RING_IO_BytesToTransfer2 := align 2048
|}.

(** ** The read loop (ring_io.c, 1147-1305, 1854-2013, 2292-2445, and the
    same loop of RING_IO_ReaderClient2)

    [bufsize] is [RING_IO_BufferSize1] (resp. [3]).  [r_attr_type] and
    [r_vattr_value] are the contents of [type] and [attrs[0]] after the call
    that may write them. *)

Record ReadEnv : Type := {
  r_acq_status : Z;     (* RingIO_acquire *)
  r_acq_size : Z;       (* acqSize after RingIO_acquire *)
  r_acq_buf : list Z;   (* contents of the buffer handed out *)
  r_rel_status : Z;     (* RingIO_release *)
  r_attr_status : Z;    (* RingIO_getAttribute *)
  r_attr_type : Z;
  r_vattr_status : Z;   (* RingIO_getvAttribute *)
  r_vattr_value : Z;
  r_wait_status : Z     (* RING_IO_WaitSem *)
}.

Record ReaderState : Type := {
  status : Z;
  acqSize : Z;
  rcvSize : Z;
  totalRcvbytes : Z;
  exitFlag : Z
}.

Definition reader_iter (h sem bufsize : Z) (verifyMsg : string)
  (e : ReadEnv) (s : ReaderState) : Trace * ReaderState :=
  let st := r_acq_status e in
  let acq := Uint32 (r_acq_size e) in
  let t0 := [RingIO_acquire h (acqSize s) st acq] in
  let '(t, s') :=
    if (st =? RINGIO_SUCCESS L) || (0 <? acq) then
      (* Got buffer from DSP *)
      let rcv := Uint32 (rcvSize s - acq) in
      let total := Uint32 (totalRcvbytes s + acq) in
      let (tv, vstatus) := RING_IO_Reader_VerifyData (r_acq_buf e) acq in
      let tlog := if negb (DSP_SOK L =? vstatus)
                  then [RING_IO_Print verifyMsg (Some total)] else [] in
      let trel := [RingIO_release h acq (r_rel_status e)] in
      (t0 ++ tv ++ tlog ++ trel,
       if rcv =? 0 then
         {| status := st; acqSize := bufsize; rcvSize := bufsize;
            totalRcvbytes := total; exitFlag := exitFlag s |}
       else
         {| status := st; acqSize := rcv; rcvSize := rcv;
            totalRcvbytes := total; exitFlag := exitFlag s |})
    else if (st =? RINGIO_SPENDINGATTRIBUTE L) && (acq =? 0) then
      (* Attribute is pending, read it *)
      let attrStatus := r_attr_status e in
      let t1 := t0 ++ [RingIO_getAttribute h] in
      if (attrStatus =? RINGIO_SUCCESS L)
         || (attrStatus =? RINGIO_SPENDINGATTRIBUTE L) then
        if Uint16 (r_attr_type e) =? RINGIO_DATA_END then
          (t1, {| status := st; acqSize := acq; rcvSize := rcvSize s;
                  totalRcvbytes := totalRcvbytes s; exitFlag := TRUE |})
        else
          (t1, {| status := st; acqSize := acq; rcvSize := rcvSize s;
                  totalRcvbytes := totalRcvbytes s; exitFlag := exitFlag s |})
      else if attrStatus =? RINGIO_EVARIABLEATTRIBUTE L then
        let attrStatus := r_vattr_status e in
        let t2 := t1 ++ [RingIO_getvAttribute h sizeof_attrs] in
        if (attrStatus =? RINGIO_SUCCESS L)
           || (attrStatus =? RINGIO_SPENDINGATTRIBUTE L) then
          let rcv := Uint32 (r_vattr_value e) in
          (t2, {| status := st; acqSize := rcv; rcvSize := rcv;
                  totalRcvbytes := totalRcvbytes s; exitFlag := exitFlag s |})
        else
          (t2, {| status := st; acqSize := acq; rcvSize := rcvSize s;
                  totalRcvbytes := totalRcvbytes s; exitFlag := exitFlag s |})
      else
        (t1, {| status := st; acqSize := acq; rcvSize := rcvSize s;
                totalRcvbytes := totalRcvbytes s; exitFlag := exitFlag s |})
    else if (st =? RINGIO_EFAILURE L) || (st =? RINGIO_EBUFEMPTY L) then
      (* Failed to acquire buffer *)
      (t0 ++ [RING_IO_WaitSem sem],
       {| status := r_wait_status e; acqSize := acq; rcvSize := rcvSize s;
          totalRcvbytes := totalRcvbytes s; exitFlag := exitFlag s |})
    else
      (t0, {| status := st; acqSize := bufsize; rcvSize := rcvSize s;
              totalRcvbytes := totalRcvbytes s; exitFlag := exitFlag s |}) in
  (* Reset the acquired size if it is changed to zero *)
  (t, if acqSize s' =? 0 then
        {| status := status s'; acqSize := bufsize; rcvSize := rcvSize s';
           totalRcvbytes := totalRcvbytes s'; exitFlag := exitFlag s' |}
      else s').

Fixpoint reader_loop (h sem bufsize : Z) (verifyMsg : string)
  (envs : list ReadEnv) (s : ReaderState) : M ReaderState :=
  if exitFlag s =? FALSE then
    match envs with
    | [] => pending
    | e :: envs' =>
        let (t, s') := reader_iter h sem bufsize verifyMsg e s in
        let (t', r) := reader_loop h sem bufsize verifyMsg envs' s' in
        (t ++ t', r)
    end
  else ret s.

(** [acqSize = RING_IO_BufferSize1;] followed by the loop. *)
Definition read_data (h sem bufsize : Z) (verifyMsg : string)
  (envs : list ReadEnv) (s : ReaderState) : M ReaderState :=
  reader_loop h sem bufsize verifyMsg envs
    {| status := status s; acqSize := bufsize; rcvSize := rcvSize s;
       totalRcvbytes := totalRcvbytes s; exitFlag := exitFlag s |}.

Definition acquire_request_positive (e : Event) : bool :=
  match e with
  | RingIO_acquire _ req _ _ => 0 <? req
  | _ => true
  end.

(** ** The two writer workers

    [RING_IO_WriterClient1] and [RING_IO_WriterClient2] are the same text up
    to the names and constants collected in a [Client], and up to the head of
    the outer loop. *)

Inductive LoopHead : Type :=
| StdinDot        (* c = getchar (); if (c == '.') { Task_Run = FALSE; break; } *)
| SleepTaskRun.   (* RING_IO_Sleep (5000000); if (Task_Run == FALSE) break; *)

Record Client : Type := {
  writerName : string;
  readerName : string;
  watermark : Z;           (* third argument of the writer's RingIO_setNotifier *)
  writerNotify : Callback;
  readerNotify : Callback;
  bytesToTransfer : Z;     (* RING_IO_BytesToTransfer1 / 2 *)
  rcvSize_init : Z;        (* initializer of rcvSize *)
  readBufSize : Z;         (* RING_IO_BufferSize1 / 3 *)
  verifyMsg : string;
  clientInfo : Z;
  loopHead : LoopHead
}.

Definition client1 (g : Globals) : Client := {|
  writerName := "RINGIO1";
  readerName := "RINGIO2";
  watermark := RING_IO_BytesToTransfer1 g;
  writerNotify := RING_IO_Writer_Notify1;
  readerNotify := RING_IO_Reader_Notify1;
  bytesToTransfer := RING_IO_BytesToTransfer1 g;
  rcvSize_init := RING_IO_BufferSize1 g;
  readBufSize := RING_IO_BufferSize1 g;
  verifyMsg := " Data1 verification failed after%ld bytes received from DSP ";
  clientInfo := 1;
  loopHead := StdinDot
|}.

Definition client2 (g : Globals) : Client := {|
  writerName := "RINGIO3";
  readerName := "RINGIO4";
  watermark := RING_IO_WRITER_BUF_SIZE;
  writerNotify := RING_IO_Writer_Notify2;
  readerNotify := RING_IO_Reader_Notify2;
  bytesToTransfer := RING_IO_BytesToTransfer2 g;
  rcvSize_init := RING_IO_BufferSize1 g;
  readBufSize := RING_IO_BufferSize3 g;
  verifyMsg := " Data verification2 failed after%ld bytes received from DSP ";
  clientInfo := 2;
  loopHead := SleepTaskRun
|}.

(** *** Opening the writer side (729-806, 1432-1510) *)

Fixpoint setNotifier_writer (h watermark : Z) (fn : Callback) (sem : Z)
  (rs : list Z) : M Z :=
  match rs with
  | [] => pending
  | st :: rs' =>
      emit (RingIO_setNotifier h (RINGIO_NOTIFICATION_ONCE L) watermark fn sem) ;;;
      when (negb (st =? RINGIO_SUCCESS L)) (emit (RING_IO_Sleep 10)) ;;;
      if DSP_FAILED L st then setNotifier_writer h watermark fn sem rs'
      else ret st
  end.

Record OpenEnv : Type := {
  o_handle : Z;             (* RingIO_open *)
  o_sem_status : Z;         (* RING_IO_CreateSem *)
  o_sem : Z;                (* the semaphore pointer after RING_IO_CreateSem *)
  o_notifier : list Z       (* RingIO_setNotifier, one status per attempt *)
}.

(** Result: [(status, handle, semPtrWriter)]. *)
Definition writer_open (c : Client) (e : OpenEnv) : M (Z * Z * Z) :=
  emit (RingIO_open (writerName c) (RINGIO_MODE_WRITE L)
          (Uint32 (RINGIO_NEED_EXACT_SIZE L))) ;;;
  let h := o_handle e in
  let st := if h =? NULL then RINGIO_EFAILURE L else DSP_SOK L in
  r <- (if DSP_SUCCEEDED L st
        then emit RING_IO_CreateSem ;;; ret (o_sem_status e, o_sem e)
        else ret (st, NULL)) ;;
  st' <- (if DSP_SUCCEEDED L (fst r)
          then setNotifier_writer h (watermark c) (writerNotify c) (snd r)
                 (o_notifier e)
          else ret (fst r)) ;;
  ret (st', h, snd r).

(** *** Opening the reader side (817-866, 1522-1569) *)

Fixpoint open_reader (name : string) (hs : list Z) : M Z :=
  match hs with
  | [] => pending
  | h :: hs' =>
      emit (RingIO_open name (RINGIO_MODE_READ L) 0) ;;;
      if h =? NULL then open_reader name hs' else ret h
  end.

Fixpoint setNotifier_reader (h : Z) (fn : Callback) (sem : Z) (rs : list Z)
  : M Z :=
  match rs with
  | [] => pending
  | st :: rs' =>
      emit (RingIO_setNotifier h (RINGIO_NOTIFICATION_ONCE L) 0 fn sem) ;;;
      if DSP_FAILED L st
      then emit (RING_IO_Sleep 10) ;;; setNotifier_reader h fn sem rs'
      else ret st
  end.

Record OpenReaderEnv : Type := {
  or_handles : list Z;      (* RingIO_open, one handle per attempt *)
  or_sem_status : Z;
  or_sem : Z;
  or_notifier : list Z
}.

Definition reader_open (c : Client) (e : OpenReaderEnv) : M (Z * Z * Z) :=
  h <- open_reader (readerName c) (or_handles e) ;;
  emit RING_IO_CreateSem ;;;
  let st := or_sem_status e in
  st' <- (if DSP_SUCCEEDED L st
          then setNotifier_reader h (readerNotify c) (or_sem e) (or_notifier e)
          else ret st) ;;
  ret (st', h, or_sem e).

(** *** One pass of the outer loop: write task, then read task
    (884-1329, 1591-2038) *)

Fixpoint notify_start (wh : Z) (rs : list Z) : M Z :=
  match rs with
  | [] => pending
  | st :: rs' =>
      emit (RingIO_sendNotify wh NOTIFY_DATA_START) ;;;
      when (DSP_FAILED L st) (emit (RING_IO_Sleep 10)) ;;;
      if negb (st =? RINGIO_SUCCESS L) then notify_start wh rs' else ret st
  end.

Fixpoint set_end (wh : Z) (rs : list Z) : M Z :=
  match rs with
  | [] => pending
  | st :: rs' =>
      emit (RingIO_setAttribute wh 0 (Uint16 RINGIO_DATA_END) 0) ;;;
      if negb (st =? RINGIO_SUCCESS L) then set_end wh rs' else ret st
  end.

Fixpoint get_start (rh : Z) (rs : list (Z * Z)) : M Z :=
  match rs with
  | [] => pending
  | (st, ty) :: rs' =>
      emit (RingIO_getAttribute rh) ;;;
      if (st =? RINGIO_SUCCESS L) || (st =? RINGIO_SPENDINGATTRIBUTE L) then
        if Uint16 ty =? Uint16 RINGIO_DATA_START then ret st
        else emit (RING_IO_Sleep 10) ;;; ret st
      else emit (RING_IO_Sleep 10) ;;; get_start rh rs'
  end.

Record FrameEnv : Type := {
  f_start_attr : Z;               (* RingIO_setAttribute (RINGIO_DATA_START) *)
  f_start_notify : list Z;        (* RingIO_sendNotify (NOTIFY_DATA_START) *)
  f_stream : list StreamEnv;
  f_end_attr : list Z;            (* RingIO_setAttribute (RINGIO_DATA_END) *)
  f_end_notify : Z;               (* RingIO_sendNotify (NOTIFY_DATA_END) *)
  f_wait_start : Z;               (* RING_IO_WaitSem (semPtrReader) *)
  f_fReaderStart : Z;             (* fReaderStart when tested *)
  f_get_start : list (Z * Z);     (* RingIO_getAttribute: status, type *)
  f_read : list ReadEnv;
  f_fReaderEnd : Z;               (* fReaderEnd when tested *)
  f_wait_end : Z
}.

Definition with_status (st : Z) (s : ReaderState) : ReaderState :=
  {| status := st; acqSize := acqSize s; rcvSize := rcvSize s;
     totalRcvbytes := totalRcvbytes s; exitFlag := exitFlag s |}.

(** State across passes: [bytesTransfered] and the reader's locals. *)
Definition write_task (c : Client) (wh semW : Z) (fe : FrameEnv)
  (bytesTransfered st : Z) : M (Z * Z) :=
  st1 <- (if DSP_SUCCEEDED L st
          then emit (RingIO_setAttribute wh 0 (Uint16 RINGIO_DATA_START) 0) ;;;
               ret (f_start_attr fe)
          else ret st) ;;
  st2 <- (if DSP_SUCCEEDED L st1 then notify_start wh (f_start_notify fe)
          else ret st1) ;;
  if DSP_SUCCEEDED L st2 then
    writer_stream wh semW (bytesToTransfer c) (f_stream fe) st2 bytesTransfered ;;;
    st3 <- set_end wh (f_end_attr fe) ;;
    st4 <- (if DSP_SUCCEEDED L st3
            then emit (RingIO_sendNotify wh NOTIFY_DATA_END) ;;;
                 when (DSP_SUCCEEDED L (f_end_notify fe)) (emit RING_IO_YieldClient) ;;;
                 ret (f_end_notify fe)
            else ret st3) ;;
    ret (st4, 0)
  else ret (st2, bytesTransfered).

Definition read_task (c : Client) (rh semR : Z) (fe : FrameEnv)
  (s : ReaderState) : M ReaderState :=
  s1 <- (if DSP_SUCCEEDED L (status s) then
           emit (RING_IO_WaitSem semR) ;;;
           st <- (if f_fReaderStart fe =? TRUE
                  then get_start rh (f_get_start fe)
                  else ret (f_wait_start fe)) ;;
           read_data rh semR (readBufSize c) (verifyMsg c) (f_read fe)
             (with_status st s)
         else ret s) ;;
  s2 <- (if negb (f_fReaderEnd fe =? TRUE)
         then emit (RING_IO_WaitSem semR) ;;; ret (with_status (f_wait_end fe) s1)
         else ret s1) ;;
  ret {| status := status s2; acqSize := acqSize s2;
         rcvSize := readBufSize c; totalRcvbytes := 0; exitFlag := FALSE |}.

Definition frame (c : Client) (wh semW rh semR : Z) (fe : FrameEnv)
  (bytesTransfered : Z) (s : ReaderState) : M (Z * ReaderState) :=
  w <- write_task c wh semW fe bytesTransfered (status s) ;;
  s' <- read_task c rh semR fe (with_status (fst w) s) ;;
  ret (snd w, s').

(** The head of the outer loop; [v] is the character read (worker 1) or the
    value of [Task_Run] (worker 2).  The result tells whether the loop is
    left. *)
Definition loop_head (c : Client) (v : Z) : Trace * bool :=
  match loopHead c with
  | StdinDot =>
      if v =? 46 then ([getchar; Write_Task_Run FALSE], true)
      else ([getchar], false)
  | SleepTaskRun =>
      ([RING_IO_Sleep 5000000; Read_Task_Run v], v =? FALSE)
  end.

Fixpoint frames (c : Client) (wh semW rh semR : Z)
  (fs : list (Z * FrameEnv)) (bytesTransfered : Z) (s : ReaderState)
  : M (Z * ReaderState) :=
  match fs with
  | [] => pending
  | (v, fe) :: fs' =>
      let (t, leave) := loop_head c v in
      if leave then (t, Done (bytesTransfered, s))
      else
        bind (t, Done tt) (fun _ =>
          r <- frame c wh semW rh semR fe bytesTransfered s ;;
          frames c wh semW rh semR fs' (fst r) (snd r))
  end.

(** *** Leaving: the DSP-end notification and the close of both sides
    (1339-1428, 2046-2129) *)

Fixpoint notify_dsp_end (wh : Z) (rs : list Z) (st : Z) : M Z :=
  match rs with
  | [] => pending
  | tmpStatus :: rs' =>
      emit (RingIO_sendNotify wh NOTIFY_DSP_END) ;;;
      if DSP_FAILED L tmpStatus
      then emit (RING_IO_Sleep 10) ;;; notify_dsp_end wh rs' tmpStatus
      else ret (RINGIO_SUCCESS L)
  end.

(** The wait before [RingIO_close]: one entry per evaluation of the loop
    condition, the valid size and the valid attribute size reported.  The
    second call is only made when the first reports 0. *)
Fixpoint drain (wh : Z) (obs : list (Z * Z)) : M unit :=
  match obs with
  | [] => pending
  | (v, a) :: obs' =>
      emit (RingIO_getValidSize wh v) ;;;
      if negb (v =? 0) then
        emit (RING_IO_Sleep 10) ;;; drain wh obs'
      else
        emit (RingIO_getValidAttrSize wh a) ;;;
        if negb (a =? 0) then emit (RING_IO_Sleep 10) ;;; drain wh obs'
        else ret tt
  end.

Definition close_writer (wh : Z) (obs : list (Z * Z)) : M unit :=
  if negb (wh =? NULL) then
    drain wh obs ;;; emit (RingIO_close wh)
  else ret tt.

Record CloseEnv : Type := {
  c_dsp_end : list Z;       (* RingIO_sendNotify (NOTIFY_DSP_END) *)
  c_del_writer : Z;         (* RING_IO_DeleteSem (semPtrWriter) *)
  c_drain : list (Z * Z);
  c_del_reader : Z          (* RING_IO_DeleteSem (semPtrReader) *)
}.

Definition delete_sem (sem : Z) (tmpStatus st : Z) : M Z :=
  if negb (sem =? NULL) then
    emit (RING_IO_DeleteSem sem) ;;;
    ret (if DSP_SUCCEEDED L st && DSP_FAILED L tmpStatus then tmpStatus else st)
  else ret st.

Definition leave (c : Client) (wh semW rh semR : Z) (e : CloseEnv) (st : Z)
  : M unit :=
  st1 <- notify_dsp_end wh (c_dsp_end e) st ;;
  st2 <- delete_sem semW (c_del_writer e) st1 ;;
  close_writer wh (c_drain e) ;;;
  delete_sem semR (c_del_reader e) st2 ;;;
  when (negb (rh =? NULL)) (emit (RingIO_close rh)) ;;;
  emit (RING_IO_Exit_client (clientInfo c)).

(** *** The worker *)

Record ClientEnv : Type := {
  e_open : OpenEnv;
  e_open_reader : OpenReaderEnv;
  e_frames : list (Z * FrameEnv);
  e_close : CloseEnv
}.

Definition WriterClient (c : Client) (e : ClientEnv) : M unit :=
  w <- writer_open c (e_open e) ;;
  let '(_, wh, semW) := w in
  r <- reader_open c (e_open_reader e) ;;
  let '(st, rh, semR) := r in
  l <- frames c wh semW rh semR (e_frames e) 0
         {| status := st; acqSize := 0; rcvSize := rcvSize_init c;
            totalRcvbytes := 0; exitFlag := FALSE |} ;;
  leave c wh semW rh semR (e_close e) (status (snd l)).

Definition RING_IO_WriterClient1 (g : Globals) : ClientEnv -> M unit :=
  WriterClient (client1 g).

Definition RING_IO_WriterClient2 (g : Globals) : ClientEnv -> M unit :=
  WriterClient (client2 g).

Definition is_close (e : Event) : bool :=
  match e with RingIO_close _ => true | _ => false end.

(** Both sizes are reported as 0. *)
Definition drained (o : Z * Z) : bool := (fst o =? 0) && (snd o =? 0).

Definition reports_size_0 (wh : Z) (e : option Event) : bool :=
  match e with
  | Some (RingIO_getValidSize h v) => (h =? wh) && (v =? 0)
  | _ => false
  end.

Definition reports_attr_0 (wh : Z) (e : option Event) : bool :=
  match e with
  | Some (RingIO_getValidAttrSize h v) => (h =? wh) && (v =? 0)
  | _ => false
  end.

(** Every [RingIO_close] of the handle [wh] in the trace comes right after
    [RingIO_getValidSize] and [RingIO_getValidAttrSize] reported 0 for [wh];
    [p2] and [p1] are the two calls before the trace. *)
Fixpoint closes_drained (wh : Z) (p2 p1 : option Event) (t : Trace) : bool :=
  match t with
  | [] => true
  | e :: t' =>
      match e with
      | RingIO_close h =>
          negb (h =? wh) || (reports_size_0 wh p2 && reports_attr_0 wh p1)
      | _ => true
      end && closes_drained wh p1 (Some e) t'
  end.

Definition sleeps_10 (e : Event) : bool :=
  match e with RING_IO_Sleep us => us =? 10 | _ => true end.

(** The [RingIO_setNotifier] calls of a trace: type, watermark, callback and
    parameter. *)
Fixpoint notifiers (t : Trace) : list (Z * Z * Callback * Z) :=
  match t with
  | [] => []
  | RingIO_setNotifier _ ty wm fn p :: t' => (ty, wm, fn, p) :: notifiers t'
  | _ :: t' => notifiers t'
  end.

(** A [RingIO_setNotifier] call registers a once-only notifier with the
    watermark and callback of the worker [c], bound to the semaphore [sem]. *)
Definition registers (c : Client) (sem : Z) (e : Event) : Prop :=
  match e with
  | RingIO_setNotifier _ ty wm fn p =>
      ty = RINGIO_NOTIFICATION_ONCE L /\ wm = watermark c /\
      fn = writerNotify c /\ p = sem
  | _ => True
  end.

Definition is_Read_Task_Run (e : Event) : bool :=
  match e with Read_Task_Run _ => true | _ => false end.

(** A call that is not a read of [Task_Run]; a call that is not a
    [RingIO_close]. *)
Definition quiet (e : Event) : Prop := is_Read_Task_Run e = false.
Definition no_close (e : Event) : Prop := is_close e = false.

(** Every read of [Task_Run] in the trace comes right after
    [RING_IO_Sleep (5000000)], the first statement of the outer loop of the
    second worker; [prev] is the call before the trace. *)
Fixpoint polls_follow_sleep (prev : option Event) (t : Trace) : bool :=
  match t with
  | [] => true
  | e :: t' =>
      match e with
      | Read_Task_Run _ =>
          match prev with
          | Some (RING_IO_Sleep us) => us =? 5000000
          | _ => false
          end
      | _ => true
      end && polls_follow_sleep (Some e) t'
  end.

(** The values of [Task_Run] read along a trace, in order. *)
Fixpoint polled (t : Trace) : list Z :=
  match t with
  | [] => []
  | Read_Task_Run v :: t' => v :: polled t'
  | _ :: t' => polled t'
  end.

(** ** RING_IO_Create (ring_io.c, 490-672)

    The pool identifier [POOL_makePoolId (processorId, SAMPLE_POOL_ID)] is
    recorded by its two arguments.  [RingIO_create] is the variant without
    [DSPLINK_LEGACY_SUPPORT]. *)

Record CreateEnv : Type := {
  cr_os_init : Z;
  cr_setup : Z;
  cr_attach : Z;
  cr_pool_open : Z;
  cr_load : Z;
  cr_create1 : Z;
  cr_create2 : Z;
  cr_start : Z
}.

Definition numBufs : list Z := [1; 1; 1; 1; 4; 4; 4].

Definition sizes (g : Globals) : list Z :=
  [RING_IO_BufferSize g; RING_IO_BufferSize1 g; RING_IO_BufferSize2 g;
   RING_IO_BufferSize3 g; RING_IO_ATTR_BUF_SIZE;
   sizeof_RingIO_ControlStruct L; sizeof_MPCS_ShObj L].

Definition RING_IO_Create (dspExecutable : string) (processorId : Z)
  (e : CreateEnv) : M Z :=
  let g := RING_IO_Create_globals in
  let size := sizes g in
  emit RING_IO_OS_init ;;;
  emit PROC_setup ;;;
  let st := cr_setup e in
  st <- (if DSP_SUCCEEDED L st
         then emit (PROC_attach processorId) ;;; ret (cr_attach e)
         else ret st) ;;
  st <- (if DSP_SUCCEEDED L st
         then emit (POOL_open processorId SAMPLE_POOL_ID size numBufs TRUE) ;;;
              ret (cr_pool_open e)
         else ret st) ;;
  st <- (if DSP_SUCCEEDED L st
         then emit (PROC_load processorId dspExecutable NUM_ARGS
                      [nth 1 size 0; nth 3 size 0; RING_IO_ATTR_BUF_SIZE; 0]) ;;;
              ret (cr_load e)
         else ret st) ;;
  st <- (if DSP_SUCCEEDED L st
         then emit (RingIO_create processorId "RINGIO1" processorId SAMPLE_POOL_ID
                      (nth 0 size 0) 0 RING_IO_ATTR_BUF_SIZE) ;;;
              ret (cr_create1 e)
         else ret st) ;;
  st <- (if DSP_SUCCEEDED L st
         then emit (RingIO_create processorId "RINGIO3" processorId SAMPLE_POOL_ID
                      (nth 2 size 0) 0 RING_IO_ATTR_BUF_SIZE) ;;;
              ret (cr_create2 e)
         else ret st) ;;
  if DSP_SUCCEEDED L st
  then emit (PROC_start processorId) ;;; ret (cr_start e)
  else ret st.

(** ** RING_IO_Delete (ring_io.c, 2842-2947) *)

Fixpoint delete_ring (processorId : Z) (name : string) (rs : list Z) : M unit :=
  match rs with
  | [] => pending
  | tmpStatus :: rs' =>
      emit (RingIO_delete processorId name) ;;;
      if DSP_FAILED L tmpStatus
      then emit (RING_IO_Sleep 10) ;;; delete_ring processorId name rs'
      else ret tt
  end.

Record DeleteEnv : Type := {
  d_delete1 : list Z;
  d_delete2 : list Z
}.

Definition RING_IO_Delete (processorId : Z) (e : DeleteEnv) : M unit :=
  delete_ring processorId "RINGIO1" (d_delete1 e) ;;;
  delete_ring processorId "RINGIO3" (d_delete2 e) ;;;
  emit (PROC_stop processorId) ;;;
  emit (POOL_close processorId SAMPLE_POOL_ID) ;;;
  emit (PROC_detach processorId) ;;;
  emit PROC_destroy ;;;
  emit RING_IO_OS_exit.

(** ** RING_IO_Main (ring_io.c, 2957-3145)

    The two workers run as threads of their own; their calls are not part of
    this trace.  [RING_IO_Join_client] returns when the worker has ended. *)

Record MainEnv : Type := {
  m_create : CreateEnv;
  m_client1 : Z;            (* RING_IO_Create_client (&writerClientInfo1) *)
  m_client2 : Z;
  m_join1 : bool;           (* does worker 1 end *)
  m_join2 : bool;
  m_delete : DeleteEnv
}.

Definition banner : string := "========== Sample Application : RING_IO ==========".

Definition join (client : Z) (ends : bool) : M unit :=
  emit (RING_IO_Join_client client) ;;;
  if ends then ret tt else pending.

Definition RING_IO_Main (dspExecutable : option string)
  (strBufferSize strBytesToTransfer strProcessorId : string) (e : MainEnv)
  : M unit :=
  let status := DSP_SOK L in
  let processorId := Uint8 0 in
  emit (RING_IO_Print banner None) ;;;
  match dspExecutable with
  | Some exe =>
      st <- (if MAX_DSPS L <=? processorId
             then emit (RING_IO_Print
                          "==Error: Invalid processor id %d specified =="
                          (Some processorId)) ;;;
                  ret (DSP_EINVALIDARG L)
             else ret status) ;;
      when (st =? DSP_SOK L)
        (st <- RING_IO_Create exe processorId (m_create e) ;;
         st <- (if DSP_SUCCEEDED L st then
                  emit (RING_IO_Create_client 1 processorId) ;;;
                  let st := m_client1 e in
                  if DSP_SUCCEEDED L st then
                    emit (RING_IO_Create_client 2 processorId) ;;;
                    ret (m_client2 e)
                  else ret st
                else ret st) ;;
         when (DSP_SUCCEEDED L st)
           (join 1 (m_join1 e) ;;; join 2 (m_join2 e)) ;;;
         RING_IO_Delete processorId (m_delete e))
  | None =>
      emit (RING_IO_Print
              "ERROR! Invalid arguments specified for  RING_IO application"
              None)
  end ;;;
  emit (RING_IO_Print "====================================================" None).

(** ** main (Linux/main.c, 65-101) *)

End Sample.

(** Modelled from the C library: [atoi] skips white space, reads an optional
    sign and the decimal digits that follow.  (A value outside the range of
    [int] has no defined result in C; the model keeps the number.) *)
Definition is_space (c : ascii) : bool :=
  let n := nat_of_ascii c in
  (Nat.eqb n 32) || ((Nat.leb 9 n) && (Nat.leb n 13)).

Definition digit_of (c : ascii) : option Z :=
  let n := Z.of_nat (nat_of_ascii c) in
  if (48 <=? n) && (n <=? 57) then Some (n - 48) else None.

Fixpoint atoi_digits (s : string) (acc : Z) : Z :=
  match s with
  | EmptyString => acc
  | String c s' =>
      match digit_of c with
      | Some d => atoi_digits s' (10 * acc + d)
      | None => acc
      end
  end.

Fixpoint skip_spaces (s : string) : string :=
  match s with
  | EmptyString => EmptyString
  | String c s' => if is_space c then skip_spaces s' else s
  end.

Definition atoi (s : string) : Z :=
  match skip_spaces s with
  | String "-" s' => - atoi_digits s' 0
  | String "+" s' => atoi_digits s' 0
  | s' => atoi_digits s' 0
  end.

(** [argc] is the length of [argv].  The result is the trace and, when
    [main] returns, its exit status. *)
Definition main (L : DspLink) (argv : list string) (e : MainEnv) : M Z :=
  let argc := Z.of_nat (length argv) in
  (if negb (argc =? 3) && negb (argc =? 2) then
     emit (Usage (nth_error argv 0))
   else
     let dspExecutable := nth_error argv 1 in
     let strBufferSize := "2048"%string in
     let strTotalBytes := "128"%string in
     let '(strProcessorId, processorId) :=
       if argc =? 2 then ("0"%string, Uint8 0)
       else if argc =? 3 then
         (nth 2 argv EmptyString, Uint8 (atoi (nth 2 argv EmptyString)))
       else (EmptyString, Uint8 0) in
     when (processorId <? MAX_PROCESSORS L)
       (RING_IO_Main L dspExecutable strBufferSize strTotalBytes
          strProcessorId e)) ;;;
  ret 0.

(** The processor identifiers a call names (for a pool, the processor the
    pool identifier is made from). *)
Definition processors_of (e : Event) : list Z :=
  match e with
  | PROC_attach p | PROC_load p _ _ _ | PROC_start p | PROC_stop p
  | PROC_detach p | RingIO_delete p _ | POOL_close p _
  | POOL_open p _ _ _ _ | RING_IO_Create_client _ p => [p]
  | RingIO_create p _ q _ _ _ _ => [p; q]
  | _ => []
  end.

(** Every processor a call names is [p]. *)
Definition names_only (p : Z) (e : Event) : Prop :=
  Forall (fun q => q = p) (processors_of e).

(** The statuses that let [RING_IO_Create] go through all its steps. *)
Definition create_succeeds (L : DspLink) (e : CreateEnv) : bool :=
  DSP_SUCCEEDED L (cr_setup e) && DSP_SUCCEEDED L (cr_attach e)
  && DSP_SUCCEEDED L (cr_pool_open e) && DSP_SUCCEEDED L (cr_load e)
  && DSP_SUCCEEDED L (cr_create1 e) && DSP_SUCCEEDED L (cr_create2 e).

(** The trace ends with the calls [suffix]. *)
Definition ends_with (suffix t : Trace) : Prop :=
  exists pre, t = pre ++ suffix.

(** The calls that end [RING_IO_Delete]. *)
Definition teardown (p : Z) : Trace :=
  [PROC_stop p; POOL_close p SAMPLE_POOL_ID; PROC_detach p; PROC_destroy;
   RING_IO_OS_exit].

Definition is_banner (e : Event) : bool :=
  match e with
  | RING_IO_Print fmt None => String.eqb fmt banner
  | _ => false
  end.

(** * Further parts of the sample *)

(** ** Accounting over traces *)

(** The bytes committed by the writer: the sizes of the releases the library
    accepted. *)
Fixpoint released_bytes (L : DspLink) (t : Trace) : Z :=
  match t with
  | [] => 0
  | RingIO_release _ n st :: t' =>
      (if DSP_SUCCEEDED L st then n else 0) + released_bytes L t'
  | _ :: t' => released_bytes L t'
  end.

(** The sizes of all [RingIO_release] calls of a trace. *)
Fixpoint release_sizes (t : Trace) : Z :=
  match t with
  | [] => 0
  | RingIO_release _ n _ :: t' => n + release_sizes t'
  | _ :: t' => release_sizes t'
  end.

(** An acquire the read loop takes as a buffer of data. *)
Definition is_data_acquire (L : DspLink) (e : Event) : bool :=
  match e with
  | RingIO_acquire _ _ st g => (st =? RINGIO_SUCCESS L) || (0 <? g)
  | _ => false
  end.

(** The iterations of the read loop that take the acquire as a buffer of
    data. *)
Definition takes_data (L : DspLink) (e : ReadEnv) : bool :=
  (r_acq_status e =? RINGIO_SUCCESS L) || (0 <? Uint32 (r_acq_size e)).

(** The sizes granted by those acquires. *)
Fixpoint acquired_sizes (L : DspLink) (t : Trace) : Z :=
  match t with
  | [] => 0
  | RingIO_acquire h req st g :: t' =>
      (if is_data_acquire L (RingIO_acquire h req st g) then g else 0)
      + acquired_sizes L t'
  | _ :: t' => acquired_sizes L t'
  end.

Definition is_acquire (e : Event) : bool :=
  match e with RingIO_acquire _ _ _ _ => true | _ => false end.

Definition is_end_attribute (e : Event) : bool :=
  match e with
  | RingIO_setAttribute _ _ ty _ => ty =? RINGIO_DATA_END
  | _ => false
  end.

Definition is_DeleteSem (e : Event) : bool :=
  match e with RING_IO_DeleteSem _ => true | _ => false end.

Definition is_join (e : Event) : bool :=
  match e with RING_IO_Join_client _ => true | _ => false end.

Definition is_Create_client (e : Event) : bool :=
  match e with RING_IO_Create_client _ _ => true | _ => false end.

(** The calls that shut the session down in [RING_IO_Delete]. *)
Definition is_teardown (e : Event) : bool :=
  match e with
  | PROC_stop _ | POOL_close _ _ | PROC_detach _ | PROC_destroy
  | RING_IO_OS_exit => true
  | _ => false
  end.

Definition footer : string :=
  "====================================================".

(** The calls of [RING_IO_Create], in the order the code makes them. *)
Definition Create_calls (L : DspLink) (exe : string) (p : Z) : Trace :=
  let g := RING_IO_Create_globals L in
  [RING_IO_OS_init; PROC_setup; PROC_attach p;
   POOL_open p SAMPLE_POOL_ID (sizes L g) numBufs TRUE;
   PROC_load p exe NUM_ARGS
     [RING_IO_BufferSize1 g; RING_IO_BufferSize3 g; RING_IO_ATTR_BUF_SIZE; 0];
   RingIO_create p "RINGIO1" p SAMPLE_POOL_ID (RING_IO_BufferSize g) 0
     RING_IO_ATTR_BUF_SIZE;
   RingIO_create p "RINGIO3" p SAMPLE_POOL_ID (RING_IO_BufferSize2 g) 0
     RING_IO_ATTR_BUF_SIZE;
   PROC_start p].

(** ** The notification callbacks (ring_io.c, 3281-3395)

    The callbacks run in the context of the library.  Each channel pair has
    its two flags; a callback is given the flags of its pair and returns them
    together with the semaphores it posts with [RING_IO_PostSem].  The status
    of the post only selects a diagnostic print. *)

Record Flags : Type := {
  fReaderStart : Z;
  fReaderEnd : Z
}.

(** [RING_IO_Writer_Notify1] and [RING_IO_Writer_Notify2]. *)
Definition Writer_Notify (param msg : Z) : list Z := [param].

(** [RING_IO_Reader_Notify1]: the post follows the [switch]. *)
Definition Reader_Notify1 (f : Flags) (param msg : Z) : Flags * list Z :=
  let f' :=
    if msg =? NOTIFY_DATA_START then
      {| fReaderStart := TRUE; fReaderEnd := fReaderEnd f |}
    else if msg =? NOTIFY_DATA_END then
      {| fReaderStart := fReaderStart f; fReaderEnd := TRUE |}
    else f in
  (f', [param]).

(** [RING_IO_Reader_Notify2]: the post is inside the two cases. *)
Definition Reader_Notify2 (f : Flags) (param msg : Z) : Flags * list Z :=
  if msg =? NOTIFY_DATA_START then
    ({| fReaderStart := TRUE; fReaderEnd := fReaderEnd f |}, [param])
  else if msg =? NOTIFY_DATA_END then
    ({| fReaderStart := fReaderStart f; fReaderEnd := TRUE |}, [param])
  else (f, []).

(** A callback called once per message of [msgs], in order. *)
Fixpoint deliver (cb : Flags -> Z -> Z -> Flags * list Z) (f : Flags)
  (param : Z) (msgs : list Z) : Flags * list Z :=
  match msgs with
  | [] => (f, [])
  | msg :: msgs' =>
      let (f1, p1) := cb f param msg in
      let (f2, p2) := deliver cb f1 param msgs' in
      (f2, p1 ++ p2)
  end.

Definition wakes (msg : Z) : bool :=
  (msg =? NOTIFY_DATA_START) || (msg =? NOTIFY_DATA_END).

(** The calls made on the reading side of a ring up to the end of the read
    loop. *)
Definition is_read_call (e : Event) : bool :=
  match e with
  | RingIO_open _ _ _ | RING_IO_CreateSem | RingIO_setNotifier _ _ _ _ _
  | RING_IO_Sleep _ | RING_IO_WaitSem _ | RingIO_getAttribute _
  | RingIO_getvAttribute _ _ | RingIO_acquire _ _ _ _ | RingIO_release _ _ _
  | RING_IO_Print _ _ => true
  | _ => false
  end.

Definition read_call (e : Event) : Prop := is_read_call e = true.

(** ** RING_IO_ReaderClient1 and RING_IO_ReaderClient2 (ring_io.c, 2167-2828)

    The two reader workers are the same text up to the names and sizes of a
    [ReaderCfg]; [rd_info] stands for [readerClientInfo1] (3) and
    [readerClientInfo2] (4).  [fReaderEnd] is tested twice, before and after
    the wait for the end notification.  The progress line printed every 8192
    bytes is one of the informational prints left out of the trace. *)

Record ReaderCfg : Type := {
  rd_name : string;
  rd_notify : Callback;
  rd_bufSize : Z;           (* RING_IO_BufferSize1 / 3 *)
  rd_msg : string;
  rd_info : Z               (* readerClientInfo1 / 2 *)
}.

Definition reader1 (g : Globals) : ReaderCfg := {|
  rd_name := "RINGIO2";
  rd_notify := RING_IO_Reader_Notify1;
  rd_bufSize := RING_IO_BufferSize1 g;
  rd_msg := " Data1 verification failed after%ld bytes received from DSP ";
  rd_info := 3
|}.

Definition reader2 (g : Globals) : ReaderCfg := {|
  rd_name := "RINGIO4";
  rd_notify := RING_IO_Reader_Notify2;
  rd_bufSize := RING_IO_BufferSize3 g;
  rd_msg := " Data verification2 failed after%ld bytes received from DSP ";
  rd_info := 4
|}.

Record ReaderEnv : Type := {
  re_handles : list Z;          (* RingIO_open, one handle per attempt *)
  re_sem_status : Z;            (* RING_IO_CreateSem *)
  re_sem : Z;                   (* the semaphore pointer afterwards *)
  re_notifier : list Z;         (* RingIO_setNotifier, one status per attempt *)
  re_wait_start : Z;            (* RING_IO_WaitSem *)
  re_fReaderStart : Z;          (* fReaderStart when tested *)
  re_get_start : list (Z * Z);  (* RingIO_getAttribute: status, type *)
  re_read : list ReadEnv;
  re_fReaderEnd_before : Z;     (* fReaderEnd at the test [!= TRUE] *)
  re_wait_end : Z;              (* RING_IO_WaitSem *)
  re_fReaderEnd_after : Z;      (* fReaderEnd at the test [== TRUE] *)
  re_del : Z                    (* RING_IO_DeleteSem *)
}.

Definition ReaderClient (L : DspLink) (c : ReaderCfg) (e : ReaderEnv)
  : M unit :=
  h <- open_reader L (rd_name c) (re_handles e) ;;
  emit RING_IO_CreateSem ;;;
  let sem := re_sem e in
  st <- (if DSP_SUCCEEDED L (re_sem_status e)
         then setNotifier_reader L h (rd_notify c) sem (re_notifier e)
         else ret (re_sem_status e)) ;;
  st1 <- (if DSP_SUCCEEDED L st then
            emit (RING_IO_WaitSem sem) ;;;
            st' <- (if re_fReaderStart e =? TRUE
                    then get_start L h (re_get_start e)
                    else ret (re_wait_start e)) ;;
            s <- read_data L h sem (rd_bufSize c) (rd_msg c) (re_read e)
                   {| status := st'; acqSize := 0; rcvSize := rd_bufSize c;
                      totalRcvbytes := 0; exitFlag := FALSE |} ;;
            ret (status s)
          else ret st) ;;
  st2 <- (if negb (re_fReaderEnd_before e =? TRUE)
          then emit (RING_IO_WaitSem sem) ;;; ret (re_wait_end e)
          else ret st1) ;;
  (if re_fReaderEnd_after e =? TRUE
   then delete_sem L sem (re_del e) st2
   else ret st2) ;;;
  when (negb (h =? NULL)) (emit (RingIO_close h)) ;;;
  emit (RING_IO_Exit_client (rd_info c)).

Definition RING_IO_ReaderClient1 (L : DspLink) (g : Globals)
  : ReaderEnv -> M unit :=
  ReaderClient L (reader1 g).

Definition RING_IO_ReaderClient2 (L : DspLink) (g : Globals)
  : ReaderEnv -> M unit :=
  ReaderClient L (reader2 g).

(** * Properties *)

(** ** Arithmetic of the C types *)

Lemma Uint32_small (z : Z) : 0 <= z < 2 ^ 32 -> Uint32 z = z.
Proof. intros H. unfold Uint32. now apply Z.mod_small. Qed.

Lemma Uint32_range (z : Z) : 0 <= Uint32 z < 2 ^ 32.
Proof. unfold Uint32. apply Z.mod_pos_bound. lia. Qed.

Lemma Int16_small (z : Z) : - 2 ^ 15 <= z < 2 ^ 15 -> Int16 z = z.
Proof.
  intros H. unfold Int16. rewrite Z.mod_small; lia.
Qed.

(** ** Generic facts about runs *)

Lemma trace_of_bind {A B : Type} (m : M A) (k : A -> M B) :
  trace_of (bind m k) =
  trace_of m ++ match outcome_of m with
                | Done a => trace_of (k a)
                | Pending => []
                end.
Proof.
  destruct m as [t [a|]]; cbn.
  - destruct (k a); reflexivity.
  - now rewrite app_nil_r.
Qed.

Lemma outcome_of_bind {A B : Type} (m : M A) (k : A -> M B) :
  outcome_of (bind m k) =
  match outcome_of m with
  | Done a => outcome_of (k a)
  | Pending => Pending
  end.
Proof.
  destruct m as [t [a|]]; cbn; [destruct (k a)|]; reflexivity.
Qed.

Lemma Forall_bind {A B : Type} (P : Event -> Prop) (m : M A) (k : A -> M B) :
  Forall P (trace_of m) ->
  (forall a, Forall P (trace_of (k a))) ->
  Forall P (trace_of (bind m k)).
Proof.
  intros Hm Hk. rewrite trace_of_bind. apply Forall_app. split; [exact Hm|].
  destruct (outcome_of m); [apply Hk | constructor].
Qed.

Lemma Forall_bind_out {A B : Type} (P : Event -> Prop) (m : M A)
  (k : A -> M B) :
  Forall P (trace_of m) ->
  (forall a, outcome_of m = Done a -> Forall P (trace_of (k a))) ->
  Forall P (trace_of (bind m k)).
Proof.
  intros Hm Hk. rewrite trace_of_bind. apply Forall_app. split; [exact Hm|].
  destruct (outcome_of m); [now apply Hk | constructor].
Qed.

Lemma bind_done {A B : Type} (m : M A) (k : A -> M B) (b : B) :
  outcome_of (bind m k) = Done b ->
  exists a, outcome_of m = Done a /\ outcome_of (k a) = Done b /\
            trace_of (bind m k) = trace_of m ++ trace_of (k a).
Proof.
  intros H. rewrite outcome_of_bind in H. rewrite trace_of_bind.
  destruct (outcome_of m) as [a|]; [|discriminate].
  exists a. repeat split. exact H.
Qed.

Lemma bind_ret_l {A B : Type} (a : A) (k : A -> M B) : bind (ret a) k = k a.
Proof. unfold bind, ret. destruct (k a). reflexivity. Qed.

Lemma Forall_emit (P : Event -> Prop) (e : Event) :
  P e -> Forall P (trace_of (emit e)).
Proof. intros H. cbn. constructor; [exact H | constructor]. Qed.

Lemma Forall_ret {A : Type} (P : Event -> Prop) (a : A) :
  Forall P (trace_of (ret a)).
Proof. constructor. Qed.

Lemma Forall_pending {A : Type} (P : Event -> Prop) :
  Forall P (trace_of (@pending A)).
Proof. constructor. Qed.

Lemma Forall_when (P : Event -> Prop) (b : bool) (m : M unit) :
  Forall P (trace_of m) -> Forall P (trace_of (when b m)).
Proof. intros H. destruct b; [exact H | constructor]. Qed.

Lemma Forall_pair {A : Type} (P : Event -> Prop) (t : Trace) (m : M A) :
  Forall P t -> Forall P (trace_of m) ->
  Forall P (trace_of (let (t', r) := m in (t ++ t', r))).
Proof.
  intros Ht Hm. destruct m as [t1 r1]. cbn in *. apply Forall_app. now split.
Qed.

(** ** C9: the buffer initialisation *)

Lemma store_some (mem : list Z) (p : nat) (v : Z) :
  (p < length mem)%nat ->
  exists mem', store mem p v = Some mem' /\
    length mem' = length mem /\
    nth p mem' 0 = v /\
    forall q, q <> p -> nth q mem' 0 = nth q mem 0.
Proof.
  revert p. induction mem as [|x tl IH]; intros p Hp; cbn in Hp; [lia|].
  destruct p as [|p].
  - exists (v :: tl). cbn. repeat split. intros [|q] Hq; [congruence | reflexivity].
  - destruct (IH p) as (tl' & Hs & Hl & Hn & Ho); [lia|].
    exists (x :: tl'). cbn. rewrite Hs. repeat split; [now rewrite Hl | exact Hn |].
    intros [|q] Hq; [reflexivity|]. apply Ho. congruence.
Qed.

Lemma InitBuffer_loop_fills (n : nat) :
  forall (fuel : nat) (i size : Z) (mem : list Z),
    0 <= i -> i + Z.of_nat n = size -> size <= 32767 ->
    size <= Z.of_nat (length mem) -> (n < fuel)%nat ->
    exists mem',
      InitBuffer_loop fuel i size (Z.to_nat i) mem = Some mem' /\
      length mem' = length mem /\
      (forall k, i <= k < size -> nth (Z.to_nat k) mem' 0 = XFER_VALUE) /\
      (forall k, 0 <= k < i -> nth (Z.to_nat k) mem' 0 = nth (Z.to_nat k) mem 0).
Proof.
  induction n as [|n IH]; intros fuel i size mem Hi Hn Hsz Hlen Hfuel;
    (destruct fuel as [|fuel]; [lia|]); cbn [InitBuffer_loop];
    rewrite (Uint32_small i) by lia.
  - replace (i <? size) with false by (symmetry; apply Z.ltb_ge; lia).
    exists mem. repeat split; intros; lia.
  - replace (i <? size) with true by (symmetry; apply Z.ltb_lt; lia).
    destruct (store_some mem (Z.to_nat i) (Uint8 XFER_VALUE))
      as (mem1 & Hs & Hl & Hv & Ho); [lia|].
    rewrite Hs. rewrite Int16_small by lia.
    replace (S (Z.to_nat i)) with (Z.to_nat (i + 1)) by lia.
    destruct (IH fuel (i + 1) size mem1) as (mem' & Hr & Hl' & Hfill & Hkeep);
      try lia.
    exists mem'. split; [exact Hr|]. split; [lia|]. split.
    + intros k Hk. destruct (Z.eq_dec k i) as [->|Hne].
      * rewrite Hkeep by lia. exact Hv.
      * apply Hfill. lia.
    + intros k Hk. rewrite Hkeep by lia. apply Ho. lia.
Qed.

(** C9.  For a non-null buffer of at least [size] bytes and [size <= 32767],
    [RING_IO_InitBuffer] returns, and afterwards each of the first [size]
    bytes of the buffer is [XFER_VALUE], which is 5; the length of the buffer
    is unchanged. *)
Theorem InitBuffer_fills_pattern (mem : list Z) (size : Z) :
  0 <= size <= 32767 ->
  size <= Z.of_nat (length mem) ->
  exists mem',
    RING_IO_InitBuffer (Some mem) size = Some (Some mem') /\
    length mem' = length mem /\
    XFER_VALUE = 5 /\
    forall k, 0 <= k < size -> nth (Z.to_nat k) mem' 0 = XFER_VALUE.
Proof.
  intros Hsize Hlen.
  destruct (InitBuffer_loop_fills (Z.to_nat size) (Z.to_nat 65537) 0 size mem)
    as (mem' & Hr & Hl & Hfill & _); try lia.
  exists mem'. unfold RING_IO_InitBuffer, RING_IO_InitBuffer_fuel.
  change (Z.to_nat 0) with O in Hr. rewrite Hr. repeat split; assumption.
Qed.

Lemma InitBuffer_fills_pattern_witness :
  (0 <= 3 <= 32767) /\ (3 <= Z.of_nat (length [0; 0; 0; 0])) /\
  exists mem',
    RING_IO_InitBuffer (Some [0; 0; 0; 0]) 3 = Some (Some mem') /\
    length mem' = length [0; 0; 0; 0] /\
    XFER_VALUE = 5 /\
    forall k, 0 <= k < 3 -> nth (Z.to_nat k) mem' 0 = XFER_VALUE.
Proof.
  split; [lia|]. split; [cbn; lia|].
  apply (InitBuffer_fills_pattern [0; 0; 0; 0] 3); cbn; lia.
Defined.

(** Why the bound is there: beyond 32767 the counter wraps to -32768, which
    as an unsigned 32-bit value is not below [size], and the loop ends.  For
    [32768 < size <= 2 ^ 32 - 32768] the byte at offset 32768 is left as it
    was. *)
Lemma InitBuffer_loop_run (n : nat) :
  forall (fuel : nat) (i size : Z) (mem : list Z),
    0 <= i -> i + Z.of_nat n <= 32767 -> i + Z.of_nat n <= size ->
    size <= Z.of_nat (length mem) ->
    exists mem',
      InitBuffer_loop (n + fuel) i size (Z.to_nat i) mem =
      InitBuffer_loop fuel (i + Z.of_nat n) size (Z.to_nat (i + Z.of_nat n)) mem' /\
      length mem' = length mem /\
      (forall k, i + Z.of_nat n <= k -> nth (Z.to_nat k) mem' 0 = nth (Z.to_nat k) mem 0).
Proof.
  induction n as [|n IH]; intros fuel i size mem Hi Hn Hsz Hlen.
  - exists mem. rewrite Z.add_0_r. repeat split.
  - cbn [Nat.add InitBuffer_loop]. rewrite (Uint32_small i) by lia.
    replace (i <? size) with true by (symmetry; apply Z.ltb_lt; lia).
    destruct (store_some mem (Z.to_nat i) (Uint8 XFER_VALUE))
      as (mem1 & Hs & Hl & Hv & Ho); [lia|].
    rewrite Hs, Int16_small by lia.
    replace (S (Z.to_nat i)) with (Z.to_nat (i + 1)) by lia.
    destruct (IH fuel (i + 1) size mem1) as (mem' & Hr & Hl' & Hkeep); try lia.
    exists mem'. replace (i + Z.of_nat (S n)) with (i + 1 + Z.of_nat n) by lia.
    split; [exact Hr|]. split; [lia|].
    intros k Hk. rewrite Hkeep by lia. apply Ho. lia.
Qed.

Lemma InitBuffer_loop_wraps (fuel : nat) (mem : list Z) (size : Z) :
  32768 < size <= 2 ^ 32 - 32768 ->
  size <= Z.of_nat (length mem) ->
  exists mem',
    InitBuffer_loop (Z.to_nat 32767 + S (S fuel)) 0 size O mem = Some mem' /\
    nth (Z.to_nat 32768) mem' 0 = nth (Z.to_nat 32768) mem 0.
Proof.
  intros Hsize Hlen.
  destruct (InitBuffer_loop_run (Z.to_nat 32767) (S (S fuel)) 0 size mem)
    as (mem1 & Hr & Hl & Hkeep); try lia.
  change (Z.to_nat 0) with O in Hr. rewrite Hr.
  replace (0 + Z.of_nat (Z.to_nat 32767)) with 32767 in * by lia.
  cbn [InitBuffer_loop]. rewrite (Uint32_small 32767) by lia.
  replace (32767 <? size) with true by (symmetry; apply Z.ltb_lt; lia).
  destruct (store_some mem1 (Z.to_nat 32767) (Uint8 XFER_VALUE))
    as (mem2 & Hs & Hl2 & Hv & Ho); [lia|].
  rewrite Hs.
  change (Int16 (32767 + 1)) with (-32768).
  change (Uint32 (-32768)) with (2 ^ 32 - 32768).
  replace (2 ^ 32 - 32768 <? size) with false by (symmetry; apply Z.ltb_ge; lia).
  exists mem2. split; [reflexivity|].
  rewrite Ho by lia. apply Hkeep. lia.
Qed.

Lemma InitBuffer_beyond_bound (mem : list Z) (size : Z) :
  32768 < size <= 2 ^ 32 - 32768 ->
  size <= Z.of_nat (length mem) ->
  exists mem',
    RING_IO_InitBuffer (Some mem) size = Some (Some mem') /\
    nth (Z.to_nat 32768) mem' 0 = nth (Z.to_nat 32768) mem 0.
Proof.
  intros Hsize Hlen. unfold RING_IO_InitBuffer, RING_IO_InitBuffer_fuel.
  destruct (InitBuffer_loop_wraps (Z.to_nat 32768) mem size Hsize Hlen)
    as (mem' & Hr & Hk).
  replace (Z.to_nat 65537) with (Z.to_nat 32767 + S (S (Z.to_nat 32768)))%nat
    by lia.
  rewrite Hr. exists mem'. split; [reflexivity | exact Hk].
Qed.

(** ** C3: the verification function *)

Lemma VerifyData_status (L : DspLink) (buffer : list Z) (size : Z) :
  snd (RING_IO_Reader_VerifyData L buffer size) = DSP_SOK L.
Proof. reflexivity. Qed.

Lemma VerifyData_loop_prints (L : DspLink) (fuel : nat) :
  forall status i first,
    Forall (fun e => exists fmt arg, e = RING_IO_Print fmt arg)
      (VerifyData_loop L fuel status i first).
Proof.
  induction fuel as [|fuel IH]; intros status i first; cbn; [constructor|].
  destruct (DSP_SUCCEEDED L status && (i <? 20)); constructor; eauto.
Qed.

(** C3 (what the code does at a mismatching buffer).  Whatever byte [v] the
    pattern consists of, there is a buffer that does not match it and for
    which [RING_IO_Reader_VerifyData] still returns [DSP_SOK]: the function
    returns [DSP_SOK] for every buffer. *)
Theorem VerifyData_accepts_mismatch (L : DspLink) (v : Z) :
  matches_pattern v [v + 1] 1 = false /\
  snd (RING_IO_Reader_VerifyData L [v + 1] 1) = DSP_SOK L /\
  forall buffer size, snd (RING_IO_Reader_VerifyData L buffer size) = DSP_SOK L.
Proof.
  split; [|split].
  - unfold matches_pattern. change (Z.to_nat 1) with 1%nat.
    cbn [firstn forallb]. replace (v + 1 =? v) with false; [reflexivity|].
    symmetry. apply Z.eqb_neq. lia.
  - reflexivity.
  - intros. reflexivity.
Qed.

(** With the codes of [link_1dsp]: a buffer of zeros is answered with
    [DSP_SOK], which is not [DSP_EFAIL]. *)
Example VerifyData_zeros :
  matches_pattern XFER_VALUE [0; 0; 0; 0] 4 = false /\
  snd (RING_IO_Reader_VerifyData link_1dsp [0; 0; 0; 0] 4) = DSP_SOK link_1dsp /\
  DSP_SOK link_1dsp <> DSP_EFAIL link_1dsp.
Proof. repeat split. discriminate. Qed.

(** The read loop goes on after the verification whatever the buffer holds:
    the state after an iteration does not depend on the bytes received. *)
Lemma reader_iter_ignores_contents (L : DspLink) (h sem bufsize : Z)
  (msg : string) (e : ReadEnv) (buf : list Z) (s : ReaderState) :
  snd (reader_iter L h sem bufsize msg e s) =
  snd (reader_iter L h sem bufsize msg
         {| r_acq_status := r_acq_status e; r_acq_size := r_acq_size e;
            r_acq_buf := buf; r_rel_status := r_rel_status e;
            r_attr_status := r_attr_status e; r_attr_type := r_attr_type e;
            r_vattr_status := r_vattr_status e; r_vattr_value := r_vattr_value e;
            r_wait_status := r_wait_status e |} s).
Proof.
  unfold reader_iter. cbn [r_acq_status r_acq_size r_acq_buf r_rel_status
    r_attr_status r_attr_type r_vattr_status r_vattr_value r_wait_status].
  destruct ((r_acq_status e =? RINGIO_SUCCESS L) || (0 <? Uint32 (r_acq_size e)));
    [|reflexivity].
  unfold RING_IO_Reader_VerifyData. cbn [snd fst].
  reflexivity.
Qed.

(** ** C1: an acquisition that runs past the frame length *)

Section Writer.

Context (L : DspLink).

Lemma overshoots_true (T bt g : Z) :
  0 < T -> T < Uint32 (bt + g) -> overshoots T bt g = true.
Proof.
  intros HT H. unfold overshoots.
  replace (T =? 0) with false by (symmetry; apply Z.eqb_neq; lia).
  cbn. now apply Z.ltb_lt.
Qed.

Lemma overshoots_false (T bt g : Z) :
  Uint32 (bt + g) <= T -> overshoots T bt g = false.
Proof.
  intros H. unfold overshoots.
  replace (T <? Uint32 (bt + g)) with false by (symmetry; apply Z.ltb_ge; lia).
  apply andb_false_r.
Qed.

(** When the sum fits 32 bits (as it does when the grant does not exceed the
    request [T] and [T < 2 ^ 31]) the guard of the code is the comparison of
    the sum itself. *)
Lemma overshoots_exact (T bt g : Z) :
  0 < T -> 0 <= bt -> 0 <= g -> bt + g < 2 ^ 32 ->
  overshoots T bt g = (T <? bt + g).
Proof.
  intros HT Hbt Hg Hsum. unfold overshoots.
  rewrite Uint32_small by lia.
  replace (T =? 0) with false by (symmetry; apply Z.eqb_neq; lia).
  reflexivity.
Qed.

(** C1.  In an iteration of the streaming loop whose [RingIO_acquire]
    succeeds with a size [g > 0] such that [bytesTransfered + g > T] (the sum
    taken in 32 bits, as the code computes it), for a frame length [T <> 0]:
    the writer releases exactly [T - bytesTransfered] bytes unless
    [bytesTransfered = T], then calls [RingIO_cancel], and [bytesTransfered]
    becomes [T].  With the accounting of the specification the cancel discards
    the part of the acquisition the release left: [g - (T - bytesTransfered)]
    when the release was made and accepted. *)
Theorem writer_overshoot (h sem T bt : Z) (e : StreamEnv) :
  0 < T < 2 ^ 32 ->
  0 <= bt <= T ->
  DSP_SUCCEEDED L (sv_status e) = true ->
  DSP_SUCCEEDED L (acq_status e) = true ->
  0 < Uint32 (acq_size e) ->
  T < Uint32 (bt + Uint32 (acq_size e)) ->
  let g := Uint32 (acq_size e) in
  let r := writer_iter L h sem T e bt in
  fst r =
    [RingIO_setvAttribute h 0 0 0 [T] sizeof_attrs;
     RingIO_acquire h T (acq_status e) g;
     RING_IO_InitBuffer_call g]
    ++ (if bt =? T then [] else [RingIO_release h (T - bt) (rel_status e)])
    ++ [RingIO_cancel h] /\
  snd r = (cancel_status e, T) /\
  cancelled_bytes L (fst r) =
    (if negb (bt =? T) && DSP_SUCCEEDED L (rel_status e)
     then g - (T - bt) else g).
Proof.
  intros HT Hbt Hsv Hacq Hg Hover g r.
  assert (Hr : r =
    ([RingIO_setvAttribute h 0 0 0 [T] sizeof_attrs;
      RingIO_acquire h T (acq_status e) g;
      RING_IO_InitBuffer_call g]
     ++ (if bt =? T then [] else [RingIO_release h (T - bt) (rel_status e)])
     ++ [RingIO_cancel h], (cancel_status e, T))).
  { subst r. unfold writer_iter, DSP_FAILED. rewrite Hsv, Hacq. cbn [negb andb].
    fold g. replace (0 <? g) with true by (symmetry; apply Z.ltb_lt; exact Hg).
    rewrite overshoots_true by (try exact Hover; lia).
    destruct (Z.eqb_spec bt T) as [->|Hne]; cbn [negb].
    - reflexivity.
    - rewrite (Uint32_small (T - bt)) by lia. reflexivity. }
  rewrite Hr. cbn [fst snd]. repeat split.
  unfold cancelled_bytes. cbn [app ring_account]. rewrite Hacq. cbn [fst snd].
  destruct (Z.eqb_spec bt T) as [->|Hne]; cbn [negb andb app ring_account fst snd].
  - lia.
  - destruct (DSP_SUCCEEDED L (rel_status e)); cbn [fst snd]; lia.
Qed.

End Writer.

(** Scenario C of the specification: frame length 1000, a grant of 1024. *)
Lemma writer_overshoot_witness :
  let e := {| sv_status := 0x8000; acq_status := 0x8000; acq_size := 1024;
              rel_status := 0x8000; cancel_status := 0x8000;
              wait_status := 0x8000 |} in
  (0 < 1000 < 2 ^ 32) /\ (0 <= 0 <= 1000) /\
  DSP_SUCCEEDED link_1dsp (sv_status e) = true /\
  DSP_SUCCEEDED link_1dsp (acq_status e) = true /\
  0 < Uint32 (acq_size e) /\
  1000 < Uint32 (0 + Uint32 (acq_size e)) /\
  fst (writer_iter link_1dsp 7 9 1000 e 0) =
    [RingIO_setvAttribute 7 0 0 0 [1000] 4;
     RingIO_acquire 7 1000 0x8000 1024;
     RING_IO_InitBuffer_call 1024;
     RingIO_release 7 1000 0x8000;
     RingIO_cancel 7] /\
  snd (writer_iter link_1dsp 7 9 1000 e 0) = (0x8000, 1000) /\
  cancelled_bytes link_1dsp (fst (writer_iter link_1dsp 7 9 1000 e 0)) = 24.
Proof.
  intros e.
  assert (H1 : 0 < 1000 < 2 ^ 32) by lia.
  assert (H2 : 0 <= 0 <= 1000) by lia.
  assert (H3 : DSP_SUCCEEDED link_1dsp (sv_status e) = true) by reflexivity.
  assert (H4 : DSP_SUCCEEDED link_1dsp (acq_status e) = true) by reflexivity.
  assert (H5 : 0 < Uint32 (acq_size e)) by reflexivity.
  assert (H6 : 1000 < Uint32 (0 + Uint32 (acq_size e))) by reflexivity.
  destruct (writer_overshoot link_1dsp 7 9 1000 0 e H1 H2 H3 H4 H5 H6)
    as (Ha & Hb & Hc).
  split; [exact H1|]. split; [exact H2|]. split; [exact H3|].
  split; [exact H4|]. split; [exact H5|]. split; [exact H6|].
  split; [exact Ha|]. split; [exact Hb | exact Hc].
Defined.

(** ** C2: a frame sent in chunks *)

Lemma count_app (p : Event -> bool) (t1 t2 : Trace) :
  count p (t1 ++ t2) = count p t1 + count p t2.
Proof. unfold count. rewrite filter_app, length_app. lia. Qed.

Section Chunking.

Context (L : DspLink) (h sem N C : Z).
Hypothesis HN : 0 < N < 2 ^ 32.
Hypothesis HC : 0 < C.

(** One iteration, entered with [bytesTransfered + C <= N]. *)
Lemma writer_iter_chunk (e : StreamEnv) (bt : Z) :
  0 <= bt -> bt + C <= N ->
  (DSP_SUCCEEDED L (acq_status e) = true -> Uint32 (acq_size e) = C) ->
  let r := writer_iter L h sem N e bt in
  snd (snd r) = (if commits L e then bt + C else bt) /\
  count (is_accepted_release L) (fst r) = (if commits L e then 1 else 0) /\
  count (is_granted_acquire L) (fst r) = count is_release (fst r) /\
  count is_cancel (fst r) = 0.
Proof.
  intros Hbt Hle Hg. unfold writer_iter, commits, DSP_FAILED.
  destruct (DSP_SUCCEEDED L (sv_status e)) eqn:Hsv; cbn [negb andb].
  2:{ cbn. repeat split; reflexivity. }
  destruct (DSP_SUCCEEDED L (acq_status e)) eqn:Hacq; cbn [negb andb].
  2:{ unfold count. cbn. rewrite Hacq. cbn. repeat split; reflexivity. }
  rewrite (Hg eq_refl).
  replace (0 <? C) with true by (symmetry; apply Z.ltb_lt; lia).
  rewrite overshoots_false by (rewrite Uint32_small; lia).
  destruct (DSP_SUCCEEDED L (rel_status e)) eqn:Hrel; cbn [negb andb];
    unfold count; cbn; rewrite Hacq, ?Hrel;
    replace (0 <? C) with true by (symmetry; apply Z.ltb_lt; lia);
    cbn; rewrite ?Uint32_small by lia; repeat split; reflexivity.
Qed.

Lemma writer_stream_chunks (m : Z) (HNm : N = m * C) (envs : list StreamEnv) :
  forall (st bt q : Z),
    bt = q * C -> 0 <= q <= m -> grants_C L C envs ->
    let r := writer_stream L h sem N envs st bt in
    count (is_granted_acquire L) (trace_of r) = count is_release (trace_of r) /\
    count is_cancel (trace_of r) = 0 /\
    is_done (outcome_of r) = (m - q <=? count_commits L envs) /\
    match outcome_of r with
    | Done (_, bt') =>
        bt' = N /\ count (is_accepted_release L) (trace_of r) = m - q
    | Pending =>
        count (is_accepted_release L) (trace_of r) = count_commits L envs
    end.
Proof.
  induction envs as [|e envs IH]; intros st bt q Hq Hqm Hg r; subst r;
    cbn [writer_stream];
    replace (N =? 0) with false by (symmetry; apply Z.eqb_neq; lia);
    cbn [orb].
  - destruct (Z.ltb_spec bt N) as [Hlt|Hge]; cbn.
    + repeat split. symmetry. apply Z.leb_gt. nia.
    + assert (q = m) by nia. subst q.
      repeat split; try nia; try (symmetry; apply Z.leb_le; lia).
  - destruct (Z.ltb_spec bt N) as [Hlt|Hge].
    2:{ cbn. assert (q = m) by nia. subst q.
        repeat split; try nia;
          try (symmetry; apply Z.leb_le; unfold count_commits; lia). }
    assert (Hq1 : q + 1 <= m) by nia.
    destruct (writer_iter_chunk e bt) as (Hbt' & Hacc & Hpair & Hcan);
      [nia | nia | apply Hg; now left |].
    destruct (writer_iter L h sem N e bt) as [t [st' bt']] eqn:Hit.
    cbn [fst snd] in *.
    assert (Hg' : grants_C L C envs) by (intros e' He'; apply Hg; now right).
    assert (Hcc : count_commits L (e :: envs) =
                  (if commits L e then 1 else 0) + count_commits L envs).
    { unfold count_commits. cbn [filter]. destruct (commits L e); cbn [length]; lia. }
    destruct (commits L e) eqn:Hcm.
    + specialize (IH st' bt' (q + 1) ltac:(nia) ltac:(lia) Hg').
      destruct (writer_stream L h sem N envs st' bt') as [t' r'] eqn:Hws.
      cbn [trace_of outcome_of fst snd] in *.
      destruct IH as (I1 & I2 & I3 & I4).
      rewrite !count_app, Hcc.
      repeat split; try lia.
      * rewrite I3. destruct (Z.leb_spec (m - (q + 1)) (count_commits L envs));
          symmetry; [apply Z.leb_le | apply Z.leb_gt]; lia.
      * destruct r' as [[st2 bt2]|]; [split|]; lia.
    + specialize (IH st' bt' q ltac:(nia) ltac:(lia) Hg').
      destruct (writer_stream L h sem N envs st' bt') as [t' r'] eqn:Hws.
      cbn [trace_of outcome_of fst snd] in *.
      destruct IH as (I1 & I2 & I3 & I4).
      rewrite !count_app, Hcc.
      repeat split; try lia.
      * rewrite I3. destruct (Z.leb_spec (m - q) (count_commits L envs));
          symmetry; [apply Z.leb_le | apply Z.leb_gt]; lia.
      * destruct r' as [[st2 bt2]|]; [split|]; lia.
Qed.

End Chunking.

(** With a target of 0 the loop condition never fails. *)
Lemma writer_stream_unbounded (L : DspLink) (h sem : Z) (envs : list StreamEnv) :
  forall st bt, outcome_of (writer_stream L h sem 0 envs st bt) = Pending.
Proof.
  induction envs as [|e envs IH]; intros st bt; cbn [writer_stream Z.eqb orb].
  - reflexivity.
  - destruct (writer_iter L h sem 0 e bt) as [t s].
    specialize (IH (fst s) (snd s)).
    destruct (writer_stream L h sem 0 envs (fst s) (snd s)). exact IH.
Qed.

(** C2, as the code has it.  For a frame with target [N <> 0], when every
    successful acquire grants exactly [C] bytes and [C] divides [N]: the
    streaming loop exits exactly when [N / C] iterations have committed a
    chunk (acquire granted, release accepted); it then has
    [bytesTransfered = N] and the trace holds exactly [N / C] accepted
    releases.  Every granted acquire is followed by one release call and no
    cancel is made.  With a target of 0 the loop never exits on its own. *)
Theorem writer_chunking (L : DspLink) (h sem N C st0 : Z)
  (envs : list StreamEnv) :
  0 < N < 2 ^ 32 ->
  0 < C ->
  (C | N) ->
  grants_C L C envs ->
  let r := writer_stream L h sem N envs st0 0 in
  is_done (outcome_of r) = (N / C <=? count_commits L envs) /\
  match outcome_of r with
  | Done (_, bt) =>
      bt = N /\ count (is_accepted_release L) (trace_of r) = N / C
  | Pending =>
      count (is_accepted_release L) (trace_of r) = count_commits L envs
  end /\
  count (is_granted_acquire L) (trace_of r) = count is_release (trace_of r) /\
  count is_cancel (trace_of r) = 0 /\
  forall envs' st bt, outcome_of (writer_stream L h sem 0 envs' st bt) = Pending.
Proof.
  intros HN HC [m Hm] Hg r.
  assert (Hdiv : N / C = m) by (subst N; apply Z.div_mul; lia).
  assert (Hm0 : 0 <= m) by nia.
  destruct (writer_stream_chunks L h sem N C HN HC m Hm envs st0 0 0)
    as (H1 & H2 & H3 & H4); [lia | lia | exact Hg |].
  fold r in H1, H2, H3, H4. rewrite Hdiv. rewrite Z.sub_0_r in H3, H4.
  split; [exact H3|]. split; [exact H4|]. split; [exact H1|].
  split; [exact H2|]. intros. apply writer_stream_unbounded.
Qed.

Lemma writer_chunking_witness :
  let e := {| sv_status := 0x8000; acq_status := 0x8000; acq_size := 512;
              rel_status := 0x8000; cancel_status := 0x8000;
              wait_status := 0x8000 |} in
  let r := writer_stream link_1dsp 7 9 1024 [e; e] 0x8000 0 in
  (0 < 1024 < 2 ^ 32) /\ (0 < 512) /\ (512 | 1024) /\
  grants_C link_1dsp 512 [e; e] /\
  is_done (outcome_of r) = true /\
  outcome_of r = Done (0x8000, 1024) /\
  count (is_accepted_release link_1dsp) (trace_of r) = 2.
Proof.
  intros e r.
  assert (H1 : 0 < 1024 < 2 ^ 32) by lia.
  assert (H2 : 0 < 512) by lia.
  assert (H3 : (512 | 1024)) by (exists 2; reflexivity).
  assert (H4 : grants_C link_1dsp 512 [e; e]).
  { intros e' [<-|[<-|[]]] _; reflexivity. }
  destruct (writer_chunking link_1dsp 7 9 1024 512 0x8000 [e; e] H1 H2 H3 H4)
    as (Ha & Hb & _).
  split; [exact H1|]. split; [exact H2|]. split; [exact H3|].
  split; [exact H4|]. split; [exact Ha|]. split; [reflexivity|].
  exact (proj2 Hb).
Defined.

(** The count of acquire/release calls can exceed [N / C]: a release the
    library rejects leaves [bytesTransfered] unchanged and the chunk is
    acquired and released again.  Here [N = C = 1024], every successful
    acquire grants 1024 bytes, and the loop makes two acquire/release
    cycles. *)
Lemma writer_chunking_counterexample :
  let e1 := {| sv_status := 0x8000; acq_status := 0x8000; acq_size := 1024;
               rel_status := 0x80008008; cancel_status := 0x8000;
               wait_status := 0x8000 |} in
  let e2 := {| sv_status := 0x8000; acq_status := 0x8000; acq_size := 1024;
               rel_status := 0x8000; cancel_status := 0x8000;
               wait_status := 0x8000 |} in
  let r := writer_stream link_1dsp 7 9 1024 [e1; e2] 0x8000 0 in
  grants_C link_1dsp 1024 [e1; e2] /\
  (1024 | 1024) /\
  1024 / 1024 = 1 /\
  outcome_of r = Done (0x8000, 1024) /\
  count (is_granted_acquire link_1dsp) (trace_of r) = 2 /\
  count is_release (trace_of r) = 2 /\
  ~ (count is_release (trace_of r) = 1024 / 1024).
Proof.
  intros e1 e2 r. split.
  { intros e' [<-|[<-|[]]] _; reflexivity. }
  split; [exists 1; reflexivity|].
  repeat split. discriminate.
Qed.

(** ** C5: the size requested by the read loop *)

Section Reader.

Context (L : DspLink) (h sem bufsize : Z) (msg : string).
Hypothesis Hbuf : 0 < bufsize.

Lemma Uint32_nonzero_pos (z : Z) : (Uint32 z =? 0) = false -> 0 < Uint32 z.
Proof.
  intros H. apply Z.eqb_neq in H. pose proof (Uint32_range z). lia.
Qed.

Lemma reader_iter_acqSize (e : ReadEnv) (s : ReaderState) :
  0 < acqSize (snd (reader_iter L h sem bufsize msg e s)).
Proof.
  unfold reader_iter, RING_IO_Reader_VerifyData.
  repeat match goal with
         | |- context [if ?b then _ else _] => destruct b eqn:?
         end;
    cbn [fst snd acqSize] in *;
    try exact Hbuf;
    try (apply Uint32_nonzero_pos; assumption).
Qed.

Lemma VerifyData_trace_no_acquire (buffer : list Z) (size : Z) :
  Forall (fun e => acquire_request_positive e = true)
    (fst (RING_IO_Reader_VerifyData L buffer size)).
Proof.
  unfold RING_IO_Reader_VerifyData. cbn [fst]. apply Forall_app. split.
  - eapply Forall_impl; [|apply VerifyData_loop_prints].
    intros ev (fmt & arg & ->). reflexivity.
  - repeat constructor.
Qed.

Lemma reader_iter_requests (e : ReadEnv) (s : ReaderState) :
  0 < acqSize s ->
  Forall (fun e => acquire_request_positive e = true)
    (fst (reader_iter L h sem bufsize msg e s)).
Proof.
  intros Hs. unfold reader_iter.
  pose proof (VerifyData_trace_no_acquire (r_acq_buf e) (Uint32 (r_acq_size e)))
    as Hv.
  destruct (RING_IO_Reader_VerifyData L (r_acq_buf e) (Uint32 (r_acq_size e)))
    as [tv vstatus].
  cbn [fst] in Hv.
  assert (H0 : acquire_request_positive
                 (RingIO_acquire h (acqSize s) (r_acq_status e)
                    (Uint32 (r_acq_size e))) = true)
    by (cbn; now apply Z.ltb_lt).
  repeat match goal with
         | |- context [if ?b then _ else _] => destruct b
         end;
    cbn [fst];
    repeat (apply Forall_app; split);
    try exact Hv;
    repeat constructor; exact H0.
Qed.

Lemma reader_loop_requests (envs : list ReadEnv) :
  forall s, 0 < acqSize s ->
    Forall (fun e => acquire_request_positive e = true)
      (trace_of (reader_loop L h sem bufsize msg envs s)).
Proof.
  induction envs as [|e envs IH]; intros s Hs; cbn [reader_loop];
    destruct (exitFlag s =? FALSE); try constructor.
  pose proof (reader_iter_requests e s Hs) as Ht.
  pose proof (reader_iter_acqSize e s) as Ha.
  destruct (reader_iter L h sem bufsize msg e s) as [t s'].
  cbn [fst snd] in *. apply Forall_pair; [exact Ht | apply IH; exact Ha].
Qed.

Lemma not_data_grants_nothing (e : ReadEnv) :
  takes_data L e = false -> (Uint32 (r_acq_size e) =? 0) = true.
Proof.
  unfold takes_data. intros H. apply orb_false_iff in H. destruct H as [_ H].
  apply Z.ltb_ge in H. pose proof (Uint32_range (r_acq_size e)).
  apply Z.eqb_eq. lia.
Qed.

(** The size an iteration leaves for the next [RingIO_acquire]. *)
Lemma reader_iter_next (e : ReadEnv) (s : ReaderState) :
  acqSize (snd (reader_iter L h sem bufsize msg e s)) =
  if takes_data L e then
    if Uint32 (rcvSize s - Uint32 (r_acq_size e)) =? 0 then bufsize
    else Uint32 (rcvSize s - Uint32 (r_acq_size e))
  else if (r_acq_status e =? RINGIO_SPENDINGATTRIBUTE L)
          && negb ((r_attr_status e =? RINGIO_SUCCESS L)
                   || (r_attr_status e =? RINGIO_SPENDINGATTRIBUTE L))
          && (r_attr_status e =? RINGIO_EVARIABLEATTRIBUTE L)
          && ((r_vattr_status e =? RINGIO_SUCCESS L)
              || (r_vattr_status e =? RINGIO_SPENDINGATTRIBUTE L))
          && negb (Uint32 (r_vattr_value e) =? 0)
       then Uint32 (r_vattr_value e)
       else bufsize.
Proof.
  destruct (takes_data L e) eqn:Hd.
  - unfold reader_iter, RING_IO_Reader_VerifyData. cbv zeta.
    unfold takes_data in Hd. rewrite Hd, Z.eqb_refl. cbn [negb app].
    destruct (Uint32 (rcvSize s - Uint32 (r_acq_size e)) =? 0) eqn:Hr;
      cbn [fst snd acqSize].
    + destruct (bufsize =? 0); reflexivity.
    + rewrite Hr. reflexivity.
  - pose proof (not_data_grants_nothing e Hd) as Hz.
    unfold reader_iter, RING_IO_Reader_VerifyData. cbv zeta.
    unfold takes_data in Hd. rewrite Hd, Hz.
    destruct (r_acq_status e =? RINGIO_SPENDINGATTRIBUTE L);
      destruct (r_attr_status e =? RINGIO_SUCCESS L);
      destruct (r_attr_status e =? RINGIO_SPENDINGATTRIBUTE L);
      destruct (r_attr_status e =? RINGIO_EVARIABLEATTRIBUTE L);
      destruct (r_vattr_status e =? RINGIO_SUCCESS L);
      destruct (r_vattr_status e =? RINGIO_SPENDINGATTRIBUTE L);
      destruct (Uint32 (r_vattr_value e) =? 0) eqn:Hv;
      destruct (Uint16 (r_attr_type e) =? RINGIO_DATA_END);
      destruct ((r_acq_status e =? RINGIO_EFAILURE L)
                || (r_acq_status e =? RINGIO_EBUFEMPTY L));
      cbn [andb orb negb fst snd acqSize];
      rewrite ?Hz, ?Hv; cbn [acqSize];
      try reflexivity; destruct (bufsize =? 0); reflexivity.
Qed.

(** C5.  When the default data-buffer size is not 0, every [RingIO_acquire]
    of the read loop is made with a requested size greater than 0, whatever
    the library answers: the size is set to the buffer size before the loop
    and each iteration leaves a size greater than 0 behind.  The size an
    iteration leaves is the rest of the buffer being received when that is
    not 0 and the acquire gave data, the size announced by a variable
    attribute when that is not 0, and the default data-buffer size [bufsize]
    in every other case, that is whenever the iteration's own assignments
    leave 0 (an acquire that is not taken as data granted 0 bytes).  The
    next [RingIO_acquire] is called with the size that was left. *)
Theorem reader_acquire_size_positive (envs : list ReadEnv) (s : ReaderState) :
  Forall (fun e => acquire_request_positive e = true)
    (trace_of (read_data L h sem bufsize msg envs s)) /\
  (forall e s', 0 < acqSize (snd (reader_iter L h sem bufsize msg e s'))) /\
  (forall e s',
     acqSize (snd (reader_iter L h sem bufsize msg e s')) =
     if takes_data L e then
       if Uint32 (rcvSize s' - Uint32 (r_acq_size e)) =? 0 then bufsize
       else Uint32 (rcvSize s' - Uint32 (r_acq_size e))
     else if (r_acq_status e =? RINGIO_SPENDINGATTRIBUTE L)
             && negb ((r_attr_status e =? RINGIO_SUCCESS L)
                      || (r_attr_status e =? RINGIO_SPENDINGATTRIBUTE L))
             && (r_attr_status e =? RINGIO_EVARIABLEATTRIBUTE L)
             && ((r_vattr_status e =? RINGIO_SUCCESS L)
                 || (r_vattr_status e =? RINGIO_SPENDINGATTRIBUTE L))
             && negb (Uint32 (r_vattr_value e) =? 0)
          then Uint32 (r_vattr_value e)
          else bufsize) /\
  (forall e envs' s', exitFlag s' = FALSE ->
     exists t,
       trace_of (reader_loop L h sem bufsize msg (e :: envs') s') =
       RingIO_acquire h (acqSize s') (r_acq_status e) (Uint32 (r_acq_size e))
         :: t).
Proof.
  split; [|split; [|split]].
  - unfold read_data. apply reader_loop_requests. cbn. exact Hbuf.
  - intros. apply reader_iter_acqSize.
  - intros. apply reader_iter_next.
  - intros e envs' s' Hs. cbn [reader_loop]. rewrite Hs. cbn [Z.eqb FALSE].
    assert (Ht : exists t0,
              fst (reader_iter L h sem bufsize msg e s') =
              RingIO_acquire h (acqSize s') (r_acq_status e)
                (Uint32 (r_acq_size e)) :: t0).
    { unfold reader_iter, RING_IO_Reader_VerifyData. cbv zeta.
      repeat match goal with
             | |- context [if ?b then _ else _] => destruct b
             end; cbn [fst app]; eexists; reflexivity. }
    destruct Ht as [t0 Ht].
    destruct (reader_iter L h sem bufsize msg e s') as [t1 s1].
    cbn [fst] in Ht. subst t1.
    destruct (reader_loop L h sem bufsize msg envs' s1) as [t' r].
    exists (t0 ++ t'). reflexivity.
Qed.

End Reader.

(** A grant of 0 bytes with a pending variable attribute that announces 0
    bytes, then a plain failure: the next requests are the buffer size. *)
Lemma reader_acquire_size_positive_witness :
  let L := link_1dsp in
  let e1 := {| r_acq_status := RINGIO_SPENDINGATTRIBUTE L; r_acq_size := 0;
               r_acq_buf := []; r_rel_status := 0x8000;
               r_attr_status := RINGIO_EVARIABLEATTRIBUTE L; r_attr_type := 0;
               r_vattr_status := 0x8000; r_vattr_value := 0;
               r_wait_status := 0x8000 |} in
  let e2 := {| r_acq_status := RINGIO_EBUFEMPTY L; r_acq_size := 0;
               r_acq_buf := []; r_rel_status := 0x8000;
               r_attr_status := 0x8000; r_attr_type := 0;
               r_vattr_status := 0x8000; r_vattr_value := 0;
               r_wait_status := 0x8000 |} in
  let s := {| status := 0x8000; acqSize := 0; rcvSize := 4096;
              totalRcvbytes := 0; exitFlag := FALSE |} in
  let s1 := snd (reader_iter L 8 10 4096 EmptyString e1 s) in
  0 < 4096 /\
  Forall (fun e => acquire_request_positive e = true)
    (trace_of (read_data L 8 10 4096 EmptyString [e1; e2] s)) /\
  acqSize s1 = 4096 /\
  acqSize (snd (reader_iter L 8 10 4096 EmptyString e2 s1)) = 4096 /\
  exists t,
    trace_of (reader_loop L 8 10 4096 EmptyString [e2] s1) =
    RingIO_acquire 8 4096 (RINGIO_EBUFEMPTY L) 0 :: t.
Proof.
  intros L e1 e2 s s1.
  assert (H : 0 < 4096) by lia.
  destruct (reader_acquire_size_positive L 8 10 4096 EmptyString H [e1; e2] s)
    as (H1 & _ & H3 & H4).
  split; [exact H|]. split; [exact H1|].
  split; [exact (H3 e1 s)|]. split; [exact (H3 e2 s1)|].
  exact (H4 e2 [] s1 eq_refl).
Defined.

(** The sizes [RING_IO_Create] sets, for [link_1dsp]. *)
Example Create_globals_link_1dsp :
  RING_IO_Create_globals link_1dsp =
  {| RING_IO_BufferSize := 1024; RING_IO_BufferSize1 := 4096;
     RING_IO_BufferSize2 := 2048; RING_IO_BufferSize3 := 2048;
     RING_IO_BytesToTransfer1 := 1024; RING_IO_BytesToTransfer2 := 2048 |}.
Proof. reflexivity. Qed.

(** ** C6: the channel is drained before it is closed *)

Section Close.

Context (wh : Z).

Lemma drain_spec (obs : list (Z * Z)) :
  Forall (fun e => is_close e = false) (trace_of (drain wh obs)) /\
  Forall (fun e => sleeps_10 e = true) (trace_of (drain wh obs)) /\
  is_done (outcome_of (drain wh obs)) = existsb drained obs /\
  (is_done (outcome_of (drain wh obs)) = true ->
   exists pre, trace_of (drain wh obs) =
               pre ++ [RingIO_getValidSize wh 0; RingIO_getValidAttrSize wh 0]).
Proof.
  induction obs as [|[v a] obs (IH1 & IH2 & IH3 & IH4)]; cbn [drain existsb].
  - repeat split; try constructor. discriminate.
  - unfold drained at 1. cbn [fst snd].
    destruct (Z.eqb_spec v 0) as [->|Hv]; cbn [negb andb orb].
    + destruct (Z.eqb_spec a 0) as [->|Ha]; cbn [negb andb orb].
      * cbn. repeat split; repeat constructor.
        intros _. exists []. reflexivity.
      * destruct (drain wh obs) as [t r]. cbn in *.
        repeat split; repeat constructor; try assumption.
        intros Hd. destruct r; [|discriminate].
        destruct (IH4 eq_refl) as [pre ->].
        exists (RingIO_getValidSize wh 0 :: RingIO_getValidAttrSize wh a
                  :: RING_IO_Sleep 10 :: pre).
        reflexivity.
    + destruct (drain wh obs) as [t r]. cbn in *.
      repeat split; repeat constructor; try assumption.
      intros Hd. destruct r; [|discriminate].
      destruct (IH4 eq_refl) as [pre ->].
      exists (RingIO_getValidSize wh v :: RING_IO_Sleep 10 :: pre).
      reflexivity.
Qed.

Lemma last_occurrence (x : Event) (l pre post : Trace) :
  Forall (fun e => e <> x) l ->
  l ++ [x] = pre ++ x :: post -> pre = l /\ post = [].
Proof.
  revert pre. induction l as [|y l IH]; intros pre Hl Heq.
  - destruct pre as [|z pre]; cbn in Heq.
    + inversion Heq. now split.
    + inversion Heq as [[Hz Hrest]]. destruct pre; discriminate.
  - inversion Hl as [|? ? Hy Hl']; subst.
    destruct pre as [|z pre]; cbn in Heq.
    + inversion Heq. congruence.
    + inversion Heq as [[Hz Hrest]]. subst z.
      destruct (IH pre Hl' Hrest) as [-> ->]. now split.
Qed.

(** In the block that closes the writer side, a [RingIO_close] of the
    writer handle is made only right after [RingIO_getValidSize] and
    [RingIO_getValidAttrSize] both reported 0, and it is the last call of the
    block.  Until then the worker polls, sleeping 10 units between two polls;
    the close is reached exactly when some poll reports 0 for both (or never,
    when there is none). *)
Lemma close_writer_spec (obs : list (Z * Z)) :
  (forall pre post,
     trace_of (close_writer wh obs) = pre ++ RingIO_close wh :: post ->
     post = [] /\
     exists pre', pre = pre' ++ [RingIO_getValidSize wh 0;
                                 RingIO_getValidAttrSize wh 0]) /\
  Forall (fun e => sleeps_10 e = true) (trace_of (close_writer wh obs)) /\
  is_done (outcome_of (close_writer wh obs)) =
    (wh =? NULL) || existsb drained obs.
Proof.
  unfold close_writer.
  destruct (Z.eqb_spec wh NULL) as [Hnull|Hnn]; cbn [negb orb].
  - split; [|split; [constructor | reflexivity]].
    intros pre post Heq. cbn in Heq. destruct pre; discriminate.
  - destruct (drain_spec obs) as (Hnc & Hsl & Hdone & Hend).
    rewrite trace_of_bind, outcome_of_bind.
    destruct (outcome_of (drain wh obs)) as [[]|] eqn:Hout;
      cbn in Hdone, Hend |- *.
    + destruct (Hend eq_refl) as [pre0 Hpre0].
      split; [|split].
      * intros pre post Heq.
        destruct (last_occurrence (RingIO_close wh) (trace_of (drain wh obs))
                    pre post) as [-> ->]; [|exact Heq|].
        { eapply Forall_impl; [|exact Hnc]. intros ev Hev ->. discriminate. }
        split; [reflexivity|]. now exists pre0.
      * apply Forall_app. split; [exact Hsl | repeat constructor].
      * exact Hdone.
    + rewrite app_nil_r. split; [|split].
      * intros pre post Heq. exfalso.
        rewrite Heq in Hnc. apply Forall_app in Hnc. destruct Hnc as [_ Hnc].
        inversion Hnc as [|? ? Hc _]. discriminate.
      * exact Hsl.
      * exact Hdone.
Qed.

End Close.


(** ** C4: the notifier the writers register *)

Section Open.

Context (L : DspLink).

Lemma setNotifier_writer_registers (c : Client) (h sem : Z) (rs : list Z) :
  Forall (registers L c sem)
    (trace_of (setNotifier_writer L h (watermark c) (writerNotify c) sem rs)).
Proof.
  induction rs as [|st rs IH]; cbn [setNotifier_writer].
  - constructor.
  - apply Forall_bind; [apply Forall_emit; cbn; auto|]. intros _.
    apply Forall_bind; [apply Forall_when, Forall_emit; exact I|]. intros _.
    destruct (DSP_FAILED L st); [exact IH | constructor].
Qed.

(** Every [RingIO_setNotifier] of the opening block of a writer is of type
    [RINGIO_NOTIFICATION_ONCE], with the watermark of the worker, its
    callback, and the semaphore the worker created. *)
Lemma writer_open_registers (c : Client) (e : OpenEnv) :
  Forall (registers L c (o_sem e)) (trace_of (writer_open L c e)).
Proof.
  unfold writer_open.
  apply Forall_bind; [apply Forall_emit; exact I|]. intros _.
  apply Forall_bind_out.
  { destruct (DSP_SUCCEEDED L _); [|constructor].
    apply Forall_bind; [apply Forall_emit; exact I|]. intros _. constructor. }
  intros [st sm] Hout. cbn [fst snd].
  apply Forall_bind; [|intros; constructor].
  destruct (DSP_SUCCEEDED L (if o_handle e =? NULL then _ else _)) eqn:Hs.
  - cbn in Hout. inversion Hout; subst st sm.
    destruct (DSP_SUCCEEDED L (o_sem_status e)); [|constructor].
    apply setNotifier_writer_registers.
  - cbn in Hout. inversion Hout; subst st sm. rewrite Hs. constructor.
Qed.

(** The first worker registers its frame size. *)
Lemma client1_watermark (g : Globals) :
  watermark (client1 g) = bytesToTransfer (client1 g).
Proof. reflexivity. Qed.

(** The second worker registers [RING_IO_WRITER_BUF_SIZE]. *)
Lemma client2_watermark (g : Globals) :
  watermark (client2 g) = RING_IO_WRITER_BUF_SIZE /\
  bytesToTransfer (client2 g) = RING_IO_BytesToTransfer2 g.
Proof. split; reflexivity. Qed.

(** Whatever the alignment macro is, as long as it does not round 2048
    down: the second worker's watermark is below its frame size. *)
Lemma client2_watermark_below_frame_size :
  2048 <= align L 2048 ->
  watermark (client2 (RING_IO_Create_globals L))
  < bytesToTransfer (client2 (RING_IO_Create_globals L)).
Proof.
  intros H. cbn [watermark bytesToTransfer client2 RING_IO_Create_globals
                 RING_IO_BytesToTransfer2].
  unfold RING_IO_WRITER_BUF_SIZE. lia.
Qed.

End Open.

(** C4 (what the code does for the second worker).  With the sizes
    [RING_IO_Create] sets, the second writer registers a once-only notifier
    bound to its semaphore, with a watermark of 1024
    ([RING_IO_WRITER_BUF_SIZE]), while its frame size
    ([RING_IO_BytesToTransfer2]) is 2048.  The first writer registers its
    frame size, 1024. *)
Theorem writer2_watermark_is_not_frame_size :
  let L := link_1dsp in
  let g := RING_IO_Create_globals L in
  let e := {| o_handle := 7; o_sem_status := DSP_SOK L; o_sem := 9;
              o_notifier := [RINGIO_SUCCESS L] |} in
  notifiers (trace_of (writer_open L (client2 g) e)) =
    [(RINGIO_NOTIFICATION_ONCE L, 1024, RING_IO_Writer_Notify2, 9)] /\
  bytesToTransfer (client2 g) = 2048 /\
  notifiers (trace_of (writer_open L (client1 g) e)) =
    [(RINGIO_NOTIFICATION_ONCE L, 1024, RING_IO_Writer_Notify1, 9)] /\
  bytesToTransfer (client1 g) = 1024.
Proof. repeat split. Qed.

(** ** C8: where the second worker reads [Task_Run] *)

Section Inner.

(** The calls made before the worker leaves its outer loop satisfy every
    property that holds of all calls other than [RingIO_close] and the read
    of [Task_Run]. *)
Context (L : DspLink) (P : Event -> Prop).
Hypothesis HP :
  forall e, is_close e = false -> is_Read_Task_Run e = false -> P e.

Ltac inner_step :=
  first
    [ apply Forall_ret
    | apply Forall_pending
    | apply Forall_emit; apply HP; reflexivity
    | apply Forall_when
    | apply Forall_bind; [|intro]
    | apply Forall_nil
    | apply Forall_cons; [apply HP; reflexivity|]
    | apply Forall_app; split ].

Ltac inner := repeat inner_step.

Lemma writer_iter_inner (h sem T : Z) (e : StreamEnv) (bt : Z) :
  Forall P (fst (writer_iter L h sem T e bt)).
Proof.
  unfold writer_iter.
  repeat match goal with
         | |- context [if ?b then _ else _] => destruct b
         end; cbn [fst]; inner.
Qed.

Lemma writer_stream_inner (h sem T : Z) (envs : list StreamEnv) :
  forall st bt, Forall P (trace_of (writer_stream L h sem T envs st bt)).
Proof.
  induction envs as [|e envs IH]; intros st bt; cbn [writer_stream];
    destruct ((T =? 0) || (bt <? T)); inner.
  pose proof (writer_iter_inner h sem T e bt) as Ht.
  destruct (writer_iter L h sem T e bt) as [t s]. cbn [fst] in Ht.
  apply Forall_pair; [exact Ht | apply IH].
Qed.

Lemma reader_iter_inner (h sem bufsize : Z) (msg : string) (e : ReadEnv)
  (s : ReaderState) :
  Forall P (fst (reader_iter L h sem bufsize msg e s)).
Proof.
  unfold reader_iter.
  assert (Hv : Forall P
                 (fst (RING_IO_Reader_VerifyData L (r_acq_buf e)
                         (Uint32 (r_acq_size e))))).
  { unfold RING_IO_Reader_VerifyData. cbn [fst]. apply Forall_app. split.
    - eapply Forall_impl; [|apply VerifyData_loop_prints].
      intros ev (fmt & arg & ->). apply HP; reflexivity.
    - inner. }
  destruct (RING_IO_Reader_VerifyData L (r_acq_buf e) (Uint32 (r_acq_size e)))
    as [tv vstatus].
  cbn [fst] in Hv.
  repeat match goal with
         | |- context [if ?b then _ else _] => destruct b
         end; cbn [fst]; inner; exact Hv.
Qed.

Lemma reader_loop_inner (h sem bufsize : Z) (msg : string)
  (envs : list ReadEnv) :
  forall s, Forall P (trace_of (reader_loop L h sem bufsize msg envs s)).
Proof.
  induction envs as [|e envs IH]; intros s; cbn [reader_loop];
    destruct (exitFlag s =? FALSE); inner.
  pose proof (reader_iter_inner h sem bufsize msg e s) as Ht.
  destruct (reader_iter L h sem bufsize msg e s) as [t s']. cbn [fst] in Ht.
  apply Forall_pair; [exact Ht | apply IH].
Qed.

Lemma notify_start_inner (wh : Z) (rs : list Z) :
  Forall P (trace_of (notify_start L wh rs)).
Proof.
  induction rs as [|st rs IH]; cbn [notify_start]; inner.
  destruct (negb (st =? RINGIO_SUCCESS L)); [exact IH | inner].
Qed.

Lemma set_end_inner (wh : Z) (rs : list Z) :
  Forall P (trace_of (set_end L wh rs)).
Proof.
  induction rs as [|st rs IH]; cbn [set_end]; inner.
  destruct (negb (st =? RINGIO_SUCCESS L)); [exact IH | inner].
Qed.

Lemma get_start_inner (rh : Z) (rs : list (Z * Z)) :
  Forall P (trace_of (get_start L rh rs)).
Proof.
  induction rs as [|[st ty] rs IH]; cbn [get_start]; inner.
  destruct ((st =? RINGIO_SUCCESS L) || (st =? RINGIO_SPENDINGATTRIBUTE L)).
  - destruct (Uint16 ty =? Uint16 RINGIO_DATA_START); inner.
  - inner. exact IH.
Qed.

Lemma write_task_inner (c : Client) (wh semW : Z) (fe : FrameEnv) (bt st : Z) :
  Forall P (trace_of (write_task L c wh semW fe bt st)).
Proof.
  unfold write_task. inner.
  - destruct (DSP_SUCCEEDED L st); inner.
  - destruct (DSP_SUCCEEDED L _); [apply notify_start_inner | inner].
  - destruct (DSP_SUCCEEDED L _); inner.
    + apply writer_stream_inner.
    + apply set_end_inner.
    + destruct (DSP_SUCCEEDED L _); inner.
Qed.

Lemma read_task_inner (c : Client) (rh semR : Z) (fe : FrameEnv)
  (s : ReaderState) :
  Forall P (trace_of (read_task L c rh semR fe s)).
Proof.
  unfold read_task. inner.
  - destruct (DSP_SUCCEEDED L (status s)); inner.
    + destruct (f_fReaderStart fe =? TRUE); [apply get_start_inner | inner].
    + apply reader_loop_inner.
  - destruct (negb (f_fReaderEnd fe =? TRUE)); inner.
Qed.

Lemma frame_inner (c : Client) (wh semW rh semR : Z) (fe : FrameEnv) (bt : Z)
  (s : ReaderState) :
  Forall P (trace_of (frame L c wh semW rh semR fe bt s)).
Proof.
  unfold frame.
  apply Forall_bind; [apply write_task_inner|]. intros w.
  apply Forall_bind; [apply read_task_inner|]. intros s'. apply Forall_ret.
Qed.

Lemma writer_open_inner (c : Client) (e : OpenEnv) :
  Forall P (trace_of (writer_open L c e)).
Proof.
  unfold writer_open. inner.
  - destruct (DSP_SUCCEEDED L _); inner.
  - destruct (DSP_SUCCEEDED L _); inner.
    generalize (o_notifier e) as rs.
    induction rs as [|st rs IH]; cbn [setNotifier_writer]; inner.
    destruct (DSP_FAILED L st); [exact IH | inner].
Qed.

Lemma reader_open_inner (c : Client) (e : OpenReaderEnv) :
  Forall P (trace_of (reader_open L c e)).
Proof.
  unfold reader_open. inner.
  - generalize (or_handles e) as hs.
    induction hs as [|h hs IH]; cbn [open_reader]; inner.
    destruct (h =? NULL); [exact IH | inner].
  - destruct (DSP_SUCCEEDED L _); inner.
    generalize (or_notifier e) as rs.
    induction rs as [|st rs IH]; cbn [setNotifier_reader]; inner.
    destruct (DSP_FAILED L st); inner. exact IH.
Qed.

Lemma notify_dsp_end_inner (wh : Z) (rs : list Z) :
  forall st, Forall P (trace_of (notify_dsp_end L wh rs st)).
Proof.
  induction rs as [|tmp rs IH]; intros st; cbn [notify_dsp_end]; inner.
  destruct (DSP_FAILED L tmp); inner. apply IH.
Qed.

Lemma delete_sem_inner (sem tmp st : Z) :
  Forall P (trace_of (delete_sem L sem tmp st)).
Proof. unfold delete_sem. destruct (negb (sem =? NULL)); inner. Qed.

Lemma drain_inner (wh : Z) (obs : list (Z * Z)) :
  Forall P (trace_of (drain wh obs)).
Proof.
  induction obs as [|[v a] obs IH]; cbn [drain]; inner.
  destruct (negb (v =? 0)); inner; exact IH.
Qed.

Lemma loop_head_inner (c : Client) (v : Z) :
  (forall x, P (Read_Task_Run x)) -> Forall P (fst (loop_head c v)).
Proof.
  intros HR. unfold loop_head. destruct (loopHead c).
  - destruct (v =? 46); cbn [fst]; inner.
  - cbn [fst]. inner. constructor; [apply HR | constructor].
Qed.

Lemma frames_inner (c : Client) (wh semW rh semR : Z)
  (fs : list (Z * FrameEnv)) :
  (forall x, P (Read_Task_Run x)) ->
  forall bt s, Forall P (trace_of (frames L c wh semW rh semR fs bt s)).
Proof.
  intros HR. induction fs as [|[v fe] fs IH]; intros bt s; cbn [frames].
  - constructor.
  - pose proof (loop_head_inner c v HR) as Hh.
    destruct (loop_head c v) as [t leave]. cbn [fst] in Hh.
    destruct leave; [exact Hh|].
    apply Forall_bind; [exact Hh|]. intros _.
    apply Forall_bind; [apply frame_inner|]. intros r. apply IH.
Qed.

End Inner.

Section Quiet.

Context (L : DspLink).

Ltac quiet_step :=
  first
    [ apply Forall_ret
    | apply Forall_pending
    | apply Forall_emit; reflexivity
    | apply Forall_when
    | apply Forall_bind; [|intro]
    | apply Forall_nil
    | apply Forall_cons; [reflexivity|]
    | apply Forall_app; split ].

Ltac quiet := repeat quiet_step.

Lemma writer_stream_quiet (h sem T : Z) (envs : list StreamEnv) (st bt : Z) :
  Forall quiet (trace_of (writer_stream L h sem T envs st bt)).
Proof. apply writer_stream_inner. intros e _ H. exact H. Qed.

Lemma reader_loop_quiet (h sem bufsize : Z) (msg : string)
  (envs : list ReadEnv) (s : ReaderState) :
  Forall quiet (trace_of (reader_loop L h sem bufsize msg envs s)).
Proof. apply reader_loop_inner. intros e _ H. exact H. Qed.

Lemma frame_quiet (c : Client) (wh semW rh semR : Z) (fe : FrameEnv) (bt : Z)
  (s : ReaderState) :
  Forall quiet (trace_of (frame L c wh semW rh semR fe bt s)).
Proof. apply frame_inner. intros e _ H. exact H. Qed.

Lemma writer_open_quiet (c : Client) (e : OpenEnv) :
  Forall quiet (trace_of (writer_open L c e)).
Proof. apply writer_open_inner. intros ev _ H. exact H. Qed.

Lemma reader_open_quiet (c : Client) (e : OpenReaderEnv) :
  Forall quiet (trace_of (reader_open L c e)).
Proof. apply reader_open_inner. intros ev _ H. exact H. Qed.

Lemma notify_dsp_end_quiet (wh : Z) (rs : list Z) (st : Z) :
  Forall quiet (trace_of (notify_dsp_end L wh rs st)).
Proof. apply notify_dsp_end_inner. intros ev _ H. exact H. Qed.

Lemma delete_sem_quiet (sem tmp st : Z) :
  Forall quiet (trace_of (delete_sem L sem tmp st)).
Proof. apply delete_sem_inner. intros ev _ H. exact H. Qed.

Lemma drain_quiet (wh : Z) (obs : list (Z * Z)) :
  Forall quiet (trace_of (drain wh obs)).
Proof. apply drain_inner. intros ev _ H. exact H. Qed.

Lemma close_writer_quiet (wh : Z) (obs : list (Z * Z)) :
  Forall quiet (trace_of (close_writer wh obs)).
Proof.
  unfold close_writer. destruct (negb (wh =? NULL)); [|apply Forall_ret].
  apply Forall_bind; [apply drain_quiet|]. intros _.
  apply Forall_emit. reflexivity.
Qed.

Lemma leave_quiet (c : Client) (wh semW rh semR : Z) (e : CloseEnv) (st : Z) :
  Forall quiet (trace_of (leave L c wh semW rh semR e st)).
Proof.
  unfold leave.
  apply Forall_bind; [apply notify_dsp_end_quiet|]. intros st1.
  apply Forall_bind; [apply delete_sem_quiet|]. intros st2.
  apply Forall_bind; [apply close_writer_quiet|]. intros _.
  apply Forall_bind; [apply delete_sem_quiet|]. intros _.
  apply Forall_bind; [apply Forall_when, Forall_emit; reflexivity|]. intros _.
  apply Forall_emit. reflexivity.
Qed.

End Quiet.

Lemma polls_quiet (t : Trace) :
  Forall (fun e => is_Read_Task_Run e = false) t ->
  forall p, polls_follow_sleep p t = true.
Proof.
  induction 1 as [|e t He Ht IH]; intros p; cbn [polls_follow_sleep].
  - reflexivity.
  - rewrite IH. destruct e; try reflexivity. discriminate.
Qed.

Lemma polls_app_quiet_l (t1 t2 : Trace) :
  Forall (fun e => is_Read_Task_Run e = false) t1 ->
  (forall p, polls_follow_sleep p t2 = true) ->
  forall p, polls_follow_sleep p (t1 ++ t2) = true.
Proof.
  intros H1 H2. induction H1 as [|e t He Ht IH]; intros p; cbn.
  - apply H2.
  - rewrite IH. destruct e; try reflexivity. discriminate.
Qed.

Lemma polls_app_quiet_r (t1 t2 : Trace) :
  Forall (fun e => is_Read_Task_Run e = false) t2 ->
  forall p, polls_follow_sleep p t1 = true ->
            polls_follow_sleep p (t1 ++ t2) = true.
Proof.
  intros H2. induction t1 as [|e t1 IH]; intros p H1; cbn.
  - now apply polls_quiet.
  - cbn in H1. apply andb_prop in H1. destruct H1 as [Ha Hb].
    rewrite Ha. cbn. now apply IH.
Qed.

Section TaskRunLoop.

Context (L : DspLink) (g : Globals).

Lemma frames2_polls (wh semW rh semR : Z) (fs : list (Z * FrameEnv)) :
  forall bt s p,
    polls_follow_sleep p
      (trace_of (frames L (client2 g) wh semW rh semR fs bt s)) = true.
Proof.
  induction fs as [|[v fe] fs IH]; intros bt s p; cbn [frames].
  - reflexivity.
  - unfold loop_head. cbn [loopHead client2].
    destruct (v =? FALSE); [reflexivity|].
    rewrite trace_of_bind. cbn [trace_of outcome_of fst snd app].
    cbn [polls_follow_sleep]. cbn [Z.eqb Pos.eqb andb].
    rewrite trace_of_bind.
    apply polls_app_quiet_l; [apply frame_quiet|].
    intros p'. destruct (outcome_of _); [apply IH | reflexivity].
Qed.

Lemma frames1_quiet (wh semW rh semR : Z) (fs : list (Z * FrameEnv)) :
  forall bt s,
    Forall (fun e => is_Read_Task_Run e = false)
      (trace_of (frames L (client1 g) wh semW rh semR fs bt s)).
Proof.
  induction fs as [|[v fe] fs IH]; intros bt s; cbn [frames].
  - constructor.
  - unfold loop_head. cbn [loopHead client1].
    destruct (v =? 46); [repeat constructor|].
    apply Forall_bind; [repeat constructor|]. intros _.
    apply Forall_bind; [apply frame_quiet|]. intros r. apply IH.
Qed.

Lemma WriterClient2_polls (e : ClientEnv) (p : option Event) :
  polls_follow_sleep p (trace_of (RING_IO_WriterClient2 L g e)) = true.
Proof.
  unfold RING_IO_WriterClient2, WriterClient.
  rewrite trace_of_bind.
  apply polls_app_quiet_l; [apply writer_open_quiet|]. clear p. intros p.
  destruct (outcome_of (writer_open L (client2 g) (e_open e)))
    as [[[st0 wh] semW]|]; [|reflexivity].
  rewrite trace_of_bind.
  apply polls_app_quiet_l; [apply reader_open_quiet|]. clear p. intros p.
  destruct (outcome_of (reader_open L (client2 g) (e_open_reader e)))
    as [[[st rh] semR]|]; [|reflexivity].
  rewrite trace_of_bind.
  apply polls_app_quiet_r; [|apply frames2_polls].
  destruct (outcome_of _); [apply leave_quiet | constructor].
Qed.

Lemma WriterClient1_quiet (e : ClientEnv) :
  Forall (fun e => is_Read_Task_Run e = false)
    (trace_of (RING_IO_WriterClient1 L g e)).
Proof.
  unfold RING_IO_WriterClient1, WriterClient.
  apply Forall_bind; [apply writer_open_quiet|]. intros [[st0 wh] semW].
  apply Forall_bind; [apply reader_open_quiet|]. intros [[st rh] semR].
  apply Forall_bind; [apply frames1_quiet|]. intros l. apply leave_quiet.
Qed.

(** C8.  The second worker reads [Task_Run] only at the top of its outer
    loop, right after [RING_IO_Sleep (5000000)], and leaves the loop there
    when the value read is [FALSE]; otherwise the pass (write task, then read
    task) is run before the next read.  Nothing inside a pass, in particular
    neither the streaming loop nor the read loop, reads the flag.  The first
    worker never reads it. *)
Theorem task_run_polled_between_frames (e : ClientEnv) :
  (forall p,
     polls_follow_sleep p (trace_of (RING_IO_WriterClient2 L g e)) = true) /\
  (forall wh semW rh semR fe bt s,
     Forall (fun ev => is_Read_Task_Run ev = false)
       (trace_of (frame L (client2 g) wh semW rh semR fe bt s))) /\
  (forall h sem T envs st bt,
     Forall (fun ev => is_Read_Task_Run ev = false)
       (trace_of (writer_stream L h sem T envs st bt))) /\
  (forall h sem bufsize msg envs s,
     Forall (fun ev => is_Read_Task_Run ev = false)
       (trace_of (reader_loop L h sem bufsize msg envs s))) /\
  (forall wh semW rh semR v fe fs bt s,
     frames L (client2 g) wh semW rh semR ((v, fe) :: fs) bt s =
     if v =? FALSE
     then ([RING_IO_Sleep 5000000; Read_Task_Run v], Done (bt, s))
     else bind ([RING_IO_Sleep 5000000; Read_Task_Run v], Done tt)
            (fun _ =>
               r <- frame L (client2 g) wh semW rh semR fe bt s ;;
               frames L (client2 g) wh semW rh semR fs (fst r) (snd r))) /\
  Forall (fun ev => is_Read_Task_Run ev = false)
    (trace_of (RING_IO_WriterClient1 L g e)).
Proof.
  split; [intros p; apply WriterClient2_polls|].
  split; [intros; apply frame_quiet|].
  split; [intros; apply writer_stream_quiet|].
  split; [intros; apply reader_loop_quiet|].
  split; [|apply WriterClient1_quiet].
  intros. cbn [frames]. unfold loop_head. cbn [loopHead client2].
  destruct (v =? FALSE); reflexivity.
Qed.

End TaskRunLoop.

(** ** C6, for the whole worker *)

Section Drain.

Context (L : DspLink).

Lemma closes_no_close (wh : Z) (t : Trace) :
  Forall (fun e => is_close e = false) t ->
  forall p2 p1, closes_drained wh p2 p1 t = true.
Proof.
  induction 1 as [|e t He Ht IH]; intros p2 p1; cbn [closes_drained].
  - reflexivity.
  - rewrite IH. destruct e; try reflexivity. discriminate.
Qed.

Lemma closes_app (wh : Z) (t1 t2 : Trace) :
  (forall p2 p1, closes_drained wh p2 p1 t2 = true) ->
  forall p2 p1, closes_drained wh p2 p1 t1 = true ->
                closes_drained wh p2 p1 (t1 ++ t2) = true.
Proof.
  intros H2. induction t1 as [|e t1 IH]; intros p2 p1 H1; cbn.
  - apply H2.
  - cbn in H1. apply andb_prop in H1. destruct H1 as [Ha Hb].
    rewrite Ha. cbn. now apply IH.
Qed.

Lemma closes_bind {A B : Type} (wh : Z) (m : M A) (k : A -> M B) :
  (forall p2 p1, closes_drained wh p2 p1 (trace_of m) = true) ->
  (forall a, outcome_of m = Done a ->
             forall p2 p1, closes_drained wh p2 p1 (trace_of (k a)) = true) ->
  forall p2 p1, closes_drained wh p2 p1 (trace_of (bind m k)) = true.
Proof.
  intros Hm Hk p2 p1. rewrite trace_of_bind.
  apply closes_app; [|apply Hm].
  destruct (outcome_of m) as [a|]; [now apply Hk | reflexivity].
Qed.

Lemma closes_drain_close (wh : Z) (pre : Trace) :
  Forall (fun e => is_close e = false) pre ->
  forall p2 p1,
    closes_drained wh p2 p1
      (pre ++ [RingIO_getValidSize wh 0; RingIO_getValidAttrSize wh 0;
               RingIO_close wh]) = true.
Proof.
  induction 1 as [|e t He Ht IH]; intros p2 p1.
  - cbn. rewrite !Z.eqb_refl. reflexivity.
  - cbn [app closes_drained]. rewrite IH.
    destruct e; try reflexivity. discriminate.
Qed.

Lemma close_writer_closes (wh : Z) (obs : list (Z * Z)) :
  forall p2 p1, closes_drained wh p2 p1 (trace_of (close_writer wh obs)) = true.
Proof.
  intros p2 p1. unfold close_writer.
  destruct (negb (wh =? NULL)); [|reflexivity].
  destruct (drain_spec wh obs) as (Hnc & _ & _ & Hend).
  rewrite trace_of_bind.
  destruct (outcome_of (drain wh obs)) as [[]|] eqn:Hout.
  - destruct (Hend eq_refl) as [pre Hpre]. rewrite Hpre in Hnc |- *.
    rewrite <- app_assoc. cbn [emit trace_of fst app].
    apply closes_drain_close.
    apply Forall_app in Hnc. apply Hnc.
  - rewrite app_nil_r. now apply closes_no_close.
Qed.

Lemma open_reader_handle (name : string) (hs : list Z) (h : Z) :
  outcome_of (open_reader L name hs) = Done h -> In h hs.
Proof.
  induction hs as [|x hs IH]; cbn [open_reader]; intros H.
  - discriminate.
  - rewrite outcome_of_bind in H. cbn [emit outcome_of snd] in H.
    destruct (x =? NULL).
    + right. now apply IH.
    + cbn in H. inversion H. now left.
Qed.

Lemma reader_open_handle (c : Client) (e : OpenReaderEnv) (st rh semR : Z) :
  outcome_of (reader_open L c e) = Done (st, rh, semR) ->
  In rh (or_handles e).
Proof.
  unfold reader_open. intros H.
  apply bind_done in H. destruct H as (h & Hh & H & _).
  apply bind_done in H. destruct H as ([] & _ & H & _).
  apply bind_done in H. destruct H as (st' & _ & H & _).
  cbn in H. inversion H; subst. eapply open_reader_handle. exact Hh.
Qed.

Lemma writer_open_handle (c : Client) (e : OpenEnv) (st wh semW : Z) :
  outcome_of (writer_open L c e) = Done (st, wh, semW) -> wh = o_handle e.
Proof.
  unfold writer_open. intros H.
  apply bind_done in H. destruct H as ([] & _ & H & _).
  apply bind_done in H. destruct H as (r & _ & H & _).
  apply bind_done in H. destruct H as (st' & _ & H & _).
  cbn in H. inversion H. reflexivity.
Qed.

Lemma no_close_inner :
  forall e, is_close e = false -> is_Read_Task_Run e = false -> no_close e.
Proof. intros e H _. exact H. Qed.

Lemma leave_closes (c : Client) (wh semW rh semR : Z) (e : CloseEnv) (st : Z) :
  rh <> wh ->
  forall p2 p1,
    closes_drained wh p2 p1 (trace_of (leave L c wh semW rh semR e st)) = true.
Proof.
  intros Hne. unfold leave.
  apply closes_bind.
  { apply closes_no_close. apply notify_dsp_end_inner, no_close_inner. }
  intros st1 _. apply closes_bind.
  { apply closes_no_close. apply delete_sem_inner, no_close_inner. }
  intros st2 _. apply closes_bind; [apply close_writer_closes|].
  intros _ _. apply closes_bind.
  { apply closes_no_close. apply delete_sem_inner, no_close_inner. }
  intros _ _. apply closes_bind.
  { intros p2 p1. destruct (negb (rh =? NULL)); [|reflexivity].
    cbn. replace (rh =? wh) with false by (symmetry; now apply Z.eqb_neq).
    reflexivity. }
  intros _ _ p2 p1. reflexivity.
Qed.

(** C6.  In every run of a writer worker, provided the handle of the reader
    side is another one than the writer handle: each [RingIO_close] of the
    writer handle comes right after [RingIO_getValidSize] and
    [RingIO_getValidAttrSize] both reported 0 for it.  In the block that
    closes the writer side the close is the last call, the worker sleeps 10
    units between two polls, and the close is reached exactly when some poll
    reports 0 for both sizes. *)
Theorem close_after_drain (c : Client) (e : ClientEnv) :
  ~ In (o_handle (e_open e)) (or_handles (e_open_reader e)) ->
  let wh := o_handle (e_open e) in
  (forall p2 p1,
     closes_drained wh p2 p1 (trace_of (WriterClient L c e)) = true) /\
  (forall obs pre post,
     trace_of (close_writer wh obs) = pre ++ RingIO_close wh :: post ->
     post = [] /\
     exists pre', pre = pre' ++ [RingIO_getValidSize wh 0;
                                 RingIO_getValidAttrSize wh 0]) /\
  (forall obs,
     Forall (fun ev => sleeps_10 ev = true) (trace_of (close_writer wh obs))) /\
  (forall obs,
     is_done (outcome_of (close_writer wh obs)) =
     (wh =? NULL) || existsb drained obs).
Proof.
  intros Hdiff wh.
  split; [|split; [|split]]; try (intros obs; apply (close_writer_spec wh obs)).
  unfold WriterClient.
  apply closes_bind.
  { apply closes_no_close. apply writer_open_inner, no_close_inner. }
  intros [[st0 wh'] semW] Hw.
  apply writer_open_handle in Hw. fold wh in Hw. subst wh'.
  apply closes_bind.
  { apply closes_no_close. apply reader_open_inner, no_close_inner. }
  intros [[st rh] semR] Hr. apply reader_open_handle in Hr.
  apply closes_bind.
  { apply closes_no_close. apply frames_inner; [apply no_close_inner|].
    reflexivity. }
  intros l _. apply leave_closes. intros ->. now apply Hdiff.
Qed.

End Drain.

Lemma close_after_drain_witness :
  let L := link_1dsp in
  let ok := 0x8000 in
  let fe := {| f_start_attr := ok; f_start_notify := []; f_stream := [];
               f_end_attr := []; f_end_notify := ok; f_wait_start := ok;
               f_fReaderStart := FALSE; f_get_start := []; f_read := [];
               f_fReaderEnd := TRUE; f_wait_end := ok |} in
  let e := {| e_open := {| o_handle := 7; o_sem_status := ok; o_sem := 9;
                           o_notifier := [ok] |};
              e_open_reader := {| or_handles := [0; 8]; or_sem_status := ok;
                                  or_sem := 10; or_notifier := [ok] |};
              e_frames := [(46, fe)];
              e_close := {| c_dsp_end := [ok]; c_del_writer := ok;
                            c_drain := [(512, 0); (0, 8); (0, 0)];
                            c_del_reader := ok |} |} in
  ~ In 7 [0; 8] /\
  closes_drained 7 None None
    (trace_of (WriterClient L (client1 (RING_IO_Create_globals L)) e)) = true /\
  trace_of (close_writer 7 [(512, 0); (0, 8); (0, 0)]) =
    [RingIO_getValidSize 7 512; RING_IO_Sleep 10;
     RingIO_getValidSize 7 0; RingIO_getValidAttrSize 7 8; RING_IO_Sleep 10;
     RingIO_getValidSize 7 0; RingIO_getValidAttrSize 7 0; RingIO_close 7] /\
  outcome_of (WriterClient L (client1 (RING_IO_Create_globals L)) e) = Done tt.
Proof.
  intros L ok fe e.
  assert (H : ~ In (o_handle (e_open e)) (or_handles (e_open_reader e))).
  { cbn. intros [H|[H|[]]]; discriminate. }
  destruct (close_after_drain L (client1 (RING_IO_Create_globals L)) e H)
    as (Hw & _).
  split; [exact H|]. split; [exact (Hw None None)|].
  split; reflexivity.
Defined.

(** ** C10: the processor the session runs on *)

Section Processor.

Context (L : DspLink).

Ltac names_step :=
  first
    [ apply Forall_ret
    | apply Forall_pending
    | apply Forall_emit; repeat constructor
    | apply Forall_bind; [|intro] ].

Lemma Create_names (exe : string) (p : Z) (e : CreateEnv) :
  Forall (names_only p) (trace_of (RING_IO_Create L exe p e)).
Proof.
  unfold RING_IO_Create.
  repeat first
    [ names_step
    | match goal with
      | |- context [if ?b then _ else _] => destruct b
      end ].
Qed.

Lemma delete_ring_names (p : Z) (name : string) (rs : list Z) :
  Forall (names_only p) (trace_of (delete_ring L p name rs)).
Proof.
  induction rs as [|st rs IH]; cbn [delete_ring]; repeat names_step.
  destruct (DSP_FAILED L st); repeat names_step. exact IH.
Qed.

Lemma Delete_names (p : Z) (e : DeleteEnv) :
  Forall (names_only p) (trace_of (RING_IO_Delete L p e)).
Proof.
  unfold RING_IO_Delete.
  apply Forall_bind; [apply delete_ring_names|]. intros _.
  apply Forall_bind; [apply delete_ring_names|]. intros _.
  repeat names_step.
Qed.

Lemma Main_names (exe : option string) (a b s : string) (e : MainEnv) :
  Forall (names_only 0) (trace_of (RING_IO_Main L exe a b s e)).
Proof.
  unfold RING_IO_Main. change (Uint8 0) with 0.
  apply Forall_bind; [apply Forall_emit; constructor|]. intros _.
  apply Forall_bind; [|intros; apply Forall_emit; constructor].
  destruct exe as [exe|]; [|apply Forall_emit; constructor].
  apply Forall_bind.
  { destruct (MAX_DSPS L <=? 0); repeat names_step. }
  intros st. apply Forall_when.
  apply Forall_bind; [apply Create_names|]. intros st1.
  apply Forall_bind.
  { destruct (DSP_SUCCEEDED L st1); repeat names_step.
    destruct (DSP_SUCCEEDED L (m_client1 e)); repeat names_step. }
  intros st2.
  apply Forall_bind; [|intros; apply Delete_names].
  apply Forall_when. unfold join.
  repeat first
    [ names_step
    | match goal with
      | |- context [if ?b then _ else _] => destruct b
      end ].
Qed.

(** The calls [RING_IO_Create] makes when every step succeeds. *)
Lemma Create_trace (exe : string) (p : Z) (e : CreateEnv) :
  create_succeeds L e = true ->
  RING_IO_Create L exe p e =
  ([RING_IO_OS_init; PROC_setup; PROC_attach p;
    POOL_open p SAMPLE_POOL_ID (sizes L (RING_IO_Create_globals L)) numBufs TRUE;
    PROC_load p exe NUM_ARGS
      [RING_IO_BufferSize1 (RING_IO_Create_globals L);
       RING_IO_BufferSize3 (RING_IO_Create_globals L);
       RING_IO_ATTR_BUF_SIZE; 0];
    RingIO_create p "RINGIO1" p SAMPLE_POOL_ID
      (RING_IO_BufferSize (RING_IO_Create_globals L)) 0 RING_IO_ATTR_BUF_SIZE;
    RingIO_create p "RINGIO3" p SAMPLE_POOL_ID
      (RING_IO_BufferSize2 (RING_IO_Create_globals L)) 0 RING_IO_ATTR_BUF_SIZE;
    PROC_start p],
   Done (cr_start e)).
Proof.
  unfold create_succeeds. intros H.
  repeat (apply andb_prop in H; destruct H as [H ?]).
  unfold RING_IO_Create.
  repeat (cbn [bind emit ret app];
          match goal with
          | Hs : DSP_SUCCEEDED L _ = true |- _ => rewrite Hs; clear Hs
          end).
  reflexivity.
Qed.

End Processor.

Lemma ends_with_app (s t1 t2 : Trace) :
  ends_with s t2 -> ends_with s (t1 ++ t2).
Proof. intros [pre ->]. exists (t1 ++ pre). now rewrite app_assoc. Qed.

Lemma ends_with_snoc (s t : Trace) (x : Event) :
  ends_with s t -> ends_with (s ++ [x]) (t ++ [x]).
Proof. intros [pre ->]. exists pre. now rewrite app_assoc. Qed.

Lemma Delete_done (L : DspLink) (p : Z) (e : DeleteEnv) (u : unit) :
  outcome_of (RING_IO_Delete L p e) = Done u ->
  ends_with (teardown p) (trace_of (RING_IO_Delete L p e)).
Proof.
  unfold RING_IO_Delete. intros H.
  apply bind_done in H. destruct H as (a1 & _ & H & ->).
  apply bind_done in H. destruct H as (a2 & _ & H & ->).
  do 2 apply ends_with_app. exists []. reflexivity.
Qed.

Lemma main_three_args (L : DspLink) (argv0 exe s : string) (e : MainEnv) :
  main L [argv0; exe; s] e =
  (when (Uint8 (atoi s) <? MAX_PROCESSORS L)
     (RING_IO_Main L (Some exe) "2048" "128" s e) ;;; ret 0).
Proof. reflexivity. Qed.

Lemma Main_done (L : DspLink) (exe a b s : string) (e : MainEnv) (u : unit) :
  0 < MAX_DSPS L ->
  outcome_of (RING_IO_Main L (Some exe) a b s e) = Done u ->
  ends_with
    (teardown 0
       ++ [RING_IO_Print "====================================================" None])
    (trace_of (RING_IO_Main L (Some exe) a b s e)).
Proof.
  intros Hmax H. unfold RING_IO_Main in *. change (Uint8 0) with 0 in *.
  replace (MAX_DSPS L <=? 0) with false in * by (symmetry; apply Z.leb_gt; lia).
  apply bind_done in H. destruct H as ([] & _ & H & ->).
  apply ends_with_app.
  apply bind_done in H. destruct H as ([] & H & _ & ->).
  cbn [emit trace_of fst]. apply ends_with_snoc.
  rewrite bind_ret_l in H |- *. rewrite Z.eqb_refl in H |- *.
  cbn [when] in H |- *.
  apply bind_done in H. destruct H as (st1 & _ & H & ->).
  apply ends_with_app.
  apply bind_done in H. destruct H as (st2 & _ & H & ->).
  apply ends_with_app.
  apply bind_done in H. destruct H as ([] & _ & H & ->).
  apply ends_with_app.
  now apply Delete_done with (u := tt).
Qed.

Lemma trace_of_then_ret {A B : Type} (m : M A) (b : B) :
  trace_of (m ;;; ret b) = trace_of m.
Proof.
  rewrite trace_of_bind. destruct (outcome_of m); cbn; apply app_nil_r.
Qed.

Lemma outcome_of_then_ret {A B : Type} (m : M A) (b : B) :
  outcome_of (m ;;; ret b) =
  match outcome_of m with Done _ => Done b | Pending => Pending end.
Proof. rewrite outcome_of_bind. destruct (outcome_of m); reflexivity. Qed.

Lemma Main_starts_with_Create (L : DspLink) (exe a b s : string) (e : MainEnv) :
  0 < MAX_DSPS L ->
  exists rest,
    trace_of (RING_IO_Main L (Some exe) a b s e) =
    RING_IO_Print banner None :: trace_of (RING_IO_Create L exe 0 (m_create e)) ++ rest.
Proof.
  intros Hmax. unfold RING_IO_Main. change (Uint8 0) with 0.
  replace (MAX_DSPS L <=? 0) with false by (symmetry; apply Z.leb_gt; lia).
  rewrite trace_of_bind. cbn [emit trace_of outcome_of fst snd app].
  rewrite trace_of_bind. rewrite bind_ret_l. rewrite Z.eqb_refl. cbn [when].
  rewrite trace_of_bind. rewrite <- app_assoc. eexists. reflexivity.
Qed.

(** C10.  For an invocation [prog exe s] whose third argument parses to a
    processor identifier that is not 0 and is below [MAX_PROCESSORS]:
    [main] runs [RING_IO_Main], whose run is the one for the argument 0;
    every call of the run that names a processor names processor 0; when the
    steps of the creation phase succeed, the run attaches, opens the pool,
    loads the image and creates the two channels for processor 0; and a run
    that returns has ended with the teardown calls for processor 0. *)
Theorem Main_ignores_processor_id (L : DspLink) (argv0 exe s : string)
  (e : MainEnv) :
  0 < Uint8 (atoi s) < MAX_PROCESSORS L ->
  0 < MAX_DSPS L ->
  create_succeeds L (m_create e) = true ->
  let run := main L [argv0; exe; s] e in
  run = (RING_IO_Main L (Some exe) "2048" "128" s e ;;; ret 0) /\
  RING_IO_Main L (Some exe) "2048" "128" s e =
    RING_IO_Main L (Some exe) "2048" "128" "0" e /\
  Forall (names_only 0) (trace_of run) /\
  (exists rest,
     trace_of run =
     [RING_IO_Print banner None; RING_IO_OS_init; PROC_setup; PROC_attach 0;
      POOL_open 0 SAMPLE_POOL_ID (sizes L (RING_IO_Create_globals L)) numBufs TRUE;
      PROC_load 0 exe NUM_ARGS
        [RING_IO_BufferSize1 (RING_IO_Create_globals L);
         RING_IO_BufferSize3 (RING_IO_Create_globals L);
         RING_IO_ATTR_BUF_SIZE; 0];
      RingIO_create 0 "RINGIO1" 0 SAMPLE_POOL_ID
        (RING_IO_BufferSize (RING_IO_Create_globals L)) 0 RING_IO_ATTR_BUF_SIZE;
      RingIO_create 0 "RINGIO3" 0 SAMPLE_POOL_ID
        (RING_IO_BufferSize2 (RING_IO_Create_globals L)) 0 RING_IO_ATTR_BUF_SIZE;
      PROC_start 0] ++ rest) /\
  match outcome_of run with
  | Done _ =>
      ends_with
        (teardown 0
           ++ [RING_IO_Print "====================================================" None])
        (trace_of run)
  | Pending => True
  end.
Proof.
  intros Hid Hmax Hcr run.
  assert (Hrun : run = (RING_IO_Main L (Some exe) "2048" "128" s e ;;; ret 0)).
  { subst run. rewrite main_three_args.
    replace (Uint8 (atoi s) <? MAX_PROCESSORS L) with true
      by (symmetry; apply Z.ltb_lt; lia).
    reflexivity. }
  split; [exact Hrun|]. split; [reflexivity|].
  rewrite Hrun, trace_of_then_ret, outcome_of_then_ret.
  split; [apply Main_names|]. split.
  - destruct (Main_starts_with_Create L exe "2048" "128" s e Hmax) as [rest ->].
    rewrite (Create_trace L exe 0 (m_create e) Hcr). cbn [trace_of fst app].
    exists rest. reflexivity.
  - destruct (outcome_of (RING_IO_Main L (Some exe) "2048" "128" s e))
      as [[]|] eqn:Hout; [|exact I].
    now apply Main_done with (u := tt).
Qed.

Lemma Main_ignores_processor_id_witness :
  let L := link_1dsp in
  let ok := 0x8000 in
  let e := {| m_create := {| cr_os_init := ok; cr_setup := ok; cr_attach := ok;
                             cr_pool_open := ok; cr_load := ok;
                             cr_create1 := ok; cr_create2 := ok;
                             cr_start := ok |};
              m_client1 := ok; m_client2 := ok;
              m_join1 := true; m_join2 := true;
              m_delete := {| d_delete1 := [ok]; d_delete2 := [ok] |} |} in
  let run := main L ["ringio"; "ring_io.out"; "1"]%string e in
  (0 < Uint8 (atoi "1") < MAX_PROCESSORS L) /\
  (0 < MAX_DSPS L) /\
  create_succeeds L (m_create e) = true /\
  Forall (names_only 0) (trace_of run) /\
  outcome_of run = Done 0.
Proof.
  intros L ok e run.
  assert (H1 : 0 < Uint8 (atoi "1") < MAX_PROCESSORS L) by (split; reflexivity).
  assert (H2 : 0 < MAX_DSPS L) by reflexivity.
  assert (H3 : create_succeeds L (m_create e) = true) by reflexivity.
  destruct (Main_ignores_processor_id L "ringio" "ring_io.out" "1" e H1 H2 H3)
    as (_ & _ & Hn & _).
  split; [exact H1|]. split; [exact H2|]. split; [exact H3|].
  split; [exact Hn | reflexivity].
Defined.

(** ** C7: the exit status *)

(** Whenever [main] returns, it returns 0. *)
Lemma main_exit_status (L : DspLink) (argv : list string) (e : MainEnv) :
  outcome_of (main L argv e) = Done 0 \/ outcome_of (main L argv e) = Pending.
Proof.
  unfold main. rewrite outcome_of_then_ret.
  destruct (outcome_of _); [left | right]; reflexivity.
Qed.

(** With a number of arguments other than one or two, [main] prints the
    usage text and returns 0. *)
Lemma main_usage (L : DspLink) (argv : list string) (e : MainEnv) :
  length argv <> 3%nat -> length argv <> 2%nat ->
  main L argv e = ([Usage (nth_error argv 0)], Done 0).
Proof.
  intros H3 H2. unfold main.
  replace (Z.of_nat (length argv) =? 3) with false
    by (symmetry; apply Z.eqb_neq; lia).
  replace (Z.of_nat (length argv) =? 2) with false
    by (symmetry; apply Z.eqb_neq; lia).
  reflexivity.
Qed.

(** With one argument the processor is 0. *)
Lemma main_two_args (L : DspLink) (argv0 exe : string) (e : MainEnv) :
  main L [argv0; exe] e =
  (when (0 <? MAX_PROCESSORS L)
     (RING_IO_Main L (Some exe) "2048" "128" "0" e) ;;; ret 0).
Proof. reflexivity. Qed.

(** The test is made on the 8-bit value: when that is not below
    [MAX_PROCESSORS], nothing is run. *)
Lemma main_rejects (L : DspLink) (argv0 exe s : string) (e : MainEnv) :
  MAX_PROCESSORS L <= Uint8 (atoi s) ->
  main L [argv0; exe; s] e = ([], Done 0).
Proof.
  intros H. rewrite main_three_args.
  replace (Uint8 (atoi s) <? MAX_PROCESSORS L) with false
    by (symmetry; apply Z.ltb_ge; lia).
  reflexivity.
Qed.

(** C7 (what the code does for the argument 256).  With two processors
    configured, the processor identifier 256 is not below the processor
    count, yet [main] runs [RING_IO_Main] (its banner is printed): the
    identifier is stored in 8 bits, where it is 0, before it is compared.
    The exit status, once [main] returns, is 0. *)
Theorem main_accepts_processor_256 (e : MainEnv) :
  let L := link_1dsp in
  let argv := ["ringio"; "ring_io.out"; "256"]%string in
  atoi "256" = 256 /\
  MAX_PROCESSORS L <= atoi "256" /\
  Uint8 (atoi "256") = 0 /\
  main L argv e =
    (RING_IO_Main L (Some "ring_io.out"%string) "2048" "128" "256" e ;;; ret 0) /\
  existsb is_banner (trace_of (main L argv e)) = true /\
  (outcome_of (main L argv e) = Done 0 \/ outcome_of (main L argv e) = Pending).
Proof.
  intros L argv.
  split; [reflexivity|]. split; [discriminate|]. split; [reflexivity|].
  split; [reflexivity|]. split; [|apply main_exit_status].
  subst argv. rewrite main_three_args.
  change (Uint8 (atoi "256") <? MAX_PROCESSORS L) with true. cbn [when].
  rewrite trace_of_then_ret. unfold RING_IO_Main.
  rewrite trace_of_bind. reflexivity.
Qed.


(** ** Runs of the two workers on a small description of the environment *)

(** The second worker: one pass in which the start attribute is refused, then
    [Task_Run] is read as [FALSE].  The flag is read twice, each time right
    after the long sleep. *)
Example WriterClient2_run :
  let L := link_1dsp in
  let ok := 0x8000 in
  let fe := {| f_start_attr := 0x80008008; f_start_notify := []; f_stream := [];
               f_end_attr := []; f_end_notify := ok; f_wait_start := ok;
               f_fReaderStart := FALSE; f_get_start := []; f_read := [];
               f_fReaderEnd := TRUE; f_wait_end := ok |} in
  let e := {| e_open := {| o_handle := 7; o_sem_status := ok; o_sem := 9;
                           o_notifier := [ok] |};
              e_open_reader := {| or_handles := [8]; or_sem_status := ok;
                                  or_sem := 10; or_notifier := [ok] |};
              e_frames := [(TRUE, fe); (FALSE, fe)];
              e_close := {| c_dsp_end := [ok]; c_del_writer := ok;
                            c_drain := [(0, 0)]; c_del_reader := ok |} |} in
  RING_IO_WriterClient2 L (RING_IO_Create_globals L) e =
  ([RingIO_open "RINGIO3" 2 1; RING_IO_CreateSem;
    RingIO_setNotifier 7 2 1024 RING_IO_Writer_Notify2 9;
    RingIO_open "RINGIO4" 1 0; RING_IO_CreateSem;
    RingIO_setNotifier 8 2 0 RING_IO_Reader_Notify2 10;
    RING_IO_Sleep 5000000; Read_Task_Run 1;
    RingIO_setAttribute 7 0 1 0;
    RING_IO_Sleep 5000000; Read_Task_Run 0;
    RingIO_sendNotify 7 6; RING_IO_DeleteSem 9;
    RingIO_getValidSize 7 0; RingIO_getValidAttrSize 7 0; RingIO_close 7;
    RING_IO_DeleteSem 10; RingIO_close 8; RING_IO_Exit_client 2],
   Done tt) /\
  polled (trace_of (RING_IO_WriterClient2 L (RING_IO_Create_globals L) e)) =
    [1; 0].
Proof. split; reflexivity. Qed.

(** The first worker: one pass that sends a frame of 1024 bytes in one
    acquire/release cycle (the first notification is refused once) and then
    reads the end attribute of the peer; then a dot is typed. *)
Example WriterClient1_run :
  let L := link_1dsp in
  let ok := 0x8000 in
  let fe := {| f_start_attr := ok; f_start_notify := [0x80008008; ok];
               f_stream := [{| sv_status := ok; acq_status := ok;
                               acq_size := 1024; rel_status := ok;
                               cancel_status := ok; wait_status := ok |}];
               f_end_attr := [ok]; f_end_notify := ok; f_wait_start := ok;
               f_fReaderStart := TRUE; f_get_start := [(ok, 1)];
               f_read := [{| r_acq_status := RINGIO_SPENDINGATTRIBUTE L;
                             r_acq_size := 0; r_acq_buf := [];
                             r_rel_status := ok; r_attr_status := ok;
                             r_attr_type := 3; r_vattr_status := ok;
                             r_vattr_value := 0; r_wait_status := ok |}];
               f_fReaderEnd := TRUE; f_wait_end := ok |} in
  let e := {| e_open := {| o_handle := 7; o_sem_status := ok; o_sem := 9;
                           o_notifier := [ok] |};
              e_open_reader := {| or_handles := [0; 8]; or_sem_status := ok;
                                  or_sem := 10; or_notifier := [ok] |};
              e_frames := [(97, fe); (46, fe)];
              e_close := {| c_dsp_end := [ok]; c_del_writer := ok;
                            c_drain := [(0, 0)]; c_del_reader := ok |} |} in
  RING_IO_WriterClient1 L (RING_IO_Create_globals L) e =
  ([RingIO_open "RINGIO1" 2 1; RING_IO_CreateSem;
    RingIO_setNotifier 7 2 1024 RING_IO_Writer_Notify1 9;
    RingIO_open "RINGIO2" 1 0; RingIO_open "RINGIO2" 1 0; RING_IO_CreateSem;
    RingIO_setNotifier 8 2 0 RING_IO_Reader_Notify1 10;
    getchar;
    RingIO_setAttribute 7 0 1 0;
    RingIO_sendNotify 7 2; RING_IO_Sleep 10; RingIO_sendNotify 7 2;
    RingIO_setvAttribute 7 0 0 0 [1024] 4;
    RingIO_acquire 7 1024 ok 1024; RING_IO_InitBuffer_call 1024;
    RingIO_release 7 1024 ok;
    RingIO_setAttribute 7 0 3 0;
    RingIO_sendNotify 7 4; RING_IO_YieldClient;
    RING_IO_WaitSem 10; RingIO_getAttribute 8;
    RingIO_acquire 8 4096 0x8104 0; RingIO_getAttribute 8;
    getchar; Write_Task_Run 0;
    RingIO_sendNotify 7 6; RING_IO_DeleteSem 9;
    RingIO_getValidSize 7 0; RingIO_getValidAttrSize 7 0; RingIO_close 7;
    RING_IO_DeleteSem 10; RingIO_close 8; RING_IO_Exit_client 1],
   Done tt).
Proof. reflexivity. Qed.

(** The sizes the read loops fall back to are not 0. *)
Example readBufSize_positive :
  let g := RING_IO_Create_globals link_1dsp in
  readBufSize (client1 g) = 4096 /\ readBufSize (client2 g) = 2048.
Proof. split; reflexivity. Qed.

(** * Further properties *)

(** ** RING_IO_InitBuffer: the whole buffer afterwards *)

Lemma store_eq (mem : list Z) (p : nat) (v : Z) :
  (p < length mem)%nat ->
  store mem p v = Some (firstn p mem ++ v :: skipn (S p) mem).
Proof.
  revert p. induction mem as [|x mem IH]; intros p Hp; cbn in Hp; [lia|].
  destruct p as [|p]; cbn [store firstn skipn app]; [reflexivity|].
  rewrite IH by lia. reflexivity.
Qed.

(** [n] steps of the loop from the counter [i], while the counter stays
    below [2 ^ 15]: the bytes [i .. i + n - 1] are written. *)
Lemma InitBuffer_loop_exact (n : nat) :
  forall (fuel : nat) (i size : Z) (mem : list Z),
    0 <= i -> i + Z.of_nat n <= 32767 -> i + Z.of_nat n <= size ->
    i + Z.of_nat n <= Z.of_nat (length mem) ->
    InitBuffer_loop (n + fuel) i size (Z.to_nat i) mem =
    InitBuffer_loop fuel (i + Z.of_nat n) size (Z.to_nat (i + Z.of_nat n))
      (firstn (Z.to_nat i) mem ++ repeat XFER_VALUE n
         ++ skipn (Z.to_nat i + n) mem).
Proof.
  induction n as [|n IH]; intros fuel i size mem Hi Hn Hsz Hlen.
  - rewrite Z.add_0_r, Nat.add_0_r. cbn [repeat app Nat.add].
    now rewrite firstn_skipn.
  - cbn [Nat.add InitBuffer_loop]. rewrite (Uint32_small i) by lia.
    replace (i <? size) with true by (symmetry; apply Z.ltb_lt; lia).
    rewrite store_eq by lia.
    rewrite Int16_small by lia.
    replace (S (Z.to_nat i)) with (Z.to_nat (i + 1)) by lia.
    rewrite IH; try lia.
    2:{ rewrite length_app, length_firstn. cbn [length].
        rewrite length_skipn. lia. }
    replace (i + 1 + Z.of_nat n) with (i + Z.of_nat (S n)) by lia.
    f_equal.
    change (Uint8 XFER_VALUE) with XFER_VALUE.
    set (p := Z.to_nat i).
    replace (Z.to_nat (i + 1)) with (S p) by lia.
    assert (Hp : (p < length mem)%nat) by lia.
    clearbody p. clear - Hp.
    revert mem Hp. induction p as [|p IHp]; intros mem Hp.
    + destruct mem as [|x mem]; cbn in Hp; [lia|]. reflexivity.
    + destruct mem as [|x mem]; cbn in Hp; [lia|].
      cbn [firstn skipn app Nat.add]. f_equal.
      apply (IHp mem). lia.
Qed.

Lemma InitBuffer_loop_small (fuel : nat) (mem : list Z) (size : Z) :
  0 <= size <= 32767 -> size <= Z.of_nat (length mem) ->
  InitBuffer_loop (Z.to_nat size + S fuel) 0 size O mem =
  Some (repeat XFER_VALUE (Z.to_nat size) ++ skipn (Z.to_nat size) mem).
Proof.
  intros Hsize Hlen.
  change O with (Z.to_nat 0).
  rewrite InitBuffer_loop_exact by lia.
  rewrite Z.add_0_l, Z2Nat.id by lia.
  cbn [InitBuffer_loop]. rewrite Uint32_small by lia.
  rewrite Z.ltb_irrefl. reflexivity.
Qed.

(** X1.  For a non-null buffer of at least [size] bytes and [size <= 32767],
    [RING_IO_InitBuffer] leaves the buffer with its first [size] bytes set to
    [XFER_VALUE] and every byte behind them as it was. *)
Theorem InitBuffer_result (mem : list Z) (size : Z) :
  0 <= size <= 32767 ->
  size <= Z.of_nat (length mem) ->
  RING_IO_InitBuffer (Some mem) size =
  Some (Some (repeat XFER_VALUE (Z.to_nat size) ++ skipn (Z.to_nat size) mem)).
Proof.
  intros Hsize Hlen. unfold RING_IO_InitBuffer, RING_IO_InitBuffer_fuel.
  replace (Z.to_nat 65537)
    with (Z.to_nat size + S (Z.to_nat (65536 - size)))%nat by lia.
  now rewrite InitBuffer_loop_small.
Qed.

Lemma InitBuffer_result_witness :
  (0 <= 2 <= 32767) /\ (2 <= Z.of_nat (length [7; 8; 9])) /\
  RING_IO_InitBuffer (Some [7; 8; 9]) 2 =
  Some (Some (repeat XFER_VALUE (Z.to_nat 2) ++ skipn (Z.to_nat 2) [7; 8; 9])).
Proof.
  split; [lia|]. split; [cbn; lia|].
  apply (InitBuffer_result [7; 8; 9] 2); cbn; lia.
Defined.

Lemma InitBuffer_loop_large (fuel : nat) (mem : list Z) (size : Z) :
  32768 <= size <= 2 ^ 32 - 32768 ->
  32768 <= Z.of_nat (length mem) ->
  InitBuffer_loop (Z.to_nat 32767 + S (S fuel)) 0 size O mem =
  Some (repeat XFER_VALUE (Z.to_nat 32768) ++ skipn (Z.to_nat 32768) mem).
Proof.
  intros Hsize Hlen.
  change O with (Z.to_nat 0).
  rewrite InitBuffer_loop_exact by lia.
  rewrite Z.add_0_l, Z2Nat.id by lia.
  change (Z.to_nat 0) with O. cbn [firstn app Nat.add].
  cbn [InitBuffer_loop]. rewrite (Uint32_small 32767) by lia.
  replace (32767 <? size) with true by (symmetry; apply Z.ltb_lt; lia).
  rewrite store_eq.
  2:{ rewrite length_app, repeat_length, length_skipn. lia. }
  change (Int16 (32767 + 1)) with (- 32768).
  change (Uint32 (- 32768)) with (2 ^ 32 - 32768).
  replace (2 ^ 32 - 32768 <? size) with false by (symmetry; apply Z.ltb_ge; lia).
  f_equal. change (Uint8 XFER_VALUE) with XFER_VALUE.
  replace (Z.to_nat 32768) with (S (Z.to_nat 32767)) by lia.
  set (n := Z.to_nat 32767).
  assert (Hn : (n < length mem)%nat) by lia.
  clearbody n. clear - Hn.
  rewrite firstn_app, repeat_length, Nat.sub_diag, firstn_O, app_nil_r.
  rewrite firstn_all2 by (rewrite repeat_length; lia).
  replace (S n) with (n + 1)%nat by lia.
  rewrite skipn_app, repeat_length.
  rewrite (skipn_all2 (repeat XFER_VALUE n)) by (rewrite repeat_length; lia).
  replace (n + 1 - n)%nat with 1%nat by lia.
  rewrite skipn_skipn. cbn [app].
  rewrite repeat_app. cbn [repeat]. rewrite <- app_assoc. cbn [app].
  replace (1 + n)%nat with (n + 1)%nat by lia. reflexivity.
Qed.

(** X2.  The counter of the loop is a signed 16-bit integer: after the byte
    at offset 32767 it wraps to -32768, which as an unsigned 32-bit value is
    [2 ^ 32 - 32768].  For [32768 <= size <= 2 ^ 32 - 32768] and a buffer of
    at least 32768 bytes, [RING_IO_InitBuffer] returns after it has set
    exactly the first 32768 bytes, whatever [size] is. *)
Theorem InitBuffer_truncates (mem : list Z) (size : Z) :
  32768 <= size <= 2 ^ 32 - 32768 ->
  32768 <= Z.of_nat (length mem) ->
  RING_IO_InitBuffer (Some mem) size =
  Some (Some (repeat XFER_VALUE (Z.to_nat 32768)
                ++ skipn (Z.to_nat 32768) mem)).
Proof.
  intros Hsize Hlen. unfold RING_IO_InitBuffer, RING_IO_InitBuffer_fuel.
  replace (Z.to_nat 65537)
    with (Z.to_nat 32767 + S (S (Z.to_nat 32768)))%nat by lia.
  now rewrite InitBuffer_loop_large.
Qed.

Lemma InitBuffer_truncates_witness :
  (32768 <= 40000 <= 2 ^ 32 - 32768) /\
  (32768 <= Z.of_nat (length (repeat 0 (Z.to_nat 40000)))) /\
  RING_IO_InitBuffer (Some (repeat 0 (Z.to_nat 40000))) 40000 =
  Some (Some (repeat XFER_VALUE (Z.to_nat 32768)
                ++ skipn (Z.to_nat 32768) (repeat 0 (Z.to_nat 40000)))).
Proof.
  split; [lia|]. split; [rewrite repeat_length; lia|].
  apply (InitBuffer_truncates (repeat 0 (Z.to_nat 40000)) 40000);
    [lia | rewrite repeat_length; lia].
Defined.

Lemma fill_twice (v : Z) (a b : nat) (mem : list Z) :
  (a <= length mem)%nat -> (b <= length mem)%nat ->
  repeat v b ++ skipn b (repeat v a ++ skipn a mem) =
  repeat v (Nat.max a b) ++ skipn (Nat.max a b) mem.
Proof.
  revert b mem. induction a as [|a IH]; intros b mem Ha Hb.
  - reflexivity.
  - destruct mem as [|x mem]; cbn in Ha, Hb; [lia|].
    destruct b as [|b]; [reflexivity|].
    cbn [Nat.max repeat app skipn]. f_equal. apply IH; lia.
Qed.

(** X3.  Filling a buffer twice is filling it once with the larger size: for
    sizes up to 32767 within the buffer, [RING_IO_InitBuffer] with [s1]
    followed by [RING_IO_InitBuffer] with [s2] gives the buffer that one call
    with [Z.max s1 s2] gives.  In particular a second call with the same size
    changes nothing. *)
Theorem InitBuffer_twice (mem : list Z) (s1 s2 : Z) :
  0 <= s1 <= 32767 -> 0 <= s2 <= 32767 ->
  s1 <= Z.of_nat (length mem) -> s2 <= Z.of_nat (length mem) ->
  exists mem1,
    RING_IO_InitBuffer (Some mem) s1 = Some (Some mem1) /\
    RING_IO_InitBuffer (Some mem1) s2 =
    RING_IO_InitBuffer (Some mem) (Z.max s1 s2).
Proof.
  intros H1 H2 Hl1 Hl2.
  assert (Hrun : forall m s, 0 <= s <= 32767 -> s <= Z.of_nat (length m) ->
            RING_IO_InitBuffer (Some m) s =
            Some (Some (repeat XFER_VALUE (Z.to_nat s) ++ skipn (Z.to_nat s) m))).
  { intros m s Hs Hl. unfold RING_IO_InitBuffer, RING_IO_InitBuffer_fuel.
    replace (Z.to_nat 65537)
      with (Z.to_nat s + S (Z.to_nat (65536 - s)))%nat by lia.
    now rewrite InitBuffer_loop_small. }
  eexists. split; [apply Hrun; lia|].
  rewrite !Hrun; try lia.
  - rewrite fill_twice by lia.
    now rewrite Z2Nat.inj_max.
  - rewrite length_app, repeat_length, length_skipn. lia.
Qed.

Lemma InitBuffer_twice_witness :
  (0 <= 1 <= 32767) /\ (0 <= 2 <= 32767) /\
  (1 <= Z.of_nat (length [7; 8; 9])) /\ (2 <= Z.of_nat (length [7; 8; 9])) /\
  exists mem1,
    RING_IO_InitBuffer (Some [7; 8; 9]) 1 = Some (Some mem1) /\
    RING_IO_InitBuffer (Some mem1) 2 =
    RING_IO_InitBuffer (Some [7; 8; 9]) (Z.max 1 2).
Proof.
  split; [lia|]. split; [lia|]. split; [cbn; lia|]. split; [cbn; lia|].
  apply (InitBuffer_twice [7; 8; 9] 1 2); cbn; lia.
Defined.

Lemma fill_next (v : Z) (n : nat) (mem : list Z) :
  (n < length mem)%nat ->
  firstn n (repeat v n ++ skipn n mem)
    ++ v :: skipn (S n) (repeat v n ++ skipn n mem)
  = repeat v (S n) ++ skipn (S n) mem.
Proof.
  revert mem. induction n as [|n IH]; intros mem Hn;
    (destruct mem as [|x mem]; cbn in Hn; [lia|]).
  - reflexivity.
  - cbn [repeat app firstn skipn]. f_equal. apply IH. lia.
Qed.

Lemma fill_more (v : Z) (a b : nat) (mem : list Z) :
  (a + b <= length mem)%nat ->
  firstn a (repeat v a ++ skipn a mem) ++ repeat v b
    ++ skipn (a + b) (repeat v a ++ skipn a mem)
  = repeat v (a + b) ++ skipn (a + b) mem.
Proof.
  revert mem. induction a as [|a IH]; intros mem Hn.
  - reflexivity.
  - destruct mem as [|x mem]; cbn in Hn; [lia|].
    cbn [Nat.add repeat app firstn skipn]. f_equal. apply IH. lia.
Qed.

(** [n] steps of the loop while the counter is negative: as an unsigned
    32-bit value the counter [i] is [2 ^ 32 + i]. *)
Lemma InitBuffer_loop_neg (n : nat) :
  forall (fuel : nat) (i size : Z) (ptr : nat) (mem : list Z),
    - 32768 <= i -> i + Z.of_nat n <= 0 ->
    2 ^ 32 + i + Z.of_nat n <= size ->
    (ptr + n <= length mem)%nat ->
    InitBuffer_loop (n + fuel) i size ptr mem =
    InitBuffer_loop fuel (i + Z.of_nat n) size (ptr + n)
      (firstn ptr mem ++ repeat XFER_VALUE n ++ skipn (ptr + n) mem).
Proof.
  induction n as [|n IH]; intros fuel i size ptr mem Hi Hn Hsz Hlen.
  - rewrite Z.add_0_r, !Nat.add_0_r. cbn [repeat app Nat.add].
    now rewrite firstn_skipn.
  - cbn [Nat.add InitBuffer_loop].
    assert (Hu : Uint32 i = 2 ^ 32 + i).
    { unfold Uint32. rewrite <- (Z_mod_plus_full i 1 (2 ^ 32)).
      rewrite Z.mod_small; lia. }
    rewrite Hu.
    replace (2 ^ 32 + i <? size) with true by (symmetry; apply Z.ltb_lt; lia).
    rewrite store_eq by lia.
    rewrite Int16_small by lia.
    rewrite IH; try lia.
    2:{ rewrite length_app, length_firstn. cbn [length].
        rewrite length_skipn. lia. }
    replace (i + 1 + Z.of_nat n) with (i + Z.of_nat (S n)) by lia.
    replace (S ptr + n)%nat with (ptr + S n)%nat by lia.
    f_equal.
    change (Uint8 XFER_VALUE) with XFER_VALUE.
    replace (ptr + S n)%nat with (S ptr + n)%nat by lia.
    assert (Hp : (ptr < length mem)%nat) by lia.
    clear - Hp.
    revert mem Hp. induction ptr as [|p IHp]; intros mem Hp.
    + destruct mem as [|x mem]; cbn in Hp; [lia|]. reflexivity.
    + destruct mem as [|x mem]; cbn in Hp; [lia|].
      cbn [firstn skipn app Nat.add]. f_equal.
      apply (IHp mem). lia.
Qed.

Lemma InitBuffer_loop_wrap (fuel : nat) (mem : list Z) (size : Z) :
  2 ^ 32 - 32768 < size < 2 ^ 32 ->
  size - 2 ^ 32 + 65536 <= Z.of_nat (length mem) ->
  InitBuffer_loop
    (Z.to_nat 32767 + S (Z.to_nat (size - 2 ^ 32 + 32768) + S fuel))
    0 size O mem =
  Some (repeat XFER_VALUE (Z.to_nat (size - 2 ^ 32 + 65536))
          ++ skipn (Z.to_nat (size - 2 ^ 32 + 65536)) mem).
Proof.
  intros Hsize Hlen.
  change O with (Z.to_nat 0).
  rewrite InitBuffer_loop_exact by lia.
  rewrite Z.add_0_l, Z2Nat.id by lia.
  change (Z.to_nat 0) with O. cbn [firstn app Nat.add].
  set (n2 := Z.to_nat (size - 2 ^ 32 + 32768)).
  set (n1 := Z.to_nat 32767).
  assert (Hn1 : Z.of_nat n1 = 32767) by (subst n1; lia).
  assert (Hn2 : Z.of_nat n2 = size - 2 ^ 32 + 32768) by (subst n2; lia).
  cbn [InitBuffer_loop]. rewrite (Uint32_small 32767) by lia.
  replace (32767 <? size) with true by (symmetry; apply Z.ltb_lt; lia).
  rewrite store_eq.
  2:{ rewrite length_app, repeat_length, length_skipn. lia. }
  change (Int16 (32767 + 1)) with (- 32768).
  change (Uint8 XFER_VALUE) with XFER_VALUE.
  rewrite fill_next by lia.
  rewrite InitBuffer_loop_neg; try lia.
  2:{ rewrite length_app, repeat_length, length_skipn. lia. }
  rewrite fill_more by lia.
  cbn [InitBuffer_loop].
  assert (Hu : Uint32 (- 32768 + Z.of_nat n2) = size).
  { unfold Uint32.
    rewrite <- (Z_mod_plus_full (- 32768 + Z.of_nat n2) 1 (2 ^ 32)).
    rewrite Z.mod_small; lia. }
  rewrite Hu, Z.ltb_irrefl.
  replace (Z.to_nat (size - 2 ^ 32 + 65536)) with (S n1 + n2)%nat by lia.
  reflexivity.
Qed.

(** X4.  Sizes near the top of the 32-bit range.  For
    [2 ^ 32 - 32768 < size < 2 ^ 32] the counter of [RING_IO_InitBuffer],
    once it has wrapped to -32768, is still below [size] as an unsigned
    value, and the loop goes on until the counter reaches [size - 2 ^ 32]:
    with a buffer of at least [size - 2 ^ 32 + 65536] bytes the function
    returns after it has set exactly that many bytes.  Together with the two
    ranges below, [RING_IO_InitBuffer] returns for every 32-bit [size]. *)
Theorem InitBuffer_wraps (mem : list Z) (size : Z) :
  2 ^ 32 - 32768 < size < 2 ^ 32 ->
  size - 2 ^ 32 + 65536 <= Z.of_nat (length mem) ->
  RING_IO_InitBuffer (Some mem) size =
  Some (Some (repeat XFER_VALUE (Z.to_nat (size - 2 ^ 32 + 65536))
                ++ skipn (Z.to_nat (size - 2 ^ 32 + 65536)) mem)).
Proof.
  intros Hsize Hlen. unfold RING_IO_InitBuffer, RING_IO_InitBuffer_fuel.
  replace (Z.to_nat 65537)
    with (Z.to_nat 32767
          + S (Z.to_nat (size - 2 ^ 32 + 32768) + S (Z.to_nat (2 ^ 32 - size))))%nat
    by lia.
  now rewrite InitBuffer_loop_wrap.
Qed.

Lemma InitBuffer_wraps_witness :
  (2 ^ 32 - 32768 < 2 ^ 32 - 1 < 2 ^ 32) /\
  (2 ^ 32 - 1 - 2 ^ 32 + 65536
   <= Z.of_nat (length (repeat 0 (Z.to_nat 65535)))) /\
  RING_IO_InitBuffer (Some (repeat 0 (Z.to_nat 65535))) (2 ^ 32 - 1) =
  Some (Some (repeat XFER_VALUE (Z.to_nat (2 ^ 32 - 1 - 2 ^ 32 + 65536))
                ++ skipn (Z.to_nat (2 ^ 32 - 1 - 2 ^ 32 + 65536))
                     (repeat 0 (Z.to_nat 65535)))).
Proof.
  split; [lia|]. split; [rewrite repeat_length; lia|].
  apply (InitBuffer_wraps (repeat 0 (Z.to_nat 65535)) (2 ^ 32 - 1));
    [lia | rewrite repeat_length; lia].
Defined.

(** ** The streaming loop of the writer: exit value, cancel, bytes committed *)

Lemma released_bytes_app (L : DspLink) (t1 t2 : Trace) :
  released_bytes L (t1 ++ t2) = released_bytes L t1 + released_bytes L t2.
Proof.
  induction t1 as [|e t1 IH]; [reflexivity|].
  destruct e; cbn [app released_bytes]; rewrite IH; try reflexivity. lia.
Qed.

Lemma overshoots_nonzero (T bt g : Z) : overshoots T bt g = true -> T <> 0.
Proof.
  unfold overshoots. intros H ->. discriminate.
Qed.

Lemma not_overshoots_le (T bt g : Z) :
  T <> 0 -> overshoots T bt g = false -> Uint32 (bt + g) <= T.
Proof.
  unfold overshoots. intros HT H.
  replace (T =? 0) with false in H by (symmetry; apply Z.eqb_neq; exact HT).
  cbn in H. now apply Z.ltb_ge.
Qed.

Section Stream.

Context (L : DspLink) (h sem T : Z).

Ltac iter_cases e bt :=
  unfold writer_iter; cbv zeta;
  destruct (DSP_FAILED L (sv_status e)) eqn:Hsv;
  [|destruct (DSP_SUCCEEDED L (acq_status e) && (0 <? Uint32 (acq_size e)))
      eqn:Hacq;
    [destruct (overshoots T bt (Uint32 (acq_size e))) eqn:Hov;
     [destruct (negb (bt =? T)) eqn:Hne
     |destruct (DSP_FAILED L (rel_status e)) eqn:Hrel]|]];
  cbn [fst snd].

Lemma writer_iter_bound (e : StreamEnv) (bt : Z) :
  0 < T -> 0 <= bt <= T ->
  0 <= snd (snd (writer_iter L h sem T e bt)) <= T.
Proof.
  intros HT Hbt. iter_cases e bt; try lia.
  apply not_overshoots_le in Hov; [|lia].
  pose proof (Uint32_range (bt + Uint32 (acq_size e))). lia.
Qed.

Lemma writer_stream_unfold (e : StreamEnv) (envs : list StreamEnv) (st bt : Z) :
  writer_stream L h sem T (e :: envs) st bt =
  if (T =? 0) || (bt <? T) then
    let s := snd (writer_iter L h sem T e bt) in
    (fst (writer_iter L h sem T e bt)
       ++ trace_of (writer_stream L h sem T envs (fst s) (snd s)),
     outcome_of (writer_stream L h sem T envs (fst s) (snd s)))
  else ret (st, bt).
Proof.
  cbn [writer_stream]. destruct ((T =? 0) || (bt <? T)); [|reflexivity].
  destruct (writer_iter L h sem T e bt) as [t s]. cbn [fst snd].
  destruct (writer_stream L h sem T envs (fst s) (snd s)). reflexivity.
Qed.

(** X5.  For a frame length [T > 0] and a streaming loop entered with
    [bytesTransfered <= T]: when the loop is left, [bytesTransfered] is
    exactly [T], whatever the library answered in between. *)
Theorem writer_stream_exit (envs : list StreamEnv) (st bt st' bt' : Z) :
  0 < T -> 0 <= bt <= T ->
  outcome_of (writer_stream L h sem T envs st bt) = Done (st', bt') ->
  bt' = T.
Proof.
  intros HT. revert st bt.
  induction envs as [|e envs IH]; intros st bt Hbt.
  - cbn [writer_stream].
    destruct ((T =? 0) || (bt <? T)) eqn:Hc; [discriminate|].
    cbn. intros [= _ <-]. apply orb_false_iff in Hc. destruct Hc as [_ Hc].
    apply Z.ltb_ge in Hc. lia.
  - rewrite writer_stream_unfold.
    destruct ((T =? 0) || (bt <? T)) eqn:Hc.
    + cbv zeta. cbn [outcome_of snd]. apply IH.
      now apply writer_iter_bound.
    + cbn. intros [= _ <-]. apply orb_false_iff in Hc. destruct Hc as [_ Hc].
      apply Z.ltb_ge in Hc. lia.
Qed.

(** X6.  [RingIO_cancel] is called at most once in a run of the streaming
    loop, as its last call: the trace is a cancel-free part, followed or not
    by one [RingIO_cancel] of the writer handle, and when it is, the loop is
    left with [bytesTransfered = T]. *)
Theorem writer_stream_cancel_last (envs : list StreamEnv) (st bt : Z) :
  exists pre,
    Forall (fun ev => is_cancel ev = false) pre /\
    (trace_of (writer_stream L h sem T envs st bt) = pre \/
     (trace_of (writer_stream L h sem T envs st bt) = pre ++ [RingIO_cancel h] /\
      exists st', outcome_of (writer_stream L h sem T envs st bt)
                  = Done (st', T))).
Proof.
  revert st bt. induction envs as [|e envs IH]; intros st bt.
  - exists []. split; [constructor|]. left. cbn [writer_stream].
    destruct ((T =? 0) || (bt <? T)); reflexivity.
  - rewrite writer_stream_unfold.
    destruct ((T =? 0) || (bt <? T)) eqn:Hc.
    2:{ exists []. split; [constructor|]. left. reflexivity. }
    cbv zeta. cbn [trace_of outcome_of fst snd].
    destruct (overshoots T bt (Uint32 (acq_size e))
              && negb (DSP_FAILED L (sv_status e))
              && (DSP_SUCCEEDED L (acq_status e) && (0 <? Uint32 (acq_size e))))
      eqn:Hcancel.
    + apply andb_true_iff in Hcancel. destruct Hcancel as [Hcancel Hacq].
      apply andb_true_iff in Hcancel. destruct Hcancel as [Hov Hsv].
      apply negb_true_iff in Hsv.
      pose proof (overshoots_nonzero _ _ _ Hov) as HT.
      assert (Hrest : forall s, writer_stream L h sem T envs s T = ret (s, T)).
      { intros s. destruct envs; cbn [writer_stream];
          replace (T =? 0) with false by (symmetry; apply Z.eqb_neq; exact HT);
          rewrite Z.ltb_irrefl; reflexivity. }
      unfold writer_iter. cbv zeta. rewrite Hsv, Hacq, Hov. cbn [fst snd].
      rewrite Hrest. cbn [ret fst snd]. rewrite app_nil_r.
      eexists. split; [|right; split; [reflexivity|eexists; reflexivity]].
      destruct (negb (bt =? T)); repeat constructor.
    + destruct (IH (fst (snd (writer_iter L h sem T e bt)))
                   (snd (snd (writer_iter L h sem T e bt))))
        as (pre & Hpre & Hrest).
      exists (fst (writer_iter L h sem T e bt) ++ pre). split.
      * apply Forall_app. split; [|exact Hpre].
        revert Hcancel. iter_cases e bt; intros Hcancel;
          try discriminate; repeat constructor.
      * destruct Hrest as [-> | (-> & Hout)]; [left; reflexivity|].
        right. split; [now rewrite app_assoc | exact Hout].
Qed.

Lemma writer_iter_released (e : StreamEnv) (bt : Z) :
  0 < T < 2 ^ 31 -> 0 <= bt < T -> Uint32 (acq_size e) <= T ->
  let r := writer_iter L h sem T e bt in
  released_bytes L (fst r) <= snd (snd r) - bt /\
  (DSP_SUCCEEDED L (rel_status e) = true ->
   released_bytes L (fst r) = snd (snd r) - bt).
Proof.
  intros HT Hbt Hacq'. cbv zeta.
  pose proof (Uint32_range (acq_size e)) as Hr.
  iter_cases e bt; cbn [app released_bytes]; try (split; [lia | intros; lia]).
  - rewrite Uint32_small by lia.
    destruct (DSP_SUCCEEDED L (rel_status e)); split; intros; lia.
  - unfold DSP_FAILED in Hrel. apply negb_true_iff in Hrel.
    rewrite Hrel. split; [lia | discriminate].
  - unfold DSP_FAILED in Hrel. apply negb_false_iff in Hrel. rewrite Hrel.
    rewrite (Uint32_small (bt + _)) by lia. split; intros; lia.
Qed.

Lemma writer_stream_released (envs : list StreamEnv) :
  0 < T < 2 ^ 31 ->
  Forall (fun e => Uint32 (acq_size e) <= T) envs ->
  forall st bt, 0 <= bt <= T ->
    released_bytes L (trace_of (writer_stream L h sem T envs st bt)) <= T - bt /\
    (Forall (fun e => DSP_SUCCEEDED L (rel_status e) = true) envs ->
     forall r, outcome_of (writer_stream L h sem T envs st bt) = Done r ->
       released_bytes L (trace_of (writer_stream L h sem T envs st bt))
       = T - bt).
Proof.
  intros HT. induction 1 as [|e envs He Henvs IH]; intros st bt Hbt.
  - cbn [writer_stream].
    destruct ((T =? 0) || (bt <? T)) eqn:Hc; cbn; [split; [lia|discriminate]|].
    apply orb_false_iff in Hc. destruct Hc as [_ Hc]. apply Z.ltb_ge in Hc.
    split; [lia | intros; lia].
  - rewrite writer_stream_unfold.
    destruct ((T =? 0) || (bt <? T)) eqn:Hc.
    2:{ cbn. apply orb_false_iff in Hc. destruct Hc as [_ Hc].
        apply Z.ltb_ge in Hc. split; [lia | intros; lia]. }
    apply orb_true_iff in Hc.
    destruct Hc as [Hc | Hc]; [apply Z.eqb_eq in Hc; lia|].
    apply Z.ltb_lt in Hc.
    cbv zeta. cbn [trace_of outcome_of fst snd]. rewrite released_bytes_app.
    pose proof (writer_iter_released e bt HT (conj (proj1 Hbt) Hc) He)
      as [Hle Heq].
    pose proof (writer_iter_bound e bt (proj1 HT) Hbt) as Hb.
    destruct (IH (fst (snd (writer_iter L h sem T e bt)))
                 (snd (snd (writer_iter L h sem T e bt))) Hb) as [Hle' Heq'].
    split; [lia|]. intros Hok r Hr. inversion Hok as [|? ? Hok1 Hok2]; subst.
    rewrite (Heq' Hok2 r Hr), (Heq Hok1). lia.
Qed.

(** X7.  With a frame length [0 < T < 2 ^ 31], a loop entered with
    [bytesTransfered <= T] and a library that never grants more than the [T]
    bytes asked for, the bytes committed by accepted [RingIO_release] calls
    never exceed what is left of the frame, [T - bytesTransfered], in any
    run of the loop, finished or not. *)
Theorem writer_never_commits_more (envs : list StreamEnv) (st bt : Z) :
  0 < T < 2 ^ 31 -> 0 <= bt <= T ->
  Forall (fun e => Uint32 (acq_size e) <= T) envs ->
  released_bytes L (trace_of (writer_stream L h sem T envs st bt)) <= T - bt.
Proof.
  intros HT Hbt Hg. now apply writer_stream_released.
Qed.

(** X8.  Under the same conditions, when every release is accepted and the
    loop is left, the accepted releases add up to exactly
    [T - bytesTransfered]: the frame is committed in full, the bytes of an
    overshooting grant being cut to the remainder. *)
Theorem writer_commits_frame (envs : list StreamEnv) (st bt : Z)
  (r : Z * Z) :
  0 < T < 2 ^ 31 -> 0 <= bt <= T ->
  Forall (fun e => Uint32 (acq_size e) <= T) envs ->
  Forall (fun e => DSP_SUCCEEDED L (rel_status e) = true) envs ->
  outcome_of (writer_stream L h sem T envs st bt) = Done r ->
  released_bytes L (trace_of (writer_stream L h sem T envs st bt)) = T - bt.
Proof.
  intros HT Hbt Hg Hok Hr.
  exact (proj2 (writer_stream_released envs HT Hg st bt Hbt) Hok r Hr).
Qed.

End Stream.

Lemma writer_stream_exit_witness :
  let e := {| sv_status := 0x8000; acq_status := 0x8000; acq_size := 1024;
              rel_status := 0x8000; cancel_status := 0x8000;
              wait_status := 0x8000 |} in
  0 < 1000 /\ 0 <= 0 <= 1000 /\
  outcome_of (writer_stream link_1dsp 7 9 1000 [e] 0x8000 0)
  = Done (0x8000, 1000) /\
  1000 = 1000.
Proof.
  intros e. split; [lia|]. split; [lia|]. split; [reflexivity|].
  apply (writer_stream_exit link_1dsp 7 9 1000 [e] 0x8000 0 0x8000 1000); [lia | lia | reflexivity].
Defined.

Lemma writer_never_commits_more_witness :
  let e := {| sv_status := 0x8000; acq_status := 0x8000; acq_size := 600;
              rel_status := 0x8000; cancel_status := 0x8000;
              wait_status := 0x8000 |} in
  0 < 1000 < 2 ^ 31 /\ 0 <= 0 <= 1000 /\
  Forall (fun e => Uint32 (acq_size e) <= 1000) [e] /\
  released_bytes link_1dsp
    (trace_of (writer_stream link_1dsp 7 9 1000 [e] 0x8000 0)) <= 1000 - 0.
Proof.
  intros e.
  assert (Hg : Forall (fun e => Uint32 (acq_size e) <= 1000) [e]).
  { constructor; [vm_compute; discriminate | constructor]. }
  split; [lia|]. split; [lia|]. split; [exact Hg|].
  apply (writer_never_commits_more link_1dsp 7 9 1000 [e] 0x8000 0);
    [lia | lia | exact Hg].
Defined.

Lemma writer_commits_frame_witness :
  let e := {| sv_status := 0x8000; acq_status := 0x8000; acq_size := 600;
              rel_status := 0x8000; cancel_status := 0x8000;
              wait_status := 0x8000 |} in
  0 < 1000 < 2 ^ 31 /\ 0 <= 0 <= 1000 /\
  Forall (fun e => Uint32 (acq_size e) <= 1000) [e; e] /\
  Forall (fun e => DSP_SUCCEEDED link_1dsp (rel_status e) = true) [e; e] /\
  outcome_of (writer_stream link_1dsp 7 9 1000 [e; e] 0x8000 0)
  = Done (0x8000, 1000) /\
  released_bytes link_1dsp
    (trace_of (writer_stream link_1dsp 7 9 1000 [e; e] 0x8000 0)) = 1000 - 0.
Proof.
  intros e.
  assert (Hg : Forall (fun e => Uint32 (acq_size e) <= 1000) [e; e]).
  { repeat constructor; vm_compute; discriminate. }
  assert (Hok : Forall (fun e => DSP_SUCCEEDED link_1dsp (rel_status e) = true)
                  [e; e]).
  { repeat constructor. }
  split; [lia|]. split; [lia|]. split; [exact Hg|]. split; [exact Hok|].
  split; [reflexivity|].
  apply (writer_commits_frame link_1dsp 7 9 1000 [e; e] 0x8000 0
           (0x8000, 1000)); [lia | lia | exact Hg | exact Hok | reflexivity].
Defined.

(** ** The read loop: bytes received, buffers released, exit *)

Lemma release_sizes_app (t1 t2 : Trace) :
  release_sizes (t1 ++ t2) = release_sizes t1 + release_sizes t2.
Proof.
  induction t1 as [|e t1 IH]; [reflexivity|].
  destruct e; cbn [app release_sizes]; rewrite IH; try reflexivity. lia.
Qed.

Lemma acquired_sizes_app (L : DspLink) (t1 t2 : Trace) :
  acquired_sizes L (t1 ++ t2) = acquired_sizes L t1 + acquired_sizes L t2.
Proof.
  induction t1 as [|e t1 IH]; [reflexivity|].
  destruct e; cbn [app acquired_sizes]; rewrite IH; try reflexivity. lia.
Qed.

Lemma prints_no_transfer (L : DspLink) (t : Trace) :
  Forall (fun e => exists fmt arg, e = RING_IO_Print fmt arg) t ->
  release_sizes t = 0 /\ acquired_sizes L t = 0 /\
  count is_release t = 0 /\ count (is_data_acquire L) t = 0.
Proof.
  induction 1 as [|e t (fmt & arg & ->) _ IH]; [repeat split|].
  exact IH.
Qed.

Section ReadLoop.

Context (L : DspLink) (h sem bufsize : Z) (msg : string).

Lemma reader_iter_transfer (e : ReadEnv) (s : ReaderState) :
  let r := reader_iter L h sem bufsize msg e s in
  let g := if takes_data L e then Uint32 (r_acq_size e) else 0 in
  release_sizes (fst r) = g /\ acquired_sizes L (fst r) = g /\
  count is_release (fst r) = count (is_data_acquire L) (fst r) /\
  totalRcvbytes (snd r) =
  (if takes_data L e then Uint32 (totalRcvbytes s + Uint32 (r_acq_size e))
   else totalRcvbytes s).
Proof.
  cbv zeta. unfold reader_iter, takes_data. cbv zeta.
  unfold RING_IO_Reader_VerifyData.
  destruct (prints_no_transfer L _
              (VerifyData_loop_prints L 21 (DSP_SOK L) 0 (hd 0 (r_acq_buf e))))
    as (Hv1 & Hv2 & Hv3 & Hv4).
  set (tv := VerifyData_loop L 21 (DSP_SOK L) 0 (hd 0 (r_acq_buf e))) in *.
  destruct ((r_acq_status e =? RINGIO_SUCCESS L) || (0 <? Uint32 (r_acq_size e)))
    eqn:Hd.
  - rewrite Z.eqb_refl. cbn [negb app].
    assert (Ht : forall s1 s2 : ReaderState,
              totalRcvbytes s1 = Uint32 (totalRcvbytes s + Uint32 (r_acq_size e)) ->
              totalRcvbytes s2 = Uint32 (totalRcvbytes s + Uint32 (r_acq_size e)) ->
              forall b : bool,
                totalRcvbytes (if b then s1 else s2)
                = Uint32 (totalRcvbytes s + Uint32 (r_acq_size e))).
    { intros s1 s2 H1 H2 []; assumption. }
    cbn [fst snd]. unfold count.
    cbn [release_sizes acquired_sizes filter is_release is_data_acquire].
    rewrite Hd. rewrite !release_sizes_app, !acquired_sizes_app, !filter_app.
    rewrite !length_app.
    unfold count in Hv3, Hv4.
    cbn [release_sizes acquired_sizes filter is_release is_data_acquire length].
    rewrite Hv1, Hv2. cbn [length].
    repeat split; try lia.
    + rewrite !app_nil_r. lia.
    + destruct (Uint32 (rcvSize s - Uint32 (r_acq_size e)) =? 0);
        cbn [fst snd acqSize totalRcvbytes];
        match goal with |- context [if ?b then _ else _] => destruct b end;
        reflexivity.
  - repeat match goal with
           | |- context [if ?b then _ else _] => destruct b eqn:?
           end;
      cbn [fst snd totalRcvbytes app release_sizes acquired_sizes];
      unfold count;
      cbn [filter is_release is_data_acquire app]; rewrite ?Hd; cbn [length];
      repeat split; reflexivity.
Qed.

Lemma reader_loop_unfold (e : ReadEnv) (envs : list ReadEnv) (s : ReaderState) :
  reader_loop L h sem bufsize msg (e :: envs) s =
  if exitFlag s =? FALSE then
    let r := reader_iter L h sem bufsize msg e s in
    (fst r ++ trace_of (reader_loop L h sem bufsize msg envs (snd r)),
     outcome_of (reader_loop L h sem bufsize msg envs (snd r)))
  else ret s.
Proof.
  cbn [reader_loop]. destruct (exitFlag s =? FALSE); [|reflexivity].
  destruct (reader_iter L h sem bufsize msg e s) as [t s1]. cbn [fst snd].
  destruct (reader_loop L h sem bufsize msg envs s1). reflexivity.
Qed.

(** X9.  [totalRcvbytes] counts what the reader hands back: when the read
    loop is left, [totalRcvbytes] is its value at entry plus the sizes of all
    [RingIO_release] calls of the loop, as an unsigned 32-bit number. *)
Theorem reader_loop_total (envs : list ReadEnv) (s s' : ReaderState) :
  0 <= totalRcvbytes s < 2 ^ 32 ->
  outcome_of (reader_loop L h sem bufsize msg envs s) = Done s' ->
  totalRcvbytes s' =
  Uint32 (totalRcvbytes s
          + release_sizes (trace_of (reader_loop L h sem bufsize msg envs s))).
Proof.
  revert s. induction envs as [|e envs IH]; intros s Hs.
  - cbn [reader_loop]. destruct (exitFlag s =? FALSE); [discriminate|].
    cbn. intros [= <-]. now rewrite Z.add_0_r, Uint32_small.
  - rewrite reader_loop_unfold. destruct (exitFlag s =? FALSE).
    2:{ cbn. intros [= <-]. now rewrite Z.add_0_r, Uint32_small. }
    cbv zeta. cbn [outcome_of trace_of fst snd]. intros Hout.
    destruct (reader_iter_transfer e s) as (Hrel & _ & _ & Htot).
    rewrite release_sizes_app, Hrel.
    rewrite (IH (snd (reader_iter L h sem bufsize msg e s))); [|
      rewrite Htot; destruct (takes_data L e); [apply Uint32_range | exact Hs] |
      exact Hout].
    rewrite Htot. destruct (takes_data L e).
    + unfold Uint32. rewrite Zplus_mod_idemp_l. f_equal. lia.
    + f_equal.
Qed.

(** X10.  Every buffer of data the read loop acquires is released, in full:
    in every run of the loop, finished or not, there are as many
    [RingIO_release] calls as acquires taken as data, and the released sizes
    add up to the granted ones.  Neither the status of a release nor the
    result of the verification changes this. *)
Theorem reader_releases_what_it_acquires (envs : list ReadEnv)
  (s : ReaderState) :
  let t := trace_of (reader_loop L h sem bufsize msg envs s) in
  count is_release t = count (is_data_acquire L) t /\
  release_sizes t = acquired_sizes L t.
Proof.
  cbv zeta. revert s. induction envs as [|e envs IH]; intros s.
  - cbn [reader_loop]. destruct (exitFlag s =? FALSE); split; reflexivity.
  - rewrite reader_loop_unfold. destruct (exitFlag s =? FALSE).
    2:{ split; reflexivity. }
    cbv zeta. cbn [trace_of fst].
    destruct (reader_iter_transfer e s) as (Hrel & Hacq & Hcnt & _).
    destruct (IH (snd (reader_iter L h sem bufsize msg e s))) as [IH1 IH2].
    unfold trace_of in *.
    rewrite !count_app, release_sizes_app, acquired_sizes_app.
    rewrite IH1, IH2, Hcnt, Hrel, Hacq.
    split; reflexivity.
Qed.

Lemma reader_iter_exit (e : ReadEnv) (s : ReaderState) :
  let r := reader_iter L h sem bufsize msg e s in
  exitFlag (snd r) = exitFlag s \/
  (exitFlag (snd r) = TRUE /\
   fst r = [RingIO_acquire h (acqSize s) (RINGIO_SPENDINGATTRIBUTE L) 0;
            RingIO_getAttribute h]).
Proof.
  cbv zeta. unfold reader_iter. cbv zeta.
  unfold RING_IO_Reader_VerifyData.
  destruct ((r_acq_status e =? RINGIO_SUCCESS L) || (0 <? Uint32 (r_acq_size e))).
  - left.
    repeat match goal with
           | |- context [if ?b then _ else _] => destruct b
           end; reflexivity.
  - destruct ((r_acq_status e =? RINGIO_SPENDINGATTRIBUTE L)
              && (Uint32 (r_acq_size e) =? 0)) eqn:Hp.
    + apply andb_true_iff in Hp. destruct Hp as [Hst Hz].
      apply Z.eqb_eq in Hst, Hz. rewrite Hst, Hz.
      destruct ((r_attr_status e =? RINGIO_SUCCESS L)
                || (r_attr_status e =? RINGIO_SPENDINGATTRIBUTE L)).
      * destruct (Uint16 (r_attr_type e) =? RINGIO_DATA_END).
        -- right. cbn [fst snd acqSize].
           destruct (0 =? 0); split; reflexivity.
        -- left. cbn [fst snd acqSize]. destruct (0 =? 0); reflexivity.
      * left.
        repeat match goal with
               | |- context [if ?b then _ else _] => destruct b
               end; reflexivity.
    + left.
      repeat match goal with
             | |- context [if ?b then _ else _] => destruct b
             end; reflexivity.
Qed.

(** X11.  The read loop has one way out.  Entered with [exitFlag = FALSE], it
    is left only right after a [RingIO_acquire] that answered
    [RINGIO_SPENDINGATTRIBUTE] with no bytes and the [RingIO_getAttribute]
    that followed it; [exitFlag] is then [TRUE].  No failure status of a
    call ends the loop. *)
Theorem reader_loop_exit (envs : list ReadEnv) (s s' : ReaderState) :
  exitFlag s = FALSE ->
  outcome_of (reader_loop L h sem bufsize msg envs s) = Done s' ->
  exitFlag s' = TRUE /\
  exists pre req,
    trace_of (reader_loop L h sem bufsize msg envs s) =
    pre ++ [RingIO_acquire h req (RINGIO_SPENDINGATTRIBUTE L) 0;
            RingIO_getAttribute h].
Proof.
  revert s. induction envs as [|e envs IH]; intros s Hs.
  - cbn [reader_loop]. rewrite Hs. discriminate.
  - rewrite reader_loop_unfold, Hs. cbv zeta.
    cbn [Z.eqb FALSE outcome_of trace_of fst snd]. intros Hout.
    destruct (reader_iter_exit e s) as [Hsame | [Hexit Ht]].
    + destruct (IH (snd (reader_iter L h sem bufsize msg e s)))
        as (Hflag & pre & req & Hpre); [congruence | exact Hout |].
      split; [exact Hflag|].
      exists (fst (reader_iter L h sem bufsize msg e s) ++ pre), req.
      rewrite Hpre. now rewrite app_assoc.
    + assert (Hrest : reader_loop L h sem bufsize msg envs
                        (snd (reader_iter L h sem bufsize msg e s))
                      = ret (snd (reader_iter L h sem bufsize msg e s))).
      { destruct envs; cbn [reader_loop]; rewrite Hexit; reflexivity. }
      rewrite Hrest in Hout |- *. cbn in Hout. injection Hout as <-.
      split; [exact Hexit|].
      exists [], (acqSize s). cbn [ret fst]. rewrite app_nil_r. exact Ht.
Qed.

End ReadLoop.

Lemma reader_loop_total_witness :
  let e1 := {| r_acq_status := 0x8000; r_acq_size := 100; r_acq_buf := [5];
               r_rel_status := 0x8000; r_attr_status := 0; r_attr_type := 0;
               r_vattr_status := 0; r_vattr_value := 0; r_wait_status := 0 |} in
  let e2 := {| r_acq_status := 0x8104; r_acq_size := 0; r_acq_buf := [];
               r_rel_status := 0; r_attr_status := 0x8000; r_attr_type := 3;
               r_vattr_status := 0; r_vattr_value := 0; r_wait_status := 0 |} in
  let s := {| status := 0x8000; acqSize := 4096; rcvSize := 4096;
              totalRcvbytes := 0; exitFlag := FALSE |} in
  let m := reader_loop link_1dsp 7 9 4096 EmptyString [e1; e2] s in
  0 <= totalRcvbytes s < 2 ^ 32 /\
  (exists s', outcome_of m = Done s' /\
     totalRcvbytes s' = Uint32 (totalRcvbytes s + release_sizes (trace_of m))).
Proof.
  intros e1 e2 s m. split; [cbn; lia|].
  eexists. split; [reflexivity|].
  apply (reader_loop_total link_1dsp 7 9 4096 EmptyString [e1; e2] s);
    [cbn; lia | reflexivity].
Defined.

Lemma reader_loop_exit_witness :
  let e2 := {| r_acq_status := 0x8104; r_acq_size := 0; r_acq_buf := [];
               r_rel_status := 0; r_attr_status := 0x8000; r_attr_type := 3;
               r_vattr_status := 0; r_vattr_value := 0; r_wait_status := 0 |} in
  let s := {| status := 0x8000; acqSize := 4096; rcvSize := 4096;
              totalRcvbytes := 0; exitFlag := FALSE |} in
  let m := reader_loop link_1dsp 7 9 4096 EmptyString [e2] s in
  exitFlag s = FALSE /\
  (exists s', outcome_of m = Done s' /\
     exitFlag s' = TRUE /\
     exists pre req,
       trace_of m =
       pre ++ [RingIO_acquire 7 req (RINGIO_SPENDINGATTRIBUTE link_1dsp) 0;
               RingIO_getAttribute 7]).
Proof.
  intros e2 s m. split; [reflexivity|].
  eexists. split; [reflexivity|].
  apply (reader_loop_exit link_1dsp 7 9 4096 EmptyString [e2] s);
    reflexivity.
Defined.

(** ** The writer workers: the frame committed by a pass, the handles *)

Lemma no_release_released (L : DspLink) (t : Trace) :
  Forall (fun e => is_release e = false) t -> released_bytes L t = 0.
Proof.
  induction 1 as [|e t He _ IH]; [reflexivity|].
  destruct e; cbn [released_bytes]; try exact IH. discriminate.
Qed.

Lemma existsb_false_Forall (p : Event -> bool) (t : Trace) :
  Forall (fun e => p e = false) t -> existsb p t = false.
Proof.
  induction 1 as [|e t He _ IH]; [reflexivity|].
  cbn [existsb]. now rewrite He, IH.
Qed.

Lemma filter_none (p : Event -> bool) (t : Trace) :
  Forall (fun e => p e = false) t -> filter p t = [].
Proof.
  induction 1 as [|e t He _ IH]; [reflexivity|].
  cbn [filter]. now rewrite He.
Qed.

Section Pass.

Context (L : DspLink).

Lemma notify_start_plain (wh : Z) (rs : list Z) :
  Forall (fun e => is_release e = false /\ is_end_attribute e = false)
    (trace_of (notify_start L wh rs)).
Proof.
  induction rs as [|st rs IH]; cbn [notify_start]; [constructor|].
  apply Forall_bind; [apply Forall_emit; split; reflexivity|]. intros _.
  apply Forall_bind; [apply Forall_when, Forall_emit; split; reflexivity|].
  intros _. destruct (negb (st =? RINGIO_SUCCESS L)); [exact IH|].
  apply Forall_ret.
Qed.

Lemma set_end_no_release (wh : Z) (rs : list Z) :
  Forall (fun e => is_release e = false) (trace_of (set_end L wh rs)).
Proof.
  induction rs as [|st rs IH]; cbn [set_end]; [constructor|].
  apply Forall_bind; [apply Forall_emit; reflexivity|]. intros _.
  destruct (negb (st =? RINGIO_SUCCESS L)); [exact IH | apply Forall_ret].
Qed.

Lemma set_end_marks (wh : Z) (rs : list Z) (st : Z) :
  outcome_of (set_end L wh rs) = Done st ->
  existsb is_end_attribute (trace_of (set_end L wh rs)) = true.
Proof.
  destruct rs as [|x rs]; cbn [set_end]; [discriminate|]. intros _.
  rewrite trace_of_bind. reflexivity.
Qed.

Lemma writer_stream_no_end (h sem T : Z) (envs : list StreamEnv) :
  forall st bt,
    Forall (fun e => is_end_attribute e = false)
      (trace_of (writer_stream L h sem T envs st bt)).
Proof.
  induction envs as [|e envs IH]; intros st bt.
  - cbn [writer_stream]. destruct ((T =? 0) || (bt <? T)); constructor.
  - rewrite writer_stream_unfold.
    destruct ((T =? 0) || (bt <? T)); [|constructor].
    cbv zeta. cbn [trace_of fst]. apply Forall_app. split; [|apply IH].
    unfold writer_iter. cbv zeta.
    repeat match goal with
           | |- context [if ?b then _ else _] => destruct b
           end; repeat constructor.
Qed.

(** X12.  A pass of a worker commits one frame before it marks the end of
    the data.  For a write task entered with [bytesTransfered = 0], a frame
    length [0 < T < 2 ^ 31], grants of at most [T] bytes and releases that
    are all accepted: when the write task returns, the accepted releases add
    up to [T] if the task has set the [RINGIO_DATA_END] attribute, and
    nothing has been released if it has not. *)
Theorem write_task_commits_frame (c : Client) (wh semW : Z) (fe : FrameEnv)
  (st : Z) (r : Z * Z) :
  0 < bytesToTransfer c < 2 ^ 31 ->
  Forall (fun e => Uint32 (acq_size e) <= bytesToTransfer c) (f_stream fe) ->
  Forall (fun e => DSP_SUCCEEDED L (rel_status e) = true) (f_stream fe) ->
  outcome_of (write_task L c wh semW fe 0 st) = Done r ->
  released_bytes L (trace_of (write_task L c wh semW fe 0 st)) =
  if existsb is_end_attribute (trace_of (write_task L c wh semW fe 0 st))
  then bytesToTransfer c else 0.
Proof.
  intros HT Hg Hok. unfold write_task. intros H.
  apply bind_done in H. destruct H as (st1 & H1 & H & ->).
  apply bind_done in H. destruct H as (st2 & H2 & H & ->).
  rewrite !released_bytes_app, !existsb_app.
  assert (Hm1 : forall m : M Z,
            Forall (fun e => is_release e = false /\ is_end_attribute e = false)
              (trace_of m) ->
            released_bytes L (trace_of m) = 0 /\
            existsb is_end_attribute (trace_of m) = false).
  { intros m Hm. split.
    - apply no_release_released. eapply Forall_impl; [|exact Hm].
      now intros e [? _].
    - apply existsb_false_Forall. eapply Forall_impl; [|exact Hm].
      now intros e [_ ?]. }
  match goal with
  | |- released_bytes L (trace_of ?m1) + (released_bytes L (trace_of ?m2) + _)
       = _ =>
      destruct (Hm1 m1) as [-> ->];
      [destruct (DSP_SUCCEEDED L st);
       [apply Forall_bind; [apply Forall_emit; split; reflexivity|];
        intros _; apply Forall_ret | apply Forall_ret]|];
      destruct (Hm1 m2) as [-> ->];
      [destruct (DSP_SUCCEEDED L st1);
       [apply notify_start_plain | apply Forall_ret]|]
  end.
  cbn [orb Z.add].
  destruct (DSP_SUCCEEDED L st2); [|reflexivity].
  apply bind_done in H. destruct H as (w & Hw & H & ->).
  apply bind_done in H. destruct H as (st3 & H3 & H & ->).
  apply bind_done in H. destruct H as (st4 & H4 & _ & ->).
  rewrite !released_bytes_app, !existsb_app.
  rewrite (proj2 (writer_stream_released L wh semW (bytesToTransfer c)
                    (f_stream fe) HT Hg st2 0 ltac:(lia)) Hok w Hw).
  rewrite (existsb_false_Forall _ _
             (writer_stream_no_end wh semW (bytesToTransfer c) (f_stream fe)
                st2 0)).
  rewrite (set_end_marks wh (f_end_attr fe) st3 H3).
  rewrite (no_release_released L _ (set_end_no_release wh (f_end_attr fe))).
  cbn [orb].
  assert (Hrest : forall m : M Z,
            Forall (fun e => is_release e = false) (trace_of m) ->
            released_bytes L (trace_of m) + released_bytes L (trace_of (ret (st4, 0)))
            = 0).
  { intros m Hm. rewrite (no_release_released L _ Hm). reflexivity. }
  rewrite Hrest; [lia|].
  destruct (DSP_SUCCEEDED L st3); [|apply Forall_ret].
  apply Forall_bind; [apply Forall_emit; reflexivity|]. intros _.
  apply Forall_bind; [apply Forall_when, Forall_emit; reflexivity|].
  intros _. apply Forall_ret.
Qed.

Lemma open_reader_nonnull (name : string) (hs : list Z) (h : Z) :
  outcome_of (open_reader L name hs) = Done h -> h <> NULL.
Proof.
  induction hs as [|x hs IH]; cbn [open_reader]; intros H.
  - discriminate.
  - rewrite outcome_of_bind in H. cbn [emit outcome_of snd] in H.
    destruct (x =? NULL) eqn:Hx.
    + now apply IH.
    + cbn in H. injection H as <-. now apply Z.eqb_neq.
Qed.

Lemma reader_open_nonnull (c : Client) (e : OpenReaderEnv) (st rh semR : Z) :
  outcome_of (reader_open L c e) = Done (st, rh, semR) -> rh <> NULL.
Proof.
  unfold reader_open. intros H.
  apply bind_done in H. destruct H as (h & Hh & H & _).
  apply bind_done in H. destruct H as ([] & _ & H & _).
  apply bind_done in H. destruct H as (st' & _ & H & _).
  cbn in H. injection H as _ <- _. now apply open_reader_nonnull in Hh.
Qed.

Lemma leave_closes_once (c : Client) (wh semW rh semR : Z) (e : CloseEnv)
  (st : Z) (u : unit) :
  rh <> NULL ->
  outcome_of (leave L c wh semW rh semR e st) = Done u ->
  filter is_close (trace_of (leave L c wh semW rh semR e st)) =
  (if wh =? NULL then [] else [RingIO_close wh]) ++ [RingIO_close rh].
Proof.
  intros Hrh. unfold leave. intros H.
  apply bind_done in H. destruct H as (st1 & _ & H & ->).
  apply bind_done in H. destruct H as (st2 & _ & H & ->).
  apply bind_done in H. destruct H as ([] & Hc & H & ->).
  apply bind_done in H. destruct H as (st3 & _ & H & ->).
  apply bind_done in H. destruct H as ([] & _ & _ & ->).
  rewrite !filter_app.
  rewrite (filter_none _ _ (notify_dsp_end_inner L no_close no_close_inner
                              wh (c_dsp_end e) st)).
  rewrite (filter_none _ _ (delete_sem_inner L no_close no_close_inner
                              semW (c_del_writer e) st1)).
  rewrite (filter_none _ _ (delete_sem_inner L no_close no_close_inner
                              semR (c_del_reader e) st2)).
  replace (negb (rh =? NULL)) with true
    by (symmetry; apply negb_true_iff, Z.eqb_neq; exact Hrh).
  cbn [when app emit trace_of fst filter is_close].
  f_equal.
  unfold close_writer in Hc |- *. destruct (wh =? NULL); [reflexivity|].
  cbn [negb] in Hc |- *.
  apply bind_done in Hc. destruct Hc as ([] & _ & _ & ->).
  rewrite filter_app.
  rewrite (filter_none _ _ (drain_inner no_close no_close_inner
                              wh (c_drain e))).
  reflexivity.
Qed.

(** X13.  A worker that returns has closed each ring it holds exactly once:
    the [RingIO_close] calls of its run are the close of the writer handle,
    unless [RingIO_open] gave [NULL] for it, followed by the close of the
    reader handle, which is never [NULL]. *)
Theorem WriterClient_closes_handles (c : Client) (e : ClientEnv) (u : unit) :
  outcome_of (WriterClient L c e) = Done u ->
  exists rh,
    In rh (or_handles (e_open_reader e)) /\ rh <> NULL /\
    filter is_close (trace_of (WriterClient L c e)) =
    (if o_handle (e_open e) =? NULL then []
     else [RingIO_close (o_handle (e_open e))]) ++ [RingIO_close rh].
Proof.
  unfold WriterClient. intros H.
  apply bind_done in H. destruct H as ([[st0 wh] semW] & Hw & H & ->).
  apply bind_done in H. destruct H as ([[st rh] semR] & Hr & H & ->).
  apply bind_done in H. destruct H as (l & Hl & H & ->).
  exists rh. split; [now apply reader_open_handle in Hr|].
  pose proof (reader_open_nonnull _ _ _ _ _ Hr) as Hrh.
  split; [exact Hrh|].
  apply writer_open_handle in Hw. subst wh.
  rewrite !filter_app.
  rewrite (filter_none _ _ (writer_open_inner L no_close no_close_inner
                              c (e_open e))).
  rewrite (filter_none _ _ (reader_open_inner L no_close no_close_inner
                              c (e_open_reader e))).
  rewrite (filter_none is_close _
             (frames_inner L no_close no_close_inner c _ _ _ _ _
                (fun x => eq_refl) _ _)).
  cbn [app]. now apply (leave_closes_once c _ _ _ _ _ _ u).
Qed.

(** X14.  A failed open of the writer ring does not stop a worker.  When
    [RingIO_open] gives [NULL] for the writer, the status [RINGIO_EFAILURE]
    is overwritten by the set-up of the reader side; if that succeeds and the
    outer loop is entered, the first pass calls [RingIO_setAttribute] on the
    [NULL] handle. *)
Theorem WriterClient_uses_null_writer (c : Client) (e : ClientEnv)
  (v : Z) (fe : FrameEnv) (fs : list (Z * FrameEnv)) (st rh semR : Z) :
  DSP_SUCCEEDED L (RINGIO_EFAILURE L) = false ->
  o_handle (e_open e) = NULL ->
  outcome_of (reader_open L c (e_open_reader e)) = Done (st, rh, semR) ->
  DSP_SUCCEEDED L st = true ->
  e_frames e = (v, fe) :: fs ->
  snd (loop_head c v) = false ->
  In (RingIO_setAttribute NULL 0 (Uint16 RINGIO_DATA_START) 0)
    (trace_of (WriterClient L c e)).
Proof.
  intros Hfail Hnull Hr Hst Hfs Hhead.
  assert (Hwo : writer_open L c (e_open e) =
                ([RingIO_open (writerName c) (RINGIO_MODE_WRITE L)
                    (Uint32 (RINGIO_NEED_EXACT_SIZE L))],
                 Done (RINGIO_EFAILURE L, NULL, NULL))).
  { unfold writer_open. rewrite Hnull. cbv zeta. cbn [Z.eqb NULL].
    rewrite Hfail. cbn [bind emit ret fst snd app]. rewrite Hfail.
    reflexivity. }
  unfold WriterClient. rewrite trace_of_bind, Hwo. cbn [outcome_of snd].
  apply in_or_app. right.
  rewrite trace_of_bind, Hr. apply in_or_app. right.
  rewrite trace_of_bind. apply in_or_app. left.
  rewrite Hfs. cbn [frames]. destruct (loop_head c v) as [t lv].
  cbn [snd] in Hhead. subst lv.
  rewrite trace_of_bind. apply in_or_app. right. cbn [outcome_of snd].
  rewrite trace_of_bind. apply in_or_app. left.
  unfold frame. rewrite trace_of_bind. apply in_or_app. left.
  unfold write_task. cbn [status]. rewrite Hst.
  rewrite trace_of_bind. apply in_or_app. left.
  rewrite trace_of_bind. apply in_or_app. left. left. reflexivity.
Qed.

End Pass.

Lemma write_task_commits_frame_witness :
  let L := link_1dsp in
  let ok := 0x8000 in
  let c := client1 (RING_IO_Create_globals L) in
  let fe := {| f_start_attr := ok; f_start_notify := [ok];
               f_stream := [{| sv_status := ok; acq_status := ok;
                               acq_size := 1024; rel_status := ok;
                               cancel_status := ok; wait_status := ok |}];
               f_end_attr := [ok]; f_end_notify := ok; f_wait_start := ok;
               f_fReaderStart := FALSE; f_get_start := []; f_read := [];
               f_fReaderEnd := TRUE; f_wait_end := ok |} in
  0 < bytesToTransfer c < 2 ^ 31 /\
  Forall (fun e => Uint32 (acq_size e) <= bytesToTransfer c) (f_stream fe) /\
  Forall (fun e => DSP_SUCCEEDED L (rel_status e) = true) (f_stream fe) /\
  outcome_of (write_task L c 7 9 fe 0 ok) = Done (ok, 0) /\
  released_bytes L (trace_of (write_task L c 7 9 fe 0 ok)) =
  if existsb is_end_attribute (trace_of (write_task L c 7 9 fe 0 ok))
  then bytesToTransfer c else 0.
Proof.
  intros L ok c fe.
  assert (HT : 0 < bytesToTransfer c < 2 ^ 31) by (split; reflexivity).
  assert (Hg : Forall (fun e => Uint32 (acq_size e) <= bytesToTransfer c)
                 (f_stream fe)).
  { repeat constructor. vm_compute. discriminate. }
  assert (Hok : Forall (fun e => DSP_SUCCEEDED L (rel_status e) = true)
                  (f_stream fe)).
  { repeat constructor. }
  split; [exact HT|]. split; [exact Hg|]. split; [exact Hok|].
  split; [reflexivity|].
  apply (write_task_commits_frame L c 7 9 fe ok (ok, 0) HT Hg Hok).
  reflexivity.
Defined.

Lemma WriterClient_closes_handles_witness :
  let L := link_1dsp in
  let ok := 0x8000 in
  let fe := {| f_start_attr := ok; f_start_notify := []; f_stream := [];
               f_end_attr := []; f_end_notify := ok; f_wait_start := ok;
               f_fReaderStart := FALSE; f_get_start := []; f_read := [];
               f_fReaderEnd := TRUE; f_wait_end := ok |} in
  let e := {| e_open := {| o_handle := 7; o_sem_status := ok; o_sem := 9;
                           o_notifier := [ok] |};
              e_open_reader := {| or_handles := [0; 8]; or_sem_status := ok;
                                  or_sem := 10; or_notifier := [ok] |};
              e_frames := [(46, fe)];
              e_close := {| c_dsp_end := [ok]; c_del_writer := ok;
                            c_drain := [(0, 0)]; c_del_reader := ok |} |} in
  let c := client1 (RING_IO_Create_globals L) in
  outcome_of (WriterClient L c e) = Done tt /\
  exists rh,
    In rh (or_handles (e_open_reader e)) /\ rh <> NULL /\
    filter is_close (trace_of (WriterClient L c e)) =
    (if o_handle (e_open e) =? NULL then []
     else [RingIO_close (o_handle (e_open e))]) ++ [RingIO_close rh].
Proof.
  intros L ok fe e c. split; [reflexivity|].
  apply (WriterClient_closes_handles L c e tt). reflexivity.
Defined.

Lemma WriterClient_uses_null_writer_witness :
  let L := link_1dsp in
  let ok := 0x8000 in
  let fe := {| f_start_attr := ok; f_start_notify := []; f_stream := [];
               f_end_attr := []; f_end_notify := ok; f_wait_start := ok;
               f_fReaderStart := FALSE; f_get_start := []; f_read := [];
               f_fReaderEnd := TRUE; f_wait_end := ok |} in
  let e := {| e_open := {| o_handle := 0; o_sem_status := ok; o_sem := 9;
                           o_notifier := [ok] |};
              e_open_reader := {| or_handles := [8]; or_sem_status := ok;
                                  or_sem := 10; or_notifier := [ok] |};
              e_frames := [(97, fe)];
              e_close := {| c_dsp_end := [ok]; c_del_writer := ok;
                            c_drain := [(0, 0)]; c_del_reader := ok |} |} in
  let c := client1 (RING_IO_Create_globals L) in
  DSP_SUCCEEDED L (RINGIO_EFAILURE L) = false /\
  o_handle (e_open e) = NULL /\
  outcome_of (reader_open L c (e_open_reader e)) = Done (ok, 8, 10) /\
  DSP_SUCCEEDED L ok = true /\
  e_frames e = (97, fe) :: [] /\
  snd (loop_head c 97) = false /\
  In (RingIO_setAttribute NULL 0 (Uint16 RINGIO_DATA_START) 0)
    (trace_of (WriterClient L c e)).
Proof.
  intros L ok fe e c.
  split; [reflexivity|]. split; [reflexivity|]. split; [reflexivity|].
  split; [reflexivity|]. split; [reflexivity|]. split; [reflexivity|].
  apply (WriterClient_uses_null_writer L c e 97 fe [] ok 8 10); reflexivity.
Defined.

(** X15.  A worker leaves its outer loop only at the head of a pass.  When
    the loop of passes is left, the last calls of the loop are those of its
    head: for the first worker [getchar] and the write of [FALSE] to
    [Task_Run], for the second worker the sleep and the read of [Task_Run]
    that gave [FALSE].  No failure inside a pass ends the loop. *)
Theorem outer_loop_exit (L : DspLink) (c : Client) (wh semW rh semR : Z)
  (fs : list (Z * FrameEnv)) (bt : Z) (s : ReaderState)
  (r : Z * ReaderState) :
  outcome_of (frames L c wh semW rh semR fs bt s) = Done r ->
  ends_with
    (match loopHead c with
     | StdinDot => [getchar; Write_Task_Run FALSE]
     | SleepTaskRun => [RING_IO_Sleep 5000000; Read_Task_Run FALSE]
     end)
    (trace_of (frames L c wh semW rh semR fs bt s)).
Proof.
  revert bt s. induction fs as [|[v fe] fs IH]; intros bt s; cbn [frames].
  - discriminate.
  - destruct (loop_head c v) as [t lv] eqn:Hh. destruct lv.
    + intros _. exists []. cbn [app trace_of fst].
      unfold loop_head in Hh. destruct (loopHead c).
      * destruct (v =? 46); now inversion Hh.
      * inversion Hh as [[Ht Hv]]. apply Z.eqb_eq in Hv. now subst v.
    + intros H. apply bind_done in H. destruct H as ([] & _ & H & ->).
      apply bind_done in H. destruct H as (r1 & _ & H & ->).
      apply ends_with_app, ends_with_app. now apply IH.
Qed.

Lemma outer_loop_exit_witness :
  let L := link_1dsp in
  let ok := 0x8000 in
  let c := client1 (RING_IO_Create_globals L) in
  let fe := {| f_start_attr := ok; f_start_notify := [ok]; f_stream := [];
               f_end_attr := []; f_end_notify := ok; f_wait_start := ok;
               f_fReaderStart := FALSE; f_get_start := []; f_read := [];
               f_fReaderEnd := TRUE; f_wait_end := ok |} in
  let s := {| status := 0x80008008; acqSize := 0; rcvSize := 4096;
              totalRcvbytes := 0; exitFlag := FALSE |} in
  let m := frames L c 7 9 8 10 [(97, fe); (46, fe)] 0 s in
  (exists r, outcome_of m = Done r) /\
  ends_with
    (match loopHead c with
     | StdinDot => [getchar; Write_Task_Run FALSE]
     | SleepTaskRun => [RING_IO_Sleep 5000000; Read_Task_Run FALSE]
     end)
    (trace_of m).
Proof.
  intros L ok c fe s m. split; [eexists; reflexivity|].
  refine (outer_loop_exit L c 7 9 8 10 [(97, fe); (46, fe)] 0 s _ _).
  reflexivity.
Defined.

(** ** RING_IO_Create, RING_IO_Delete and RING_IO_Main on their error paths *)

Lemma bind_run {A B : Type} (m : M A) (k : A -> M B) (a : A) :
  outcome_of m = Done a ->
  bind m k = (trace_of m ++ trace_of (k a), outcome_of (k a)).
Proof.
  destruct m as [t o]. cbn. intros ->. destruct (k a). reflexivity.
Qed.

Section Session.

Context (L : DspLink).

Ltac run_create :=
  repeat (progress cbn [bind emit ret app fst snd]
          || match goal with
             | H : DSP_SUCCEEDED L ?s = _ |- context [DSP_SUCCEEDED L ?s] =>
                 rewrite H
             end).

(** X16.  [RING_IO_Create] stops at the first call that fails.  Its calls are
    an initial part of the fixed sequence [Create_calls]: [RING_IO_OS_init]
    and [PROC_setup] are always made (the status of [RING_IO_OS_init] is not
    looked at), and then either all eight calls are made and the status of
    [PROC_start] is returned, or a call is left out and the status returned
    is a failure. *)
Theorem Create_fail_fast (exe : string) (p : Z) (e : CreateEnv) :
  exists n st,
    (2 <= n <= 8)%nat /\
    RING_IO_Create L exe p e = (firstn n (Create_calls L exe p), Done st) /\
    ((n = 8%nat /\ st = cr_start e) \/
     ((n < 8)%nat /\ DSP_SUCCEEDED L st = false)).
Proof.
  unfold RING_IO_Create, Create_calls. cbv zeta.
  destruct (DSP_SUCCEEDED L (cr_setup e)) eqn:H1.
  2:{ exists 2%nat, (cr_setup e). split; [lia|].
      split; [run_create; reflexivity | right; split; [lia | exact H1]]. }
  destruct (DSP_SUCCEEDED L (cr_attach e)) eqn:H2.
  2:{ exists 3%nat, (cr_attach e). split; [lia|].
      split; [run_create; reflexivity | right; split; [lia | exact H2]]. }
  destruct (DSP_SUCCEEDED L (cr_pool_open e)) eqn:H3.
  2:{ exists 4%nat, (cr_pool_open e). split; [lia|].
      split; [run_create; reflexivity | right; split; [lia | exact H3]]. }
  destruct (DSP_SUCCEEDED L (cr_load e)) eqn:H4.
  2:{ exists 5%nat, (cr_load e). split; [lia|].
      split; [run_create; reflexivity | right; split; [lia | exact H4]]. }
  destruct (DSP_SUCCEEDED L (cr_create1 e)) eqn:H5.
  2:{ exists 6%nat, (cr_create1 e). split; [lia|].
      split; [run_create; reflexivity | right; split; [lia | exact H5]]. }
  destruct (DSP_SUCCEEDED L (cr_create2 e)) eqn:H6.
  2:{ exists 7%nat, (cr_create2 e). split; [lia|].
      split; [run_create; reflexivity | right; split; [lia | exact H6]]. }
  exists 8%nat, (cr_start e). split; [lia|].
  split; [run_create; reflexivity | left; split; reflexivity].
Qed.

Lemma delete_ring_spec (p : Z) (name : string) (rs : list Z) :
  is_done (outcome_of (delete_ring L p name rs))
  = existsb (DSP_SUCCEEDED L) rs /\
  filter is_teardown (trace_of (delete_ring L p name rs)) = [].
Proof.
  induction rs as [|st rs [IH1 IH2]]; cbn [delete_ring existsb];
    [split; reflexivity|].
  rewrite outcome_of_bind, trace_of_bind. cbn [emit outcome_of trace_of fst snd].
  unfold DSP_FAILED. destruct (DSP_SUCCEEDED L st); cbn [negb orb app filter
    is_teardown].
  - split; reflexivity.
  - unfold outcome_of, trace_of in *. cbn [bind emit fst snd].
    destruct (delete_ring L p name rs) as [t o]. cbn [fst snd] in *.
    split; assumption.
Qed.

(** X17.  [RING_IO_Delete] does not give up on a ring: it returns exactly
    when [RingIO_delete] has succeeded for both rings, retrying each until
    then, and none of the calls that shut the session down ([PROC_stop],
    [POOL_close], [PROC_detach], [PROC_destroy], [RING_IO_OS_exit]) is made
    before that; once both rings are deleted each of them is made once, in
    this order. *)
Theorem Delete_waits_for_both_rings (p : Z) (e : DeleteEnv) :
  is_done (outcome_of (RING_IO_Delete L p e))
  = existsb (DSP_SUCCEEDED L) (d_delete1 e)
    && existsb (DSP_SUCCEEDED L) (d_delete2 e) /\
  filter is_teardown (trace_of (RING_IO_Delete L p e))
  = if is_done (outcome_of (RING_IO_Delete L p e)) then teardown p else [].
Proof.
  unfold RING_IO_Delete.
  destruct (delete_ring_spec p "RINGIO1" (d_delete1 e)) as [Hd1 Ht1].
  destruct (delete_ring_spec p "RINGIO3" (d_delete2 e)) as [Hd2 Ht2].
  rewrite <- Hd1, <- Hd2.
  rewrite outcome_of_bind, trace_of_bind, filter_app, Ht1.
  destruct (outcome_of (delete_ring L p "RINGIO1" (d_delete1 e))) as [[]|];
    [|split; reflexivity].
  rewrite outcome_of_bind, trace_of_bind, filter_app, Ht2.
  destruct (outcome_of (delete_ring L p "RINGIO3" (d_delete2 e))) as [[]|];
    split; reflexivity.
Qed.

Lemma Main_unfold (exe a b s : string) (e : MainEnv) :
  0 < MAX_DSPS L ->
  RING_IO_Main L (Some exe) a b s e =
  (emit (RING_IO_Print banner None) ;;;
   (st <- RING_IO_Create L exe 0 (m_create e) ;;
    st <- (if DSP_SUCCEEDED L st then
             emit (RING_IO_Create_client 1 0) ;;;
             if DSP_SUCCEEDED L (m_client1 e) then
               emit (RING_IO_Create_client 2 0) ;;; ret (m_client2 e)
             else ret (m_client1 e)
           else ret st) ;;
    when (DSP_SUCCEEDED L st)
      (join 1 (m_join1 e) ;;; join 2 (m_join2 e)) ;;;
    RING_IO_Delete L 0 (m_delete e)) ;;;
   emit (RING_IO_Print footer None)).
Proof.
  intros HD. unfold RING_IO_Main. cbv zeta. change (Uint8 0) with 0.
  replace (MAX_DSPS L <=? 0) with false by (symmetry; apply Z.leb_gt; exact HD).
  rewrite bind_ret_l, Z.eqb_refl. reflexivity.
Qed.

Lemma then_footer (m : M unit) :
  trace_of (emit (RING_IO_Print banner None) ;;;
            m ;;; emit (RING_IO_Print footer None)) =
  RING_IO_Print banner None
    :: trace_of m
    ++ (if is_done (outcome_of m) then [RING_IO_Print footer None] else []).
Proof.
  rewrite trace_of_bind. cbn [emit trace_of outcome_of fst snd app].
  f_equal. fold (trace_of (m ;;; emit (RING_IO_Print footer None))).
  rewrite trace_of_bind. destruct (outcome_of m); reflexivity.
Qed.

(** X18.  A failed [RING_IO_Create] does not keep [RING_IO_Main] from tearing
    down.  When [RING_IO_Create] returns a failure, no worker is created and
    none is joined, and [RING_IO_Delete] is run all the same, with its
    retries of [RingIO_delete]: the calls of [RING_IO_Main] are the banner,
    those of [RING_IO_Create], those of [RING_IO_Delete], and the closing
    line once [RING_IO_Delete] has returned. *)
Theorem Main_deletes_after_failed_create (exe a b s : string) (e : MainEnv)
  (st : Z) :
  0 < MAX_DSPS L ->
  outcome_of (RING_IO_Create L exe 0 (m_create e)) = Done st ->
  DSP_SUCCEEDED L st = false ->
  trace_of (RING_IO_Main L (Some exe) a b s e) =
  RING_IO_Print banner None
    :: trace_of (RING_IO_Create L exe 0 (m_create e))
    ++ trace_of (RING_IO_Delete L 0 (m_delete e))
    ++ (if is_done (outcome_of (RING_IO_Delete L 0 (m_delete e)))
        then [RING_IO_Print footer None] else []).
Proof.
  intros HD Hc Hst. rewrite (Main_unfold exe a b s e HD), then_footer.
  rewrite (bind_run _ _ st Hc), Hst, bind_ret_l, Hst.
  cbn [when]. rewrite bind_ret_l.
  cbn [trace_of outcome_of fst snd]. now rewrite <- app_assoc.
Qed.

(** X19.  The workers are joined only when both were created.  When
    [RING_IO_Create] and the creation of the first worker succeed and the
    creation of the second worker fails, [RING_IO_Main] joins neither: it
    goes on to [RING_IO_Delete] right after the second
    [RING_IO_Create_client], while the first worker has been started. *)
Theorem Main_skips_join_without_second_worker (exe a b s : string)
  (e : MainEnv) (st : Z) :
  0 < MAX_DSPS L ->
  outcome_of (RING_IO_Create L exe 0 (m_create e)) = Done st ->
  DSP_SUCCEEDED L st = true ->
  DSP_SUCCEEDED L (m_client1 e) = true ->
  DSP_SUCCEEDED L (m_client2 e) = false ->
  trace_of (RING_IO_Main L (Some exe) a b s e) =
  RING_IO_Print banner None
    :: trace_of (RING_IO_Create L exe 0 (m_create e))
    ++ [RING_IO_Create_client 1 0; RING_IO_Create_client 2 0]
    ++ trace_of (RING_IO_Delete L 0 (m_delete e))
    ++ (if is_done (outcome_of (RING_IO_Delete L 0 (m_delete e)))
        then [RING_IO_Print footer None] else []).
Proof.
  intros HD Hc Hst H1 H2. rewrite (Main_unfold exe a b s e HD), then_footer.
  rewrite (bind_run _ _ st Hc), Hst, H1.
  rewrite (bind_run _ _ (m_client2 e)); [|reflexivity].
  rewrite H2. cbn [when]. rewrite bind_ret_l.
  cbn [trace_of outcome_of fst snd bind emit ret app].
  now rewrite <- !app_assoc.
Qed.

End Session.

Lemma Main_deletes_after_failed_create_witness :
  let L := link_1dsp in
  let ok := 0x8000 in
  let bad := 0x80008008 in
  let e := {| m_create := {| cr_os_init := ok; cr_setup := bad;
                             cr_attach := ok; cr_pool_open := ok;
                             cr_load := ok; cr_create1 := ok;
                             cr_create2 := ok; cr_start := ok |};
              m_client1 := ok; m_client2 := ok;
              m_join1 := true; m_join2 := true;
              m_delete := {| d_delete1 := [bad; ok]; d_delete2 := [ok] |} |} in
  0 < MAX_DSPS L /\
  outcome_of (RING_IO_Create L "ringio.out" 0 (m_create e)) = Done bad /\
  DSP_SUCCEEDED L bad = false /\
  trace_of (RING_IO_Main L (Some "ringio.out"%string) "2048" "128" "0" e) =
  RING_IO_Print banner None
    :: trace_of (RING_IO_Create L "ringio.out" 0 (m_create e))
    ++ trace_of (RING_IO_Delete L 0 (m_delete e))
    ++ (if is_done (outcome_of (RING_IO_Delete L 0 (m_delete e)))
        then [RING_IO_Print footer None] else []).
Proof.
  intros L ok bad e.
  split; [reflexivity|]. split; [reflexivity|]. split; [reflexivity|].
  apply (Main_deletes_after_failed_create L "ringio.out" "2048" "128" "0" e
           bad); reflexivity.
Defined.

Lemma Main_skips_join_without_second_worker_witness :
  let L := link_1dsp in
  let ok := 0x8000 in
  let bad := 0x80008008 in
  let e := {| m_create := {| cr_os_init := ok; cr_setup := ok;
                             cr_attach := ok; cr_pool_open := ok;
                             cr_load := ok; cr_create1 := ok;
                             cr_create2 := ok; cr_start := ok |};
              m_client1 := ok; m_client2 := bad;
              m_join1 := true; m_join2 := true;
              m_delete := {| d_delete1 := [ok]; d_delete2 := [ok] |} |} in
  0 < MAX_DSPS L /\
  outcome_of (RING_IO_Create L "ringio.out" 0 (m_create e)) = Done ok /\
  DSP_SUCCEEDED L ok = true /\
  DSP_SUCCEEDED L (m_client1 e) = true /\
  DSP_SUCCEEDED L (m_client2 e) = false /\
  trace_of (RING_IO_Main L (Some "ringio.out"%string) "2048" "128" "0" e) =
  RING_IO_Print banner None
    :: trace_of (RING_IO_Create L "ringio.out" 0 (m_create e))
    ++ [RING_IO_Create_client 1 0; RING_IO_Create_client 2 0]
    ++ trace_of (RING_IO_Delete L 0 (m_delete e))
    ++ (if is_done (outcome_of (RING_IO_Delete L 0 (m_delete e)))
        then [RING_IO_Print footer None] else []).
Proof.
  intros L ok bad e.
  split; [reflexivity|]. split; [reflexivity|]. split; [reflexivity|].
  split; [reflexivity|]. split; [reflexivity|].
  apply (Main_skips_join_without_second_worker L "ringio.out" "2048" "128" "0"
           e ok); reflexivity.
Defined.

(** ** The notification callbacks *)

Lemma Reader_Notify_flags (f : Flags) (param msg : Z) :
  fst (Reader_Notify1 f param msg) = fst (Reader_Notify2 f param msg).
Proof.
  unfold Reader_Notify1, Reader_Notify2.
  destruct (msg =? NOTIFY_DATA_START); [reflexivity|].
  destruct (msg =? NOTIFY_DATA_END); reflexivity.
Qed.

(** X20.  The two reader callbacks set the flags alike but do not post
    alike.  For every sequence of notifications delivered to them,
    [RING_IO_Reader_Notify1] posts its semaphore once per notification,
    whatever the message, while [RING_IO_Reader_Notify2] posts only for
    [NOTIFY_DATA_START] and [NOTIFY_DATA_END]; the flags they leave are the
    same. *)
Theorem Reader_Notify_posts (param : Z) (msgs : list Z) (f : Flags) :
  snd (deliver Reader_Notify1 f param msgs) = repeat param (length msgs) /\
  snd (deliver Reader_Notify2 f param msgs)
  = repeat param (length (filter wakes msgs)) /\
  fst (deliver Reader_Notify1 f param msgs)
  = fst (deliver Reader_Notify2 f param msgs).
Proof.
  revert f. induction msgs as [|msg msgs IH]; intros f.
  - repeat split.
  - cbn [deliver filter length repeat].
    pose proof (Reader_Notify_flags f param msg) as Hf.
    assert (H1 : snd (Reader_Notify1 f param msg) = [param]) by reflexivity.
    assert (H2 : snd (Reader_Notify2 f param msg)
                 = if wakes msg then [param] else []).
    { unfold Reader_Notify2, wakes.
      destruct (msg =? NOTIFY_DATA_START); [reflexivity|].
      destruct (msg =? NOTIFY_DATA_END); reflexivity. }
    destruct (Reader_Notify1 f param msg) as [f1 p1].
    destruct (Reader_Notify2 f param msg) as [f2 p2].
    cbn [fst snd] in Hf, H1, H2. subst f2 p1 p2.
    destruct (IH f1) as (I1 & I2 & I3).
    destruct (deliver Reader_Notify1 f1 param msgs) as [g1 q1].
    destruct (deliver Reader_Notify2 f1 param msgs) as [g2 q2].
    cbn [fst snd] in *. subst.
    destruct (wakes msg); repeat split.
Qed.

Lemma deliver_flags_agree (param : Z) (msgs : list Z) (f : Flags) :
  fst (deliver Reader_Notify2 f param msgs)
  = fst (deliver Reader_Notify1 f param msgs).
Proof.
  revert f. induction msgs as [|msg msgs IH]; intros f; [reflexivity|].
  cbn [deliver].
  pose proof (Reader_Notify_flags f param msg) as Hf.
  destruct (Reader_Notify1 f param msg) as [f1 p1].
  destruct (Reader_Notify2 f param msg) as [f2 p2].
  cbn [fst] in Hf. subst f2. specialize (IH f1).
  destruct (deliver Reader_Notify1 f1 param msgs) as [g1 q1].
  destruct (deliver Reader_Notify2 f1 param msgs) as [g2 q2].
  exact IH.
Qed.

Lemma deliver_Notify1_flags (param : Z) (msgs : list Z) (f : Flags) :
  fst (deliver Reader_Notify1 f param msgs) =
  {| fReaderStart :=
       if existsb (fun m => m =? NOTIFY_DATA_START) msgs then TRUE
       else fReaderStart f;
     fReaderEnd :=
       if existsb (fun m => m =? NOTIFY_DATA_END) msgs then TRUE
       else fReaderEnd f |}.
Proof.
  revert f. induction msgs as [|msg msgs IH]; intros f.
  - destruct f. reflexivity.
  - cbn [deliver existsb]. unfold Reader_Notify1 at 1.
    specialize (IH (if msg =? NOTIFY_DATA_START
                    then {| fReaderStart := TRUE; fReaderEnd := fReaderEnd f |}
                    else if msg =? NOTIFY_DATA_END
                         then {| fReaderStart := fReaderStart f;
                                 fReaderEnd := TRUE |}
                         else f)).
    destruct (deliver Reader_Notify1 _ param msgs) as [g q].
    cbn [fst] in *. subst g.
    destruct (msg =? NOTIFY_DATA_START) eqn:Hs.
    + apply Z.eqb_eq in Hs. subst msg. cbn [orb fReaderStart fReaderEnd].
      change (NOTIFY_DATA_START =? NOTIFY_DATA_END) with false.
      destruct (existsb (fun m => m =? NOTIFY_DATA_START) msgs); reflexivity.
    + destruct (msg =? NOTIFY_DATA_END); cbn [orb fReaderStart fReaderEnd];
        [|reflexivity].
      destruct (existsb (fun m => m =? NOTIFY_DATA_END) msgs); reflexivity.
Qed.

(** X21.  Both reader callbacks only ever set the flags.  After any sequence
    of notifications delivered to [RING_IO_Reader_Notify1], and likewise to
    [RING_IO_Reader_Notify2], [fReaderStart] is [TRUE] if a
    [NOTIFY_DATA_START] was among them and is what it was otherwise, and
    [fReaderEnd] is [TRUE] if a [NOTIFY_DATA_END] was among them and is what
    it was otherwise: notifications that come in a row are not counted, and
    no message clears a flag. *)
Theorem Reader_Notify_sets_flags (param : Z) (msgs : list Z) (f : Flags) :
  fst (deliver Reader_Notify1 f param msgs) =
  {| fReaderStart :=
       if existsb (fun m => m =? NOTIFY_DATA_START) msgs then TRUE
       else fReaderStart f;
     fReaderEnd :=
       if existsb (fun m => m =? NOTIFY_DATA_END) msgs then TRUE
       else fReaderEnd f |} /\
  fst (deliver Reader_Notify2 f param msgs) =
  {| fReaderStart :=
       if existsb (fun m => m =? NOTIFY_DATA_START) msgs then TRUE
       else fReaderStart f;
     fReaderEnd :=
       if existsb (fun m => m =? NOTIFY_DATA_END) msgs then TRUE
       else fReaderEnd f |}.
Proof.
  split.
  - apply deliver_Notify1_flags.
  - rewrite deliver_flags_agree. apply deliver_Notify1_flags.
Qed.

(** ** The reader workers RING_IO_ReaderClient1 and RING_IO_ReaderClient2 *)

Lemma read_calls_filter (t : Trace) :
  Forall read_call t ->
  filter is_close t = [] /\ filter is_DeleteSem t = [].
Proof.
  induction 1 as [|e t He _ [IH1 IH2]]; [split; reflexivity|].
  unfold read_call in He.
  destruct e; try discriminate; cbn [filter is_close is_DeleteSem];
    split; assumption.
Qed.

Section ReaderWorker.

Context (L : DspLink).

Lemma open_reader_calls (name : string) (hs : list Z) :
  Forall read_call (trace_of (open_reader L name hs)).
Proof.
  induction hs as [|x hs IH]; cbn [open_reader]; [constructor|].
  apply Forall_bind; [apply Forall_emit; exact eq_refl|]. intros _.
  destruct (x =? NULL); [exact IH | apply Forall_ret].
Qed.

Lemma setNotifier_reader_calls (h : Z) (fn : Callback) (sem : Z)
  (rs : list Z) :
  Forall read_call (trace_of (setNotifier_reader L h fn sem rs)).
Proof.
  induction rs as [|st rs IH]; cbn [setNotifier_reader]; [constructor|].
  apply Forall_bind; [apply Forall_emit; exact eq_refl|]. intros _.
  destruct (DSP_FAILED L st); [|apply Forall_ret].
  apply Forall_bind; [apply Forall_emit; exact eq_refl|]. intros _. exact IH.
Qed.

Lemma get_start_calls (rh : Z) (rs : list (Z * Z)) :
  Forall read_call (trace_of (get_start L rh rs)).
Proof.
  induction rs as [|[st ty] rs IH]; cbn [get_start]; [constructor|].
  apply Forall_bind; [apply Forall_emit; exact eq_refl|]. intros _.
  destruct ((st =? RINGIO_SUCCESS L) || (st =? RINGIO_SPENDINGATTRIBUTE L)).
  - destruct (Uint16 ty =? Uint16 RINGIO_DATA_START); [apply Forall_ret|].
    apply Forall_bind; [apply Forall_emit; exact eq_refl|]. intros _.
    apply Forall_ret.
  - apply Forall_bind; [apply Forall_emit; exact eq_refl|]. intros _. exact IH.
Qed.

Lemma reader_iter_calls (h sem bufsize : Z) (msg : string) (e : ReadEnv)
  (s : ReaderState) :
  Forall read_call (fst (reader_iter L h sem bufsize msg e s)).
Proof.
  unfold reader_iter. cbv zeta. unfold RING_IO_Reader_VerifyData.
  assert (Hv : Forall read_call
                 (VerifyData_loop L 21 (DSP_SOK L) 0 (hd 0 (r_acq_buf e)))).
  { eapply Forall_impl; [|apply VerifyData_loop_prints].
    intros ev (fmt & arg & ->). exact eq_refl. }
  set (tv := VerifyData_loop L 21 (DSP_SOK L) 0 (hd 0 (r_acq_buf e))) in *.
  repeat match goal with
         | |- context [if ?b then _ else _] => destruct b
         end;
    cbn [fst]; repeat (apply Forall_app; split);
    try exact Hv; repeat (constructor; try exact eq_refl).
Qed.

Lemma reader_loop_calls (h sem bufsize : Z) (msg : string)
  (envs : list ReadEnv) :
  forall s, Forall read_call (trace_of (reader_loop L h sem bufsize msg envs s)).
Proof.
  induction envs as [|e envs IH]; intros s.
  - cbn [reader_loop]. destruct (exitFlag s =? FALSE); constructor.
  - rewrite reader_loop_unfold. destruct (exitFlag s =? FALSE); [|constructor].
    cbv zeta. cbn [trace_of fst]. apply Forall_app. split; [|apply IH].
    apply reader_iter_calls.
Qed.

(** X22.  A reader worker that returns has closed its ring exactly once: the
    handle is never [NULL], since [RingIO_open] is repeated until it is not.
    Its semaphore is deleted exactly when [fReaderEnd] is [TRUE] at the
    second test, after the last wait, and the semaphore pointer is not
    [NULL]; when the flag is not [TRUE] there, the worker returns without
    [RING_IO_DeleteSem]. *)
Theorem ReaderClient_releases (c : ReaderCfg) (e : ReaderEnv) (u : unit) :
  outcome_of (ReaderClient L c e) = Done u ->
  exists h,
    In h (re_handles e) /\ h <> NULL /\
    filter is_close (trace_of (ReaderClient L c e)) = [RingIO_close h] /\
    filter is_DeleteSem (trace_of (ReaderClient L c e)) =
    if (re_fReaderEnd_after e =? TRUE) && negb (re_sem e =? NULL)
    then [RING_IO_DeleteSem (re_sem e)] else [].
Proof.
  unfold ReaderClient. cbv zeta. intros H.
  apply bind_done in H. destruct H as (h & Hh & H & ->).
  apply bind_done in H. destruct H as ([] & _ & H & ->).
  apply bind_done in H. destruct H as (st & _ & H & ->).
  apply bind_done in H. destruct H as (st1 & _ & H & ->).
  apply bind_done in H. destruct H as (st2 & _ & H & ->).
  apply bind_done in H. destruct H as (st3 & _ & H & ->).
  apply bind_done in H. destruct H as ([] & _ & _ & ->).
  exists h. split; [now apply open_reader_handle in Hh|].
  pose proof (open_reader_nonnull L _ _ _ Hh) as Hnn.
  split; [exact Hnn|].
  rewrite !filter_app.
  destruct (read_calls_filter _ (open_reader_calls (rd_name c) (re_handles e)))
    as [-> ->].
  match goal with
  | |- context [filter is_close (trace_of (emit RING_IO_CreateSem))
                ++ filter is_close (trace_of ?m)
                ++ filter is_close (trace_of ?m1)
                ++ filter is_close (trace_of ?m2) ++ _] =>
      assert (Hn : Forall read_call (trace_of m));
      [|assert (Hr : Forall read_call (trace_of m1));
        [|assert (Hw : Forall read_call (trace_of m2))]]
  end.
  - destruct (DSP_SUCCEEDED L (re_sem_status e));
      [apply setNotifier_reader_calls | apply Forall_ret].
  - destruct (DSP_SUCCEEDED L st); [|apply Forall_ret].
    apply Forall_bind; [apply Forall_emit; exact eq_refl|]. intros _.
    apply Forall_bind.
    { destruct (re_fReaderStart e =? TRUE);
        [apply get_start_calls | apply Forall_ret]. }
    intros st'. apply Forall_bind; [apply reader_loop_calls|].
    intros s. apply Forall_ret.
  - destruct (negb (re_fReaderEnd_before e =? TRUE)); [|apply Forall_ret].
    apply Forall_bind; [apply Forall_emit; exact eq_refl|]. intros _.
    apply Forall_ret.
  - destruct (read_calls_filter _ Hn) as [-> ->].
    destruct (read_calls_filter _ Hr) as [-> ->].
    destruct (read_calls_filter _ Hw) as [-> ->].
    replace (negb (h =? NULL)) with true
      by (symmetry; apply negb_true_iff, Z.eqb_neq; exact Hnn).
    unfold delete_sem.
    destruct (re_fReaderEnd_after e =? TRUE);
      destruct (re_sem e =? NULL); split; reflexivity.
Qed.

(** X23.  When [RING_IO_CreateSem] fails, a reader worker registers no
    notifier and reads nothing, and still goes through its end: after the
    opening of the ring and [RING_IO_CreateSem] it waits on the semaphore
    (the one that was not created) unless [fReaderEnd] is [TRUE], deletes the
    semaphore under the condition of X22, closes the ring and exits. *)
Theorem ReaderClient_without_semaphore (c : ReaderCfg) (e : ReaderEnv)
  (h : Z) :
  DSP_SUCCEEDED L (re_sem_status e) = false ->
  outcome_of (open_reader L (rd_name c) (re_handles e)) = Done h ->
  ReaderClient L c e =
  (trace_of (open_reader L (rd_name c) (re_handles e))
     ++ [RING_IO_CreateSem]
     ++ (if re_fReaderEnd_before e =? TRUE then []
         else [RING_IO_WaitSem (re_sem e)])
     ++ (if (re_fReaderEnd_after e =? TRUE) && negb (re_sem e =? NULL)
         then [RING_IO_DeleteSem (re_sem e)] else [])
     ++ [RingIO_close h; RING_IO_Exit_client (rd_info c)],
   Done tt).
Proof.
  intros Hfail Hh. unfold ReaderClient. cbv zeta.
  pose proof (open_reader_nonnull L _ _ _ Hh) as Hnn.
  rewrite (bind_run _ _ h Hh). rewrite Hfail.
  replace (negb (h =? NULL)) with true
    by (symmetry; apply negb_true_iff, Z.eqb_neq; exact Hnn).
  unfold delete_sem.
  cbn [bind emit ret app fst snd trace_of outcome_of]. rewrite Hfail.
  cbn [bind emit ret app fst snd trace_of outcome_of].
  destruct (re_fReaderEnd_before e =? TRUE);
    destruct (re_fReaderEnd_after e =? TRUE);
    destruct (re_sem e =? NULL); reflexivity.
Qed.

End ReaderWorker.

Lemma ReaderClient_releases_witness :
  let L := link_1dsp in
  let ok := 0x8000 in
  let e := {| re_handles := [0; 8]; re_sem_status := ok; re_sem := 10;
              re_notifier := [0x80008008; ok]; re_wait_start := ok;
              re_fReaderStart := TRUE; re_get_start := [(ok, 1)];
              re_read := [{| r_acq_status := ok; r_acq_size := 4096;
                             r_acq_buf := [5]; r_rel_status := ok;
                             r_attr_status := ok; r_attr_type := 0;
                             r_vattr_status := ok; r_vattr_value := 0;
                             r_wait_status := ok |};
                          {| r_acq_status := 0x8104; r_acq_size := 0;
                             r_acq_buf := []; r_rel_status := ok;
                             r_attr_status := ok; r_attr_type := 3;
                             r_vattr_status := ok; r_vattr_value := 0;
                             r_wait_status := ok |}];
              re_fReaderEnd_before := FALSE; re_wait_end := ok;
              re_fReaderEnd_after := FALSE; re_del := ok |} in
  let m := RING_IO_ReaderClient1 L (RING_IO_Create_globals L) e in
  outcome_of m = Done tt /\
  exists h,
    In h (re_handles e) /\ h <> NULL /\
    filter is_close (trace_of m) = [RingIO_close h] /\
    filter is_DeleteSem (trace_of m) =
    if (re_fReaderEnd_after e =? TRUE) && negb (re_sem e =? NULL)
    then [RING_IO_DeleteSem (re_sem e)] else [].
Proof.
  intros L ok e m. split; [reflexivity|].
  apply (ReaderClient_releases L (reader1 (RING_IO_Create_globals L)) e tt).
  reflexivity.
Defined.

Lemma ReaderClient_without_semaphore_witness :
  let L := link_1dsp in
  let ok := 0x8000 in
  let e := {| re_handles := [8]; re_sem_status := 0x80008008; re_sem := 0;
              re_notifier := []; re_wait_start := ok;
              re_fReaderStart := FALSE; re_get_start := []; re_read := [];
              re_fReaderEnd_before := FALSE; re_wait_end := ok;
              re_fReaderEnd_after := TRUE; re_del := ok |} in
  let c := reader2 (RING_IO_Create_globals L) in
  DSP_SUCCEEDED L (re_sem_status e) = false /\
  outcome_of (open_reader L (rd_name c) (re_handles e)) = Done 8 /\
  ReaderClient L c e =
  ([RingIO_open "RINGIO4" 1 0; RING_IO_CreateSem; RING_IO_WaitSem 0;
    RingIO_close 8; RING_IO_Exit_client 4], Done tt).
Proof.
  intros L ok e c. split; [reflexivity|]. split; [reflexivity|].
  apply (ReaderClient_without_semaphore L c e 8); reflexivity.
Defined.

